(** * videoServer: catalogue, retrieval and thumbnail pipeline

    A shallow embedding of the server side of the video library:
    - [models/Video.js]  (class [Video]: listing, tag search, ranked title search),
    - [models/Tag.js]    (class [Tag]: tag creation),
    - [utils/thumbnailGenerator.js] (class [ThumbnailGenerator]),
    - [server/app.js]    (the routes that commit a thumbnail and filter videos).

    Conventions of the embedding.
    - JavaScript strings are [string]s of bytes (UTF-8).  SQLite's [LOWER]
      and [LIKE] fold the ASCII letters only; JavaScript's [toLowerCase] is
      embedded for ASCII strings, on which it does the same.
    - JavaScript numbers that the code keeps integral are [Z]; the preview
      window, which multiplies by 0.1, 0.2 and 0.3, is computed over [Q],
      exactly and with the rounding of doubles as an explicit function.
    - A table is the list of its rows in rowid order.
    - The thumbnail directory is a finite map from file names to contents.
    - What the external tool (ffmpeg / ffprobe) answers is an explicit
      argument of the function that consults it. *)

From Stdlib Require Import PrimFloat.
From Stdlib Require Import String Ascii ZArith QArith Qminmax Qround Lqa Lia List Bool.
From Stdlib Require Import Sorting.Sorted Sorting.Permutation.
From Stdlib Require Import Numbers.DecimalString Numbers.DecimalZ.
From Stdlib Require SpecFloat FloatOps.
From stdpp Require Import base option list gmap strings.

Import ListNotations.
Local Open Scope string_scope.
Local Open Scope Z_scope.

(** ** JavaScript values and string methods *)

Module JS.

(** [Promise] outcomes: a call resolves with a value or rejects. *)
Inductive result (E A : Type) : Type :=
| Resolved (a : A)
| Rejected (e : E).
Arguments Resolved {E A} a.
Arguments Rejected {E A} e.

Definition is_upper (c : ascii) : bool :=
  let n := nat_of_ascii c in (65 <=? n)%nat && (n <=? 90)%nat.

Definition is_digit (c : ascii) : bool :=
  let n := nat_of_ascii c in (48 <=? n)%nat && (n <=? 57)%nat.

Definition lower_char (c : ascii) : ascii :=
  if is_upper c then ascii_of_nat (nat_of_ascii c + 32) else c.

(** A string of ASCII characters: every byte is below 128. *)
Definition is_ascii_char (c : ascii) : bool := (nat_of_ascii c <? 128)%nat.

Fixpoint is_ascii (s : string) : bool :=
  match s with
  | EmptyString => true
  | String c s' => is_ascii_char c && is_ascii s'
  end.

(** [s.toLowerCase()] for a string of ASCII characters ([is_ascii]).
    JavaScript also folds the letters outside ASCII, which this function
    leaves as they are (as SQLite's [LOWER] and [LIKE] do): a property of
    code that applies [toLowerCase] to a caller's string is stated for
    ASCII strings. *)
Fixpoint toLowerCase (s : string) : string :=
  match s with
  | EmptyString => EmptyString
  | String c s' => String (lower_char c) (toLowerCase s')
  end.

(** [s.startsWith(p)] *)
Fixpoint startsWith (s p : string) : bool :=
  match p, s with
  | EmptyString, _ => true
  | String _ _, EmptyString => false
  | String a p', String b s' => Ascii.eqb a b && startsWith s' p'
  end.

(** [s.includes(p)] *)
Fixpoint includes (s p : string) : bool :=
  startsWith s p ||
  match s with
  | EmptyString => false
  | String _ s' => includes s' p
  end.

Fixpoint rev_string (s : string) : string :=
  match s with
  | EmptyString => EmptyString
  | String c s' => rev_string s' ++ String c EmptyString
  end.

(** [s.endsWith(p)] *)
Definition endsWith (s p : string) : bool :=
  startsWith (rev_string s) (rev_string p).

Fixpoint drop (n : nat) (s : string) : string :=
  match n, s with
  | O, _ => s
  | S n', String _ s' => drop n' s'
  | S _, EmptyString => EmptyString
  end.

(** [s.replace(pat, rep)] with a string pattern: the first occurrence only. *)
Fixpoint replace (s pat rep : string) : string :=
  if startsWith s pat then rep ++ drop (String.length pat) s
  else match s with
       | EmptyString => EmptyString
       | String c s' => String c (replace s' pat rep)
       end.

(** [s.split(sep)] for a one-character separator. *)
Fixpoint split (sep : ascii) (s : string) : list string :=
  match s with
  | EmptyString => [EmptyString]
  | String c s' =>
      if Ascii.eqb c sep then EmptyString :: split sep s'
      else match split sep s' with
           | [] => [String c EmptyString]
           | w :: ws => String c w :: ws
           end
  end.

(** [xs.join(sep)] *)
Fixpoint join (sep : string) (xs : list string) : string :=
  match xs with
  | [] => EmptyString
  | [x] => x
  | x :: rest => x ++ sep ++ join sep rest
  end.

(** Truthiness of a nullable string: [null] and [""] are falsy. *)
Definition truthy (s : option string) : bool :=
  match s with
  | None => false
  | Some EmptyString => false
  | Some _ => true
  end.

Fixpoint all_digits (s : string) : bool :=
  match s with
  | EmptyString => true
  | String c s' => is_digit c && all_digits s'
  end.

Fixpoint leading_digits (s : string) : string :=
  match s with
  | String c s' => if is_digit c then String c (leading_digits s') else EmptyString
  | EmptyString => EmptyString
  end.

(** [parseInt(s)] on an optional sign followed by decimal digits: the value
    of the leading digits, [None] (for [NaN]) when there is none.  (A [0x]
    prefix, which [parseInt] reads as hexadecimal, does not occur in the
    decimal renderings it is applied to here.) *)
Definition parseInt (s : string) : option Z :=
  let '(neg, body) :=
    match s with
    | String c s' =>
        if Ascii.eqb c "-" then (true, s')
        else if Ascii.eqb c "+" then (false, s')
        else (false, s)
    | EmptyString => (false, s)
    end in
  match NilZero.uint_of_string (leading_digits body) with
  | Some u => Some (if neg then - Z.of_uint u else Z.of_uint u)
  | None => None
  end.

(** Decimal rendering of an integer, as string interpolation and SQLite's
    integer-to-text conversion produce it. *)
Definition toString (z : Z) : string := NilZero.string_of_int (Z.to_int z).

(** White space among the ASCII characters, as [\s] and [trim] see it:
    tab, line feed, vertical tab, form feed, carriage return and space. *)
Definition is_space (c : ascii) : bool :=
  let n := nat_of_ascii c in
  ((9 <=? n)%nat && (n <=? 13)%nat) || (n =? 32)%nat.

(** [s.replace(/\s+/g, ' ')]: every run of white space becomes one space.
    [in_run] tells whether the character before was white space. *)
Fixpoint collapse_spaces (in_run : bool) (s : string) : string :=
  match s with
  | EmptyString => EmptyString
  | String c s' =>
      if is_space c
      then if in_run then collapse_spaces true s'
           else String " " (collapse_spaces true s')
      else String c (collapse_spaces false s')
  end.

(** [s.trimStart()] *)
Fixpoint trimStart (s : string) : string :=
  match s with
  | EmptyString => EmptyString
  | String c s' => if is_space c then trimStart s' else s
  end.

(** [s.trimEnd()] *)
Fixpoint trimEnd (s : string) : string :=
  match s with
  | EmptyString => EmptyString
  | String c s' =>
      match trimEnd s' with
      | EmptyString => if is_space c then EmptyString else String c EmptyString
      | t => String c t
      end
  end.

(** [s.trim()] *)
Definition trim (s : string) : string := trimEnd (trimStart s).

(** [xs.slice(0, -1)]: all but the last element. *)
Definition slice_but_last {A : Type} (xs : list A) : list A := removelast xs.

End JS.

(** ** Node's [path] module (POSIX flavour), on file names *)

Module Path.

(** [path.basename(p)]: what follows the last ['/']. *)
Fixpoint basename (p : string) : string :=
  match p with
  | EmptyString => EmptyString
  | String c p' =>
      if JS.includes p' "/" then basename p'
      else if Ascii.eqb c "/" then p' else p
  end.

(** [split_ext b] cuts [b] at its last dot: [(name, ext)] with
    [b = name ++ ext] and [ext] starting at that dot; [None] when [b] has
    no dot. *)
Fixpoint split_ext (b : string) : option (string * string) :=
  match b with
  | EmptyString => None
  | String c b' =>
      match split_ext b' with
      | Some (n, e) => Some (String c n, e)
      | None => if Ascii.eqb c "." then Some (EmptyString, b) else None
      end
  end.

(** [path.parse(p).name]: the base name without its extension.  A leading
    dot does not start an extension, and [".."] has none. *)
Definition parse_name (p : string) : string :=
  let b := basename p in
  if String.eqb b ".." then b
  else match split_ext b with
       | Some (EmptyString, _) => b
       | Some (n, _) => n
       | None => b
       end.

(** A plain file name: it holds no ['/'] and is neither ["."] nor
    [".."]. *)
Definition is_file_name (file : string) : bool :=
  negb (JS.includes file "/")
  && negb (String.eqb file ".") && negb (String.eqb file "..").

(** [path.join(dir, file)] for a normalised directory and a plain file
    name ([is_file_name]), where Node has nothing to normalise: a segment
    ['.'], ['..'] or an empty one in [file] makes it name another path. *)
Definition join (dir file : string) : string := dir ++ "/" ++ file.

(** [path.extname(p)] and [path.parse(p).ext], for a path that does not end
    in ['/']: the base name from its last dot on; empty when there is no
    dot, when the only dot leads the base name, and for [".."]. *)
Definition extname (p : string) : string :=
  let b := basename p in
  if String.eqb b ".." then EmptyString
  else match split_ext b with
       | Some (EmptyString, _) => EmptyString
       | Some (_, e) => e
       | None => EmptyString
       end.

End Path.


(** ** SQLite operators used by the queries *)

Module Sql.

(** [LOWER(X)] *)
Definition LOWER : string -> string := JS.toLowerCase.

(** [X LIKE P]: ['%'] in the pattern matches any run of characters, ['_']
    exactly one character, any other character itself up to the case of
    ASCII letters.  No escape character is declared by the queries. *)
Fixpoint like (p s : string) : bool :=
  match p with
  | EmptyString => match s with EmptyString => true | String _ _ => false end
  | String c p' =>
      if Ascii.eqb c "%" then
        (fix skip (s : string) : bool :=
           like p' s || match s with
                        | EmptyString => false
                        | String _ s' => skip s'
                        end) s
      else
        match s with
        | EmptyString => false
        | String d s' =>
            (Ascii.eqb c "_" || Ascii.eqb (JS.lower_char c) (JS.lower_char d))
            && like p' s'
        end
  end.

(** [GROUP_CONCAT(X)]: the non-NULL values of the group joined by a comma,
    NULL when the group has none. *)
Definition GROUP_CONCAT (vals : list (option string)) : option string :=
  match omap id vals with
  | [] => None
  | xs => Some (JS.join "," xs)
  end.

Section OrderBy.
Context {A : Type} (leb : A -> A -> bool).

Fixpoint insert_sorted (x : A) (l : list A) : list A :=
  match l with
  | [] => [x]
  | y :: l' => if leb x y then x :: l else y :: insert_sorted x l'
  end.

(** [ORDER BY]: a stable sort of the rows by the ordering [leb]. *)
Fixpoint order_by (l : list A) : list A :=
  match l with
  | [] => []
  | x :: l' => insert_sorted x (order_by l')
  end.
End OrderBy.

(** [SELECT DISTINCT]: one row for each distinct value. *)
Definition DISTINCT {A : Type} (eq_dec : forall x y : A, {x = y} + {x <> y})
    (rows : list A) : list A :=
  List.nodup eq_dec rows.

(** [LIMIT n]: the first [n] rows; a negative [n] is no limit. *)
Definition LIMIT {A : Type} (n : Z) (rows : list A) : list A :=
  if n <? 0 then rows else firstn (Z.to_nat n) rows.

End Sql.

(** ** The persisted tables (setup-db.js) *)

Module Db.

(** [videos]; [created_at] and [updated_at] are timestamps, later is larger.
    ([title] is nullable in the schema; every insertion the server makes
    supplies one.) *)
Record video_row : Type := {
  v_id : Z;
  v_filename : string;
  v_title : string;
  v_file_path : string;
  v_file_size : Z;
  v_duration : Z;
  v_width : Z;
  v_height : Z;
  v_thumbnail_path : option string;
  v_preview_path : option string;
  v_created_at : Z;
  v_updated_at : Z
}.

(** [tags]: [name TEXT NOT NULL UNIQUE], the other columns nullable. *)
Record tag_row : Type := {
  t_id : Z;
  t_name : string;
  t_color : option string;
  t_parent_id : option Z;
  t_category : option string;
  t_level : option Z
}.

(** [video_tags] *)
Record video_tag_row : Type := {
  vt_video_id : Z;
  vt_tag_id : Z
}.

(** The database: three tables and the AUTOINCREMENT counter of [tags]
    (the largest id the table has ever handed out). *)
Record t : Type := {
  videos : list video_row;
  tags : list tag_row;
  video_tags : list video_tag_row;
  tags_seq : Z
}.

End Db.

(** ** models/Video.js *)

Module Video.
Import Db.

(** A result row of the [SELECT v.*, GROUP_CONCAT(..) ...] queries. *)
Record raw_row : Type := {
  r_video : video_row;
  r_tags : option string;
  r_tag_colors : option string;
  r_tag_ids : option string;
  r_match_priority : option Z
}.

(** The video object handed to the caller: the row's columns, the three
    aggregated columns split into lists, and the thumbnail URL. *)
Record video : Type := {
  row : video_row;
  tags : list string;
  tag_colors : list string;
  tag_ids : list (option Z);
  match_priority : option Z;
  thumbnail_url : option string
}.

(** Rows that [LEFT JOIN tags t ON vt.tag_id = t.id] yields for one link. *)
Definition tags_of_link (db : Db.t) (vt : video_tag_row) : list (option tag_row) :=
  match List.filter (fun t => t_id t =? vt_tag_id vt) (Db.tags db) with
  | [] => [None]
  | ts => List.map Some ts
  end.

(** The group of [v] in
    [videos v LEFT JOIN video_tags vt ON v.id = vt.video_id
              LEFT JOIN tags t ON vt.tag_id = t.id GROUP BY v.id].
    SQL leaves the order of the rows of a group, and with it the order
    inside a [GROUP_CONCAT], to the query plan; the group is listed here
    in the order of the link table, and what is stated of an aggregated
    list as a whole is stated up to that order. *)
Definition joined (db : Db.t) (v : video_row) : list (option tag_row) :=
  match List.filter (fun vt => vt_video_id vt =? v_id v) (video_tags db) with
  | [] => [None]
  | vts => List.flat_map (tags_of_link db) vts
  end.

Definition col {A} (f : tag_row -> option A) (r : option tag_row) : option A :=
  match r with
  | Some t => f t
  | None => None
  end.

(** [v.*, GROUP_CONCAT(t.name), GROUP_CONCAT(t.color), GROUP_CONCAT(t.id)] *)
Definition aggregate (db : Db.t) (v : video_row) : raw_row :=
  let g := joined db v in
  {| r_video := v;
     r_tags := Sql.GROUP_CONCAT (List.map (col (fun t => Some (t_name t))) g);
     r_tag_colors := Sql.GROUP_CONCAT (List.map (col t_color) g);
     r_tag_ids := Sql.GROUP_CONCAT (List.map (col (fun t => Some (JS.toString (t_id t)))) g);
     r_match_priority := None |}.

(** [row.x ? row.x.split(',') : []] *)
Definition split_list (x : option string) : list string :=
  match x with
  | Some s => if JS.truthy x then JS.split "," s else []
  | None => []
  end.

(** The mapping every query applies to its rows. *)
Definition to_video (r : raw_row) : video :=
  {| row := r_video r;
     tags := split_list (r_tags r);
     tag_colors := split_list (r_tag_colors r);
     tag_ids := List.map JS.parseInt (split_list (r_tag_ids r));
     match_priority := r_match_priority r;
     thumbnail_url :=
       if JS.truthy (v_thumbnail_path (r_video r))
       then option_map (fun p => "/thumbnails/" ++ Path.basename p)
                       (v_thumbnail_path (r_video r))
       else None |}.

(** [ORDER BY v.created_at DESC] *)
Definition newest_first (a b : raw_row) : bool :=
  v_created_at (r_video b) <=? v_created_at (r_video a).

(** [getAllVideos()] *)
Definition getAllVideos (db : Db.t) : list video :=
  List.map to_video
    (Sql.order_by newest_first (List.map (aggregate db) (videos db))).

(** [getVideoById(id)]: [db.get] hands over the first row, [null] when
    there is none. *)
Definition getVideoById (db : Db.t) (id : Z) : option video :=
  match List.filter (fun v => v_id v =? id) (videos db) with
  | [] => None
  | v :: _ => Some (to_video (aggregate db v))
  end.

(** Names counted by
    [SELECT vt2.video_id FROM video_tags vt2 JOIN tags t2 ON vt2.tag_id = t2.id
     WHERE t2.name IN (names) GROUP BY vt2.video_id]
    in the group of video [vid]. *)
Definition matched_names (db : Db.t) (names : list string) (vid : Z) : list string :=
  List.flat_map
    (fun vt =>
       List.map t_name
         (List.filter
            (fun t => (t_id t =? vt_tag_id vt)
                      && existsb (String.eqb (t_name t)) names)
            (Db.tags db)))
    (List.filter (fun vt => vt_video_id vt =? vid) (video_tags db)).

(** [COUNT(DISTINCT t2.name)] *)
Definition count_distinct (l : list string) : Z :=
  Z.of_nat (List.length (List.nodup string_dec l)).

(** [v.id IN (... HAVING COUNT(DISTINCT t2.name) = ?)] with the parameter
    [tagNames.length]; a video with no matching link has no group. *)
Definition has_all_tags (db : Db.t) (names : list string) (v : video_row) : bool :=
  let m := matched_names db names (v_id v) in
  negb (Nat.eqb (List.length m) 0)
  && (count_distinct m =? Z.of_nat (List.length names)).

(** [searchByTags(tagNames)]; [None] is a missing ([null]/[undefined]) list. *)
Definition searchByTags (db : Db.t) (tagNames : option (list string)) : list video :=
  match tagNames with
  | None => []
  | Some [] => []
  | Some names =>
      List.map to_video
        (Sql.order_by newest_first
           (List.map (aggregate db)
              (List.filter (has_all_tags db names) (videos db))))
  end.

(** [searchByTag(tagName)] *)
Definition searchByTag (db : Db.t) (tagName : string) : list video :=
  searchByTags db (Some [tagName]).

(** The four patterns of [enhancedSearchByTitle]. *)
Definition exactMatch (queryLower : string) : string := queryLower.
Definition startMatch (queryLower : string) : string := queryLower ++ "%".
Definition containsMatch (queryLower : string) : string := "%" ++ queryLower ++ "%".
Definition wordStartMatch (queryLower : string) : string := "% " ++ queryLower ++ "%".

(** The [CASE ... END AS match_priority] expression. *)
Definition case_match_priority (queryLower : string) (v : video_row) : Z :=
  let title := Sql.LOWER (v_title v) in
  let filename := Sql.LOWER (v_filename v) in
  if String.eqb title (exactMatch queryLower)
     || String.eqb filename (exactMatch queryLower) then 1
  else if Sql.like (startMatch queryLower) title
          || Sql.like (startMatch queryLower) filename then 2
  else if Sql.like (containsMatch queryLower) title
          || Sql.like (containsMatch queryLower) filename then 3
  else if Sql.like (wordStartMatch queryLower) title
          || Sql.like (wordStartMatch queryLower) filename then 4
  else 5.

(** The [WHERE] clause. *)
Definition where_title (queryLower : string) (v : video_row) : bool :=
  let title := Sql.LOWER (v_title v) in
  let filename := Sql.LOWER (v_filename v) in
  Sql.like (containsMatch queryLower) title
  || Sql.like (containsMatch queryLower) filename
  || Sql.like (startMatch queryLower) title
  || Sql.like (startMatch queryLower) filename
  || Sql.like (wordStartMatch queryLower) title
  || Sql.like (wordStartMatch queryLower) filename.

Definition priority_of (r : raw_row) : Z :=
  match r_match_priority r with
  | Some p => p
  | None => 5
  end.

(** [ORDER BY match_priority ASC, v.created_at DESC] *)
Definition by_priority_then_newest (a b : raw_row) : bool :=
  (priority_of a <? priority_of b)
  || ((priority_of a =? priority_of b) && newest_first a b).

Definition ranked (db : Db.t) (queryLower : string) (v : video_row) : raw_row :=
  let r := aggregate db v in
  {| r_video := r_video r;
     r_tags := r_tags r;
     r_tag_colors := r_tag_colors r;
     r_tag_ids := r_tag_ids r;
     r_match_priority := Some (case_match_priority queryLower v) |}.

(** [enhancedSearchByTitle(query)] *)
Definition enhancedSearchByTitle (db : Db.t) (query : string) : list video :=
  let queryLower := JS.toLowerCase query in
  List.map to_video
    (Sql.order_by by_priority_then_newest
       (List.map (ranked db queryLower)
          (List.filter (where_title queryLower) (videos db)))).

(** The fields an [updateVideo] call provides; [None] is a key that is
    absent or [undefined], [Some None] an explicit [null]. *)
Record video_data : Type := {
  d_thumbnail_path : option (option string);
  d_preview_path : option (option string);
  d_updated_at : option Z
}.

Definition apply_update (videoData : video_data) (now : Z) (v : video_row)
  : video_row :=
  {| v_id := v_id v;
     v_filename := v_filename v;
     v_title := v_title v;
     v_file_path := v_file_path v;
     v_file_size := v_file_size v;
     v_duration := v_duration v;
     v_width := v_width v;
     v_height := v_height v;
     v_thumbnail_path :=
       match d_thumbnail_path videoData with
       | Some x => x
       | None => v_thumbnail_path v
       end;
     v_preview_path :=
       match d_preview_path videoData with
       | Some x => x
       | None => v_preview_path v
       end;
     v_created_at := v_created_at v;
     v_updated_at := now |}.

(** [updateVideo(id, videoData)]:
    [UPDATE videos SET <fields>, updated_at = CURRENT_TIMESTAMP WHERE id = ?];
    of two assignments to [updated_at] SQLite keeps the rightmost.  The
    result tells whether a row changed. *)
Definition updateVideo (db : Db.t) (now : Z) (id : Z) (videoData : video_data)
  : bool * Db.t :=
  match d_thumbnail_path videoData, d_preview_path videoData,
        d_updated_at videoData with
  | None, None, None => (false, db)
  | _, _, _ =>
      (existsb (fun v => v_id v =? id) (videos db),
       {| videos :=
            List.map (fun v => if v_id v =? id
                               then apply_update videoData now v else v)
                     (videos db);
          Db.tags := Db.tags db;
          video_tags := video_tags db;
          tags_seq := tags_seq db |})
  end.

(** The object [GET /api/videos/filter] builds as the argument of
    [getFilteredVideos]; [None] in a numeric field is [null] or [NaN]. *)
Record filter_options : Type := {
  f_tags : list string;
  f_resolution : list string;
  f_durationMin : option Z;
  f_durationMax : option Z;
  f_dateFilter : option string;
  f_dateFrom : option string;
  f_dateTo : option string;
  f_sortBy : string;
  f_order : string;
  f_page : option Z;
  f_limit : option Z
}.

(** The methods that class [Video] defines, in the order of
    models/Video.js (the earlier version of the file lacks
    [getAutoCompleteSuggestions] and [enhancedSearchByTitle]). *)
Definition methods : list string :=
  [ "getAllVideos"; "getVideoById"; "addVideo"; "updateVideo"; "deleteVideo";
    "searchByTag"; "searchByTags"; "searchByTitle"; "getAutoCompleteSuggestions";
    "enhancedSearchByTitle"; "addTagToVideo"; "removeTagFromVideo"; "close" ].

(** [video.getFilteredVideos(options)]: the class defines no method of
    that name, so the property is [undefined] and the call throws a
    [TypeError], whatever the database and the options. *)
Definition getFilteredVideos (db : Db.t) (options : filter_options)
  : JS.result string (list video) :=
  JS.Rejected "TypeError: video.getFilteredVideos is not a function".

(** *** Plain title search and suggestions *)

(** [WHERE v.title LIKE ? OR v.filename LIKE ?] *)
Definition title_like (searchTerm : string) (v : video_row) : bool :=
  Sql.like searchTerm (v_title v) || Sql.like searchTerm (v_filename v).

(** [searchByTitle(title)] *)
Definition searchByTitle (db : Db.t) (title : string) : list video :=
  let searchTerm := "%" ++ title ++ "%" in
  List.map to_video
    (Sql.order_by newest_first
       (List.map (aggregate db)
          (List.filter (title_like searchTerm) (videos db)))).

(** The [CASE ... END AS priority] of the suggestion query. *)
Definition suggestion_priority (queryLower : string) (v : video_row) : Z :=
  let title := Sql.LOWER (v_title v) in
  let filename := Sql.LOWER (v_filename v) in
  if Sql.like (startMatch queryLower) title then 1
  else if Sql.like (wordStartMatch queryLower) title then 2
  else if Sql.like (containsMatch queryLower) title then 3
  else if Sql.like (containsMatch queryLower) filename then 4
  else 5.

(** Its [WHERE] clause, the four patterns in the order they are bound. *)
Definition suggestion_where (queryLower : string) (v : video_row) : bool :=
  let title := Sql.LOWER (v_title v) in
  let filename := Sql.LOWER (v_filename v) in
  Sql.like (startMatch queryLower) title
  || Sql.like (containsMatch queryLower) filename
  || Sql.like (wordStartMatch queryLower) title
  || Sql.like (containsMatch queryLower) filename.

Definition suggestion_eq_dec (x y : string * Z) : {x = y} + {x <> y}.
Proof. decide equality; [apply Z.eq_dec|apply string_dec]. Defined.

(** [ORDER BY priority ASC, title ASC], titles compared byte by byte. *)
Definition by_priority_then_title (a b : string * Z) : bool :=
  (snd a <? snd b) || ((snd a =? snd b) && String.leb (fst a) (fst b)).

(** The rows of the suggestion query: [SELECT DISTINCT title, priority]. *)
Definition suggestion_rows (db : Db.t) (queryLower : string) (limit : Z)
  : list (string * Z) :=
  Sql.LIMIT limit
    (Sql.order_by by_priority_then_title
       (Sql.DISTINCT suggestion_eq_dec
          (List.map (fun v => (v_title v, suggestion_priority queryLower v))
             (List.filter (suggestion_where queryLower) (videos db))))).

(** [getAutoCompleteSuggestions(query, limit)] *)
Definition getAutoCompleteSuggestions (db : Db.t) (query : string) (limit : Z)
  : list string :=
  List.map fst (suggestion_rows db (JS.toLowerCase query) limit).

(** *** Rows and links *)

(** The connections of the server are opened with
    [new sqlite3.Database(dbPath)] and no statement ever issues
    [PRAGMA foreign_keys = ON]; SQLite enforces [REFERENCES] clauses, and
    runs their [ON DELETE CASCADE] actions, only under that pragma.  So an
    [INSERT] checks the [UNIQUE] and [NOT NULL] constraints of its own
    table, and a [DELETE] removes rows of its own table and no others. *)
Definition is_link (videoId tagId : Z) (vt : video_tag_row) : bool :=
  (vt_video_id vt =? videoId) && (vt_tag_id vt =? tagId).

Definition with_video_tags (db : Db.t) (links : list video_tag_row) : Db.t :=
  {| videos := videos db;
     Db.tags := Db.tags db;
     video_tags := links;
     tags_seq := tags_seq db |}.

Definition with_videos (db : Db.t) (rows : list video_row) : Db.t :=
  {| videos := rows;
     Db.tags := Db.tags db;
     video_tags := video_tags db;
     tags_seq := tags_seq db |}.

(** [addTagToVideo(videoId, tagId)]:
    [INSERT OR IGNORE INTO video_tags (video_id, tag_id) VALUES (?, ?)]
    under [UNIQUE(video_id, tag_id)]; the result is [this.changes > 0]. *)
Definition addTagToVideo (db : Db.t) (videoId tagId : Z) : bool * Db.t :=
  if existsb (is_link videoId tagId) (video_tags db) then (false, db)
  else (true,
        with_video_tags db
          (video_tags db ++ [ {| vt_video_id := videoId; vt_tag_id := tagId |} ])).

(** [removeTagFromVideo(videoId, tagId)]:
    [DELETE FROM video_tags WHERE video_id = ? AND tag_id = ?]. *)
Definition removeTagFromVideo (db : Db.t) (videoId tagId : Z) : bool * Db.t :=
  (existsb (is_link videoId tagId) (video_tags db),
   with_video_tags db
     (List.filter (fun vt => negb (is_link videoId tagId vt)) (video_tags db))).

(** [deleteVideo(id)]: [DELETE FROM videos WHERE id = ?]. *)
Definition deleteVideo (db : Db.t) (id : Z) : bool * Db.t :=
  (existsb (fun v => v_id v =? id) (videos db),
   with_videos db (List.filter (fun v => negb (v_id v =? id)) (videos db))).

(** The columns [addVideo] binds. *)
Record new_video : Type := {
  n_filename : string;
  n_title : string;
  n_file_path : string;
  n_file_size : Z;
  n_duration : Z;
  n_width : Z;
  n_height : Z;
  n_thumbnail_path : option string;
  n_preview_path : option string
}.

(** The id AUTOINCREMENT hands out for [videos]; [videos_seq] is the
    largest id the table has ever held. *)
Definition next_video_id (videos_seq : Z) (db : Db.t) : Z :=
  1 + List.fold_right Z.max videos_seq (List.map v_id (videos db)).

(** [addVideo(videoData)]: the [INSERT] fails on a [file_path] that is
    already stored ([file_path TEXT NOT NULL UNIQUE]); otherwise the row
    gets a fresh id and the clock as both time stamps, and the id is
    [this.lastID]. *)
Definition addVideo (videos_seq now : Z) (db : Db.t) (videoData : new_video)
  : JS.result string Z * Db.t :=
  if existsb (fun v => String.eqb (v_file_path v) (n_file_path videoData)) (videos db)
  then (JS.Rejected "SQLITE_CONSTRAINT", db)
  else
    let id := next_video_id videos_seq db in
    (JS.Resolved id,
     with_videos db
       (videos db ++
        [ {| v_id := id;
             v_filename := n_filename videoData;
             v_title := n_title videoData;
             v_file_path := n_file_path videoData;
             v_file_size := n_file_size videoData;
             v_duration := n_duration videoData;
             v_width := n_width videoData;
             v_height := n_height videoData;
             v_thumbnail_path := n_thumbnail_path videoData;
             v_preview_path := n_preview_path videoData;
             v_created_at := now;
             v_updated_at := now |} ])).

End Video.

(** ** models/Tag.js *)

Module Tag.
Import Db.

(** What [createTag] rejects with: its own [Error] for a duplicate name, or
    the driver's error passed on unchanged. *)
Inductive error : Type :=
| TagAlreadyExists (name : string)
| DriverError (code : string).

(** The id AUTOINCREMENT hands out: one more than the largest id the table
    holds or has ever held. *)
Definition next_id (db : Db.t) : Z :=
  1 + List.fold_right Z.max (tags_seq db) (List.map t_id (Db.tags db)).

(** The [name TEXT NOT NULL UNIQUE] constraint: the column has the default
    (binary) collation, so two names clash when they are equal byte for
    byte. *)
Definition violates_unique (db : Db.t) (name : string) : bool :=
  existsb (fun t => String.eqb (t_name t) name) (Db.tags db).

(** [INSERT INTO tags (name, color, parent_id, category, level)
     VALUES (?, ?, ?, ?, ?)]: [inl lastID] with the table extended, or
    [inr tt] for a constraint failure with the table as it was. *)
Definition insert_tag (db : Db.t) (name : string) (color : option string)
    (parentId : option Z) (category : option string) (level : option Z)
  : (Z + unit) * Db.t :=
  if violates_unique db name then (inr tt, db)
  else
    let id := next_id db in
    (inl id,
     {| videos := videos db;
        Db.tags := Db.tags db ++
          [ {| t_id := id; t_name := name; t_color := color;
               t_parent_id := parentId; t_category := category;
               t_level := level |} ];
        video_tags := video_tags db;
        tags_seq := id |}).

(** [createTag(name, color, parentId, category, level)].  [unique_code] is
    the [code] the driver puts on the error of a failed UNIQUE constraint;
    the method compares it with ["SQLITE_CONSTRAINT_UNIQUE"] and rejects
    either way. *)
Definition createTag (unique_code : string) (db : Db.t) (name : string)
    (color : option string) (parentId : option Z) (category : option string)
    (level : option Z) : JS.result error Z * Db.t :=
  match insert_tag db name color parentId category level with
  | (inr _, db') =>
      if String.eqb unique_code "SQLITE_CONSTRAINT_UNIQUE"
      then (JS.Rejected (TagAlreadyExists name), db')
      else (JS.Rejected (DriverError unique_code), db')
  | (inl lastID, db') => (JS.Resolved lastID, db')
  end.

(** [getTagByName(name)]: [WHERE LOWER(name) = LOWER(?)], first row. *)
Definition getTagByName (db : Db.t) (name : string) : option tag_row :=
  List.find (fun t => String.eqb (Sql.LOWER (t_name t)) (Sql.LOWER name))
            (Db.tags db).

(** [findOrCreateTag(name, color)]: the three-argument defaults of
    [createTag] are [null], ['custom'] and [1]. *)
Definition findOrCreateTag (unique_code : string) (db : Db.t) (name : string)
    (color : option string) : JS.result error Z * Db.t :=
  match getTagByName db name with
  | Some existingTag => (JS.Resolved (t_id existingTag), db)
  | None => createTag unique_code db name color None (Some "custom") (Some 1)
  end.

(** *** Tags with their use counts *)

(** A row of the [SELECT t.*, COUNT(vt.video_id) as video_count] queries. *)
Record counted_tag : Type := {
  ct_tag : tag_row;
  ct_video_count : Z
}.

(** [COUNT(vt.video_id)] in the group of [t] in
    [tags t LEFT JOIN video_tags vt ON t.id = vt.tag_id GROUP BY t.id]:
    the number of link rows that name the tag. *)
Definition video_count (db : Db.t) (t : tag_row) : Z :=
  Z.of_nat (List.length
              (List.filter (fun vt => vt_tag_id vt =? t_id t) (video_tags db))).

Definition counted (db : Db.t) (t : tag_row) : counted_tag :=
  {| ct_tag := t; ct_video_count := video_count db t |}.

(** [ORDER BY t.name ASC], names compared byte by byte. *)
Definition by_name (a b : tag_row) : bool := String.leb (t_name a) (t_name b).

(** Comparison of nullable columns: NULL sorts before every value. *)
Definition compare_nullable {A : Type} (cmp : A -> A -> comparison)
    (x y : option A) : comparison :=
  match x, y with
  | None, None => Eq
  | None, Some _ => Lt
  | Some _, None => Gt
  | Some a, Some b => cmp a b
  end.

(** [ORDER BY t.level ASC, t.category ASC, t.name ASC] *)
Definition by_level_category_name (a b : tag_row) : bool :=
  match compare_nullable Z.compare (t_level a) (t_level b) with
  | Lt => true
  | Gt => false
  | Eq =>
      match compare_nullable String.compare (t_category a) (t_category b) with
      | Lt => true
      | Gt => false
      | Eq => by_name a b
      end
  end.

(** [getAllTags()] *)
Definition getAllTags (db : Db.t) : list counted_tag :=
  List.map (counted db) (Sql.order_by by_level_category_name (Db.tags db)).

(** [getTagById(id)] *)
Definition getTagById (db : Db.t) (id : Z) : option counted_tag :=
  option_map (counted db) (List.find (fun t => t_id t =? id) (Db.tags db)).

(** [searchTags(searchTerm)]: [WHERE t.name LIKE ?] with [%searchTerm%]. *)
Definition searchTags (db : Db.t) (searchTerm : string) : list counted_tag :=
  List.map (counted db)
    (Sql.order_by by_name
       (List.filter (fun t => Sql.like ("%" ++ searchTerm ++ "%") (t_name t))
          (Db.tags db))).

(** [getTagsByVideoId(videoId)]:
    [tags t JOIN video_tags vt ON t.id = vt.tag_id WHERE vt.video_id = ?]. *)
Definition getTagsByVideoId (db : Db.t) (videoId : Z) : list tag_row :=
  Sql.order_by by_name
    (List.flat_map
       (fun t =>
          List.map (fun _ => t)
            (List.filter
               (fun vt => (vt_tag_id vt =? t_id t) && (vt_video_id vt =? videoId))
               (video_tags db)))
       (Db.tags db)).

(** [ORDER BY video_count DESC, t.name ASC] *)
Definition by_count_then_name (a b : counted_tag) : bool :=
  (ct_video_count b <? ct_video_count a)
  || ((ct_video_count a =? ct_video_count b) && by_name (ct_tag a) (ct_tag b)).

(** [getPopularTags(limit)]: the inner join keeps the tags that have a
    link row. *)
Definition getPopularTags (db : Db.t) (limit : Z) : list counted_tag :=
  Sql.LIMIT limit
    (Sql.order_by by_count_then_name
       (List.map (counted db)
          (List.filter (fun t => 0 <? video_count db t) (Db.tags db)))).

(** [getUnusedTags()]: [LEFT JOIN ... WHERE vt.tag_id IS NULL]. *)
Definition getUnusedTags (db : Db.t) : list tag_row :=
  Sql.order_by by_name
    (List.filter (fun t => video_count db t =? 0) (Db.tags db)).

Definition with_tags (db : Db.t) (rows : list tag_row) : Db.t :=
  {| videos := videos db;
     Db.tags := rows;
     video_tags := video_tags db;
     tags_seq := tags_seq db |}.

(** [id IN (SELECT DISTINCT tag_id FROM video_tags)] *)
Definition in_use (db : Db.t) (t : tag_row) : bool :=
  existsb (fun vt => vt_tag_id vt =? t_id t) (video_tags db).

(** [cleanupUnusedTags()]:
    [DELETE FROM tags WHERE id NOT IN (SELECT DISTINCT tag_id FROM video_tags)];
    the result is [this.changes].  (Foreign keys are not enforced, see
    [Video.is_link]: the statement removes rows of [tags] only.) *)
Definition cleanupUnusedTags (db : Db.t) : Z * Db.t :=
  (Z.of_nat (List.length (List.filter (fun t => negb (in_use db t)) (Db.tags db))),
   with_tags db (List.filter (in_use db) (Db.tags db))).

(** [deleteTag(id)]: [DELETE FROM tags WHERE id = ?]; the result is
    [this.changes > 0]. *)
Definition deleteTag (db : Db.t) (id : Z) : bool * Db.t :=
  (existsb (fun t => t_id t =? id) (Db.tags db),
   with_tags db (List.filter (fun t => negb (t_id t =? id)) (Db.tags db))).

(** The row [updateTag] writes: name and color always, the category when
    the argument is truthy. *)
Definition updated_tag (name : string) (color category : option string)
    (t : tag_row) : tag_row :=
  {| t_id := t_id t;
     t_name := name;
     t_color := color;
     t_parent_id := t_parent_id t;
     t_category := if JS.truthy category then category else t_category t;
     t_level := t_level t |}.

(** [updateTag(id, name, color, category)]:
    [UPDATE tags SET name = ?, color = ? (, category = ?) WHERE id = ?].
    The statement fails when it would give the row a name that another row
    holds; otherwise the result is [this.changes > 0]. *)
Definition updateTag (unique_code : string) (db : Db.t) (id : Z) (name : string)
    (color category : option string) : JS.result error bool * Db.t :=
  let hit := existsb (fun t => t_id t =? id) (Db.tags db) in
  let clash :=
    existsb (fun t => negb (t_id t =? id) && String.eqb (t_name t) name)
            (Db.tags db) in
  if hit && clash then (JS.Rejected (DriverError unique_code), db)
  else
    (JS.Resolved hit,
     with_tags db
       (List.map (fun t => if t_id t =? id
                           then updated_tag name color category t else t)
                 (Db.tags db))).

End Tag.

(** ** utils/thumbnailGenerator.js *)

Module Thumb.

(** *** The external tool *)

(** What [ffmpeg.ffprobe(videoPath, callback)] does: throw, call back with
    an error, or call back with metadata.  Of the metadata the code reads
    [format.duration] and the [duration] of the first video stream; [None]
    stands for a value that is missing or not a number. *)
Inductive probe : Type :=
| ProbeThrows
| ProbeError
| ProbeMetadata (format_duration : option Q) (stream_duration : option Q).

(** One invocation of the transcoder. *)
Inductive job : Type :=
| Frame (input timemark : string) (width height : Z) (output : string)
| Clip (input : string) (seek length : Q) (width height : Z) (output : string).

(** How an invocation ends: the ['end'] event, the ['error'] event (either
    may or may not have left an output file), or an exception while the
    command is being built. *)
Inductive outcome : Type :=
| Ended (written : option string)
| Errored (written : option string)
| Threw.

(** The module-level [ffmpeg] binding ([false]: the [require] failed and it
    is [null]) and the answers of the tool. *)
Record env : Type := {
  ffmpeg : bool;
  ffprobe : string -> probe;
  run : job -> outcome;
  video_exists : string -> bool
}.

(** The files below the thumbnail directory, by path, and the invocations
    of the transcoder so far. *)
Record world : Type := {
  files : gmap string string;
  jobs : list job
}.

Definition pathExists (w : world) (p : string) : bool :=
  bool_decide (is_Some (files w !! p)).

(** [fs.stat(p).size] *)
Definition size (content : string) : Z := Z.of_nat (String.length content).

Definition remove (p : string) (w : world) : world :=
  {| files := delete p (files w); jobs := jobs w |}.

Definition writeFile (p content : string) (w : world) : world :=
  {| files := <[p := content]> (files w); jobs := jobs w |}.

Definition output_of (j : job) : string :=
  match j with
  | Frame _ _ _ _ o => o
  | Clip _ _ _ _ _ o => o
  end.

Definition leave (written : option string) (p : string) (w : world) : world :=
  match written with
  | Some c => writeFile p c w
  | None => w
  end.

(** Running a job: it is logged, and what it wrote is on disk. *)
Definition spawn (E : env) (j : job) (w : world) : outcome * world :=
  let logged := {| files := files w; jobs := jobs w ++ [j] |} in
  match run E j with
  | Ended wr => (Ended wr, leave wr (output_of j) logged)
  | Errored wr => (Errored wr, leave wr (output_of j) logged)
  | Threw => (Threw, logged)
  end.

(** *** File names *)

(** [getThumbnailFilename(originalFilename)] *)
Definition getThumbnailFilename (originalFilename : string) : string :=
  "thumb_" ++ Path.parse_name originalFilename ++ ".jpg".

(** [getPreviewFilename(originalFilename)] *)
Definition getPreviewFilename (originalFilename : string) : string :=
  "preview_" ++ Path.parse_name originalFilename ++ ".mp4".

(** [n.toString().padStart(2, '0')] *)
Definition pad2 (n : Z) : string :=
  let s := JS.toString n in
  match String.length s with
  | O => "00"
  | S O => "0" ++ s
  | _ => s
  end.

(** [formatTime(seconds)] *)
Definition formatTime (seconds : Z) : string :=
  let hours := seconds / 3600 in
  let minutes := Z.rem seconds 3600 / 60 in
  let secs := Z.rem seconds 60 in
  pad2 hours ++ ":" ++ pad2 minutes ++ ":" ++ pad2 secs.

(** *** Duration *)

(** A number is truthy unless it is zero. *)
Definition nonzero (q : Q) : bool := negb (Qeq_bool q 0).

(** [getVideoDuration(videoPath)]: never rejects. *)
Definition getVideoDuration (E : env) (videoPath : string) : Z :=
  if negb (ffmpeg E) then 0
  else match ffprobe E videoPath with
       | ProbeThrows => 0
       | ProbeError => 0
       | ProbeMetadata fd sd =>
           match fd with
           | Some d => if nonzero d then Qfloor d
                       else match sd with
                            | Some d' => if nonzero d' then Qfloor d' else 0
                            | None => 0
                            end
           | None => match sd with
                     | Some d' => if nonzero d' then Qfloor d' else 0
                     | None => 0
                     end
           end
       end.

(** *** The preview window *)

Definition Qltb (a b : Q) : bool := negb (Qle_bool b a).

(** The start offset and the length that [generatePreview] computes from
    the duration, final validation included, in exact arithmetic: the
    window up to the rounding of the doubles the code computes with, which
    [preview_window_rounded] writes out. *)
Definition preview_window (videoDuration : Z) : Q * Q :=
  let d : Q := inject_Z videoDuration in
  let '(startTime, duration) :=
    if videoDuration <=? 30 then
      let startTime : Q := Qmin 2 (d * (1 # 10)) in
      (startTime, Qmin 10 (d - startTime - 1)%Q)
    else if videoDuration <=? 60 then
      (15%Q, Qmin 15 (d - 15 - 5)%Q)
    else
      let startTime : Q := Qmax 30 (d * (2 # 10)) in
      let duration : Q := Qmin 20 (Qmax 10 (d * (3 # 10))) in
      (Qmin startTime (d - duration - 5)%Q, duration) in
  let startTime : Q := if Qltb startTime 0 then 0%Q else startTime in
  let duration : Q :=
    if Qle_bool duration 0 || Qltb d (startTime + duration)
    then Qmax 1 (d - startTime - 1)%Q
    else duration in
  (startTime, duration).

(** The same computation with the rounding of double-precision arithmetic
    written out.  [fl x] is the double nearest to [x]: the literals [0.1],
    [0.2] and [0.3] of the source are the doubles [fl (1 # 10)],
    [fl (2 # 10)] and [fl (3 # 10)], and every product, difference and sum
    is rounded; [Math.min], [Math.max] and the comparisons are exact, and
    so are the integer literals.  With the identity for [fl] this is
    [preview_window]. *)
Definition preview_window_rounded (fl : Q -> Q) (videoDuration : Z) : Q * Q :=
  let d : Q := inject_Z videoDuration in
  let '(startTime, duration) :=
    if videoDuration <=? 30 then
      let startTime : Q := Qmin 2 (fl (d * fl (1 # 10))%Q) in
      (startTime, Qmin 10 (fl (fl (d - startTime)%Q - 1)%Q))
    else if videoDuration <=? 60 then
      (15%Q, Qmin 15 (fl (fl (d - 15)%Q - 5)%Q))
    else
      let startTime : Q := Qmax 30 (fl (d * fl (2 # 10))%Q) in
      let duration : Q := Qmin 20 (Qmax 10 (fl (d * fl (3 # 10))%Q)) in
      (Qmin startTime (fl (fl (d - duration)%Q - 5)%Q), duration) in
  let startTime : Q := if Qltb startTime 0 then 0%Q else startTime in
  let duration : Q :=
    if Qle_bool duration 0 || Qltb d (fl (startTime + duration)%Q)
    then Qmax 1 (fl (fl (d - startTime)%Q - 1)%Q)
    else duration in
  (startTime, duration).

(** The same computation on binary64 numbers, the doubles of the engine.
    [Math.min] and [Math.max] are taken on numbers (no [NaN]); the
    literals are written in hexadecimal, [0x1.999999999999ap-4] being the
    double that [0.1] denotes, [0x1.999999999999ap-3] the one of [0.2] and
    [0x1.3333333333333p-2] the one of [0.3]. *)
Definition Math_min (a b : PrimFloat.float) : PrimFloat.float :=
  if PrimFloat.ltb b a then b else a.

Definition Math_max (a b : PrimFloat.float) : PrimFloat.float :=
  if PrimFloat.ltb a b then b else a.

Definition preview_window_binary64 (videoDuration : PrimFloat.float)
  : PrimFloat.float * PrimFloat.float :=
  let '(startTime, duration) :=
    if PrimFloat.leb videoDuration 30%float then
      let startTime :=
        Math_min 2%float (PrimFloat.mul videoDuration 0x1.999999999999ap-4%float) in
      (startTime,
       Math_min 10%float
         (PrimFloat.sub (PrimFloat.sub videoDuration startTime) 1%float))
    else if PrimFloat.leb videoDuration 60%float then
      (15%float,
       Math_min 15%float
         (PrimFloat.sub (PrimFloat.sub videoDuration 15%float) 5%float))
    else
      let startTime :=
        Math_max 30%float (PrimFloat.mul videoDuration 0x1.999999999999ap-3%float) in
      let duration :=
        Math_min 20%float
          (Math_max 10%float
             (PrimFloat.mul videoDuration 0x1.3333333333333p-2%float)) in
      (Math_min startTime
         (PrimFloat.sub (PrimFloat.sub videoDuration duration) 5%float),
       duration) in
  let startTime :=
    if PrimFloat.ltb startTime 0%float then 0%float else startTime in
  let duration :=
    if PrimFloat.leb duration 0%float
       || PrimFloat.ltb videoDuration (PrimFloat.add startTime duration)
    then Math_max 1%float
           (PrimFloat.sub (PrimFloat.sub videoDuration startTime) 1%float)
    else duration in
  (startTime, duration).

Section Generator.
(** The environment and the [thumbnailDir] field of the instance. *)
Variable E : env.
Variable thumbnailDir : string.

(** *** Preview clip *)

(** The promise that ends [generatePreview]: the extraction proper, and
    the check of what it produced. *)
Definition extract_preview (videoPath previewPath : string)
    (startTime duration : Q) (width height : Z) (w : world)
  : option string * world :=
  if negb (ffmpeg E) then (None, w)
  else
    match spawn E (Clip videoPath startTime duration width height previewPath) w with
    | (Ended _, w') =>
        match files w' !! previewPath with
        | Some content =>
            if size content <? 1024 then (None, remove previewPath w')
            else (Some previewPath, w')
        | None => (None, w')
        end
    | (Errored _, w') => (None, w')
    | (Threw, w') => (None, w')
    end.

(** [generatePreview(videoPath, filename, {width, height})]: the path of
    the clip, or [None] for [null]. *)
Definition generatePreview (videoPath filename : string) (width height : Z)
    (w : world) : option string * world :=
  let videoDuration := getVideoDuration E videoPath in
  if videoDuration =? 0 then (None, w)
  else
    let '(startTime, duration) := preview_window videoDuration in
    let previewFilename := getPreviewFilename filename in
    let previewPath := Path.join thumbnailDir previewFilename in
    match files w !! previewPath with
    | Some content =>
        if size content >? 1024 then (Some previewPath, w)
        else extract_preview videoPath previewPath startTime duration
               width height (remove previewPath w)
    | None =>
        extract_preview videoPath previewPath startTime duration
          width height w
    end.

(** *** Single thumbnail *)

(** The placeholder image (markup abbreviated): it carries the base name
    of the file and the notice that the tool is missing. *)
Definition placeholder_svg (filename : string) : string :=
  "<svg>Video File " ++ Path.parse_name filename ++ " FFmpeg not available</svg>".

(** [createPlaceholderThumbnail(thumbnailPath, filename)] *)
Definition createPlaceholderThumbnail (thumbnailPath filename : string)
    (w : world) : string * world :=
  let svgPath := JS.replace thumbnailPath ".jpg" ".svg" in
  (svgPath, writeFile svgPath (placeholder_svg filename) w).

(** [generateThumbnail(videoPath, filename, {width, height, timemark})] *)
Definition generateThumbnail (videoPath filename : string)
    (width height : Z) (timemark : string) (w : world) : string * world :=
  let thumbnailFilename := getThumbnailFilename filename in
  let thumbnailPath := Path.join thumbnailDir thumbnailFilename in
  if pathExists w thumbnailPath then (thumbnailPath, w)
  else if negb (ffmpeg E) then createPlaceholderThumbnail thumbnailPath filename w
  else
    match spawn E (Frame videoPath timemark width height thumbnailPath) w with
    | (Ended _, w') => (thumbnailPath, w')
    | (Errored _, w') => createPlaceholderThumbnail thumbnailPath filename w'
    | (Threw, w') => createPlaceholderThumbnail thumbnailPath filename w'
    end.

(** [generateSingleThumbnail(videoPath, outputPath, timemark, {width, height})] *)
Definition generateSingleThumbnail (videoPath outputPath timemark : string)
    (width height : Z) (w : world) : JS.result string unit * world :=
  if negb (ffmpeg E) then (JS.Rejected "FFmpeg not available", w)
  else
    match spawn E (Frame videoPath timemark width height outputPath) w with
    | (Ended _, w') => (JS.Resolved tt, w')
    | (Errored _, w') => (JS.Rejected "ffmpeg error", w')
    | (Threw, w') => (JS.Rejected "ffmpeg execution error", w')
    end.

(** *** Selection thumbnails *)

Record candidate : Type := {
  c_path : string;
  c_filename : string;
  c_timemark : string;
  c_index : Z;
  c_timestamp : Z;
  c_url : string
}.

Definition selection_name (index : Z) (filename : string) : string :=
  "selection_" ++ JS.toString index ++ "_" ++ getThumbnailFilename filename.

Definition mk_candidate (index timestamp : Z) (timemark filename : string)
  : candidate :=
  let thumbnailFilename := selection_name index filename in
  {| c_path := Path.join thumbnailDir thumbnailFilename;
     c_filename := thumbnailFilename;
     c_timemark := timemark;
     c_index := index;
     c_timestamp := timestamp;
     c_url := "/thumbnails/" ++ thumbnailFilename |}.

(** The body of the [try] block both loops share: reuse the file when it
    is there, extract it otherwise, then look again.  [Resolved b]: the
    block ran to its end, and [b] tells whether the file is there;
    [Rejected]: the extraction raised and control went to [catch]. *)
Definition attempt (videoPath thumbnailPath timemark : string) (w : world)
  : JS.result string bool * world :=
  if pathExists w thumbnailPath
  then (JS.Resolved (pathExists w thumbnailPath), w)
  else
    match generateSingleThumbnail videoPath thumbnailPath timemark 240 180 w with
    | (JS.Resolved _, w') => (JS.Resolved (pathExists w' thumbnailPath), w')
    | (JS.Rejected e, w') => (JS.Rejected e, w')
    end.

Definition fallbackTimes : list string := ["00:00:01"; "00:00:03"; "00:00:05"].

(** The loop of [generateFallbackThumbnails] from index [i] on, over the
    remaining time marks. *)
Fixpoint fallback_loop (videoPath filename : string) (i : Z)
    (times : list string) (thumbnails : list candidate) (w : world)
  : list candidate * world :=
  match times with
  | [] => (thumbnails, w)
  | timemark :: rest =>
      let thumbnailPath := Path.join thumbnailDir (selection_name (i + 1) filename) in
      match attempt videoPath thumbnailPath timemark w with
      | (JS.Resolved true, w') =>
          fallback_loop videoPath filename (i + 1) rest
            (thumbnails ++ [mk_candidate (i + 1) ((i + 1) * 2) timemark filename]) w'
      | (JS.Resolved false, w') =>
          fallback_loop videoPath filename (i + 1) rest thumbnails w'
      | (JS.Rejected _, w') =>
          if i =? 0 then (thumbnails, w')
          else fallback_loop videoPath filename (i + 1) rest thumbnails w'
      end
  end.

(** [generateFallbackThumbnails(videoPath, filename, count)]: the loop
    runs while [i < Math.min(count, fallbackTimes.length)]. *)
Definition generateFallbackThumbnails (videoPath filename : string)
    (count : Z) (w : world) : list candidate * world :=
  fallback_loop videoPath filename 0
    (firstn (Z.to_nat (Z.min count 3)) fallbackTimes) [] w.

(** The main loop of [generateSelectionThumbnails] over the indices left. *)
Fixpoint selection_loop (videoPath filename : string) (finalInterval : Z)
    (indices : list Z) (thumbnails : list candidate) (w : world)
  : list candidate * world :=
  match indices with
  | [] => (thumbnails, w)
  | i :: rest =>
      let timestamp := finalInterval * i in
      let timemark := formatTime timestamp in
      let thumbnailPath := Path.join thumbnailDir (selection_name i filename) in
      match attempt videoPath thumbnailPath timemark w with
      | (JS.Resolved true, w') =>
          selection_loop videoPath filename finalInterval rest
            (thumbnails ++ [mk_candidate i timestamp timemark filename]) w'
      | (JS.Resolved false, w') =>
          selection_loop videoPath filename finalInterval rest thumbnails w'
      | (JS.Rejected _, w') =>
          selection_loop videoPath filename finalInterval rest thumbnails w'
      end
  end.

(** [generateSelectionThumbnails(videoPath, filename, count)].  The
    directory is a map, so [fs.ensureDir] has nothing to do; the duration is
    an integer, so the [isNaN] test never fires.  With [count = -1] the
    interval is [duration / 0], that is [Infinity]: no branch is taken and
    the loop bound [Math.min(-1, 0)] admits no index. *)
Definition generateSelectionThumbnails (videoPath filename : string)
    (count : Z) (w : world) : list candidate * world :=
  if negb (ffmpeg E) then ([], w)
  else if negb (video_exists E videoPath) then ([], w)
  else
    let duration := getVideoDuration E videoPath in
    if duration =? 0 then
      generateFallbackThumbnails videoPath filename (Z.min count 3) w
    else if count + 1 =? 0 then ([], w)
    else
      let interval := duration / (count + 1) in
      if interval <=? 0 then
        generateFallbackThumbnails videoPath filename
          (Z.min count (Z.max 1 duration)) w
      else
        let finalInterval := Z.max 1 interval in
        let adjustedCount := Z.min count (duration / finalInterval) in
        selection_loop videoPath filename finalInterval
          (List.map Z.of_nat (List.seq 1 (Z.to_nat adjustedCount))) [] w.

(** *** Removing the artifacts of a video *)

(** [deleteThumbnail(filename)]: the thumbnail, the preview clip and the
    placeholder are removed, each removal ignoring its own failure. *)
Definition deleteThumbnail (filename : string) (w : world) : world :=
  let thumbnailPath := Path.join thumbnailDir (getThumbnailFilename filename) in
  let previewPath := Path.join thumbnailDir (getPreviewFilename filename) in
  let svgPath := JS.replace thumbnailPath ".jpg" ".svg" in
  remove svgPath (remove previewPath (remove thumbnailPath w)).

End Generator.

End Thumb.

(** ** utils/fileScanner.js *)

Module FileScanner.

(** [this.supportedFormats] *)
Definition supportedFormats : list string :=
  [".mp4"; ".mkv"; ".avi"; ".mov"; ".wmv"; ".flv"; ".webm"].

(** [isVideoFile(filePath)] *)
Definition isVideoFile (filePath : string) : bool :=
  let ext := JS.toLowerCase (Path.extname filePath) in
  existsb (String.eqb ext) supportedFormats.

(** The character class [[._-]]. *)
Definition is_separator (c : ascii) : bool :=
  Ascii.eqb c "." || Ascii.eqb c "_" || Ascii.eqb c "-".

(** [s.replace(/[._-]/g, ' ')] *)
Fixpoint replace_separators (s : string) : string :=
  match s with
  | EmptyString => EmptyString
  | String c s' =>
      String (if is_separator c then " "%char else c) (replace_separators s')
  end.

(** [extractTitle(filename)] *)
Definition extractTitle (filename : string) : string :=
  JS.trim
    (JS.collapse_spaces false
       (replace_separators (Path.parse_name filename))).

End FileScanner.

(** ** client/app.js (the browser side) *)

Module Client.

(** [getThumbnailFilename(originalFilename)]:
    [originalFilename.split('.').slice(0, -1).join('.')] between the prefix
    and the extension. *)
Definition getThumbnailFilename (originalFilename : string) : string :=
  let name := JS.join "." (JS.slice_but_last (JS.split "." originalFilename)) in
  "thumb_" ++ name ++ ".jpg".

End Client.

(** ** server/app.js *)

Module App.
Import Db.

(** A handler answers with a JSON body or with a status and a message. *)
Inductive response (A : Type) : Type :=
| Json (body : A)
| Fail (status : Z) (message : string).
Arguments Json {A} body.
Arguments Fail {A} status message.

(** The server's state: the database and the thumbnail directory. *)
Record state : Type := {
  db : Db.t;
  world : Thumb.world
}.

(** [fs.readdir(dir)]: the names of the files directly below [dir]. *)
Definition child_of (dir p : string) : option string :=
  if JS.startsWith p (dir ++ "/") then
    let name := JS.drop (String.length dir + 1) p in
    if JS.includes name "/" || String.eqb name "" then None else Some name
  else None.

Definition readdir (w : Thumb.world) (dir : string) : list string :=
  omap (child_of dir) (List.map fst (map_to_list (Thumb.files w))).

Fixpoint drop_digits (s : string) : string :=
  match s with
  | String c s' => if JS.is_digit c then drop_digits s' else s
  | EmptyString => EmptyString
  end.

(** [s.replace(/^\d+_thumb_/, '')] *)
Definition strip_index_prefix (s : string) : string :=
  match s with
  | String c _ =>
      if JS.is_digit c && JS.startsWith (drop_digits s) "_thumb_"
      then JS.drop 7 (drop_digits s)
      else s
  | EmptyString => s
  end.

(** [s.replace(/_\d+$/, '')] *)
Fixpoint strip_numeric_suffix (s : string) : string :=
  match s with
  | EmptyString => EmptyString
  | String c s' =>
      if Ascii.eqb c "_"
         && negb (String.eqb s' "") && JS.all_digits s'
      then EmptyString
      else String c (strip_numeric_suffix s')
  end.

(** The first filter of [cleanupUnusedThumbnails]. *)
Definition is_selection_thumbnail (file : string) : bool :=
  JS.startsWith file "selection_"
  && JS.includes file "thumb_"
  && JS.endsWith file ".jpg".

(** The second filter: does [file] belong to the video named [baseName]? *)
Definition matches_video (baseName file : string) : bool :=
  let fileBaseName :=
    JS.replace
      (strip_index_prefix (JS.replace file "selection_" "")) ".jpg" "" in
  let targetBaseName := strip_numeric_suffix baseName in
  JS.includes fileBaseName targetBaseName
  || JS.includes targetBaseName fileBaseName
  || JS.includes file ("thumb_" ++ baseName)
  || JS.includes file ("thumb_" ++ targetBaseName).

(** [cleanupUnusedThumbnails(filename, selectedThumbnail)]: every matching
    selection file is removed, the selected one included. *)
Definition cleanupUnusedThumbnails (thumbnailDir filename selectedThumbnail : string)
    (w : Thumb.world) : Thumb.world :=
  let baseName := Path.parse_name filename in
  let files := readdir w thumbnailDir in
  let selectionThumbnails := List.filter is_selection_thumbnail files in
  let matchingThumbnails :=
    List.filter (matches_video baseName) selectionThumbnails in
  List.fold_left
    (fun w thumbnail => Thumb.remove (Path.join thumbnailDir thumbnail) w)
    matchingThumbnails w.

(** [POST /api/videos/:id/set-thumbnail] with body [{thumbnailFilename}];
    [now] is the clock. *)
Definition set_thumbnail (thumbnailDir : string) (now : Z) (id : Z)
    (thumbnailFilename : option string) (s : state) : response string * state :=
  if negb (JS.truthy thumbnailFilename)
  then (Fail 400 "Thumbnail filename is required", s)
  else
    match thumbnailFilename with
    | None => (Fail 400 "Thumbnail filename is required", s)
    | Some thumbnailFilename =>
        match Video.getVideoById (db s) id with
        | None => (Fail 404 "Video not found", s)
        | Some videoData =>
            let thumbnailPath := Path.join thumbnailDir thumbnailFilename in
            if negb (Thumb.pathExists (world s) thumbnailPath)
            then (Fail 404 "Thumbnail file not found", s)
            else
              let '(_, db') :=
                Video.updateVideo (db s) now id
                  {| Video.d_thumbnail_path := Some (Some thumbnailPath);
                     Video.d_preview_path := None;
                     Video.d_updated_at := Some now |} in
              let world' :=
                cleanupUnusedThumbnails thumbnailDir
                  (v_filename (Video.row videoData)) thumbnailFilename (world s) in
              (Json thumbnailFilename, {| db := db'; world := world' |})
        end
    end.

(** The thumbnail step of [POST /api/upload] for an upload that names a
    selected thumbnail, and the cleanup that ends the handler: the
    selected file is copied to the committed name when it is there, a
    default thumbnail is generated otherwise.  The result is the path the
    handler stores as [thumbnail_path]. *)
Definition upload_thumbnail (E : Thumb.env) (thumbnailDir : string)
    (filePath filename selectedThumbnail : string) (w : Thumb.world)
  : string * Thumb.world :=
  let selectedThumbnailPath := Path.join thumbnailDir selectedThumbnail in
  let mainThumbnailFilename := Thumb.getThumbnailFilename filename in
  let thumbnailPath := Path.join thumbnailDir mainThumbnailFilename in
  let '(thumbnailPath, w1) :=
    match Thumb.files w !! selectedThumbnailPath with
    | Some content => (thumbnailPath, Thumb.writeFile thumbnailPath content w)
    | None =>
        Thumb.generateThumbnail E thumbnailDir filePath filename 320 240 "00:00:10" w
    end in
  (thumbnailPath,
   cleanupUnusedThumbnails thumbnailDir filename selectedThumbnail w1).

(** The query string of [GET /api/videos/filter]. *)
Record filter_query : Type := {
  q_tags : option string;
  q_resolution : option string;
  q_durationMin : option string;
  q_durationMax : option string;
  q_dateFilter : option string;
  q_dateFrom : option string;
  q_dateTo : option string;
  q_sortBy : option string;
  q_order : option string;
  q_page : option string;
  q_limit : option string
}.

Definition or_default (x : option string) (d : string) : string :=
  match x with
  | Some s => s
  | None => d
  end.

(** [x ? parseInt(x) : null] *)
Definition parse_bound (x : option string) : option Z :=
  match x with
  | Some s => if JS.truthy x then JS.parseInt s else None
  | None => None
  end.

(** The object literal the handler passes on, given the two parsed lists;
    the destructuring defaults are ['created_at'], ['desc'], [1] and [100]. *)
Definition filter_options_of (q : filter_query) (tags resolution : list string)
  : Video.filter_options :=
  {| Video.f_tags := tags;
     Video.f_resolution := resolution;
     Video.f_durationMin := parse_bound (q_durationMin q);
     Video.f_durationMax := parse_bound (q_durationMax q);
     Video.f_dateFilter := q_dateFilter q;
     Video.f_dateFrom := q_dateFrom q;
     Video.f_dateTo := q_dateTo q;
     Video.f_sortBy := or_default (q_sortBy q) "created_at";
     Video.f_order := or_default (q_order q) "desc";
     Video.f_page := JS.parseInt (or_default (q_page q) "1");
     Video.f_limit := JS.parseInt (or_default (q_limit q) "100") |}.

Section FilterRoute.
(** [JSON.parse] on a list of strings; [None]: it throws. *)
Variable JSON_parse : string -> option (list string).

(** [x ? JSON.parse(x) : []] *)
Definition parse_list (x : option string) : option (list string) :=
  match x with
  | Some s => if JS.truthy x then JSON_parse s else Some []
  | None => Some []
  end.

(** [GET /api/videos/filter]: the whole handler runs inside [try]; a
    parameter that does not parse, and a call that throws, land in the
    [catch]. *)
Definition filter_videos (database : Db.t) (q : filter_query)
  : response (list Video.video) :=
  match parse_list (q_tags q), parse_list (q_resolution q) with
  | Some tags, Some resolution =>
      match Video.getFilteredVideos database (filter_options_of q tags resolution) with
      | JS.Resolved results => Json results
      | JS.Rejected _ => Fail 500 "Failed to filter videos"
      end
  | _, _ => Fail 500 "Failed to filter videos"
  end.
End FilterRoute.

(** *** Storing an upload *)

(** [fs.existsSync(path.join(uploadDir, finalName))]; [entries] lists the
    names for which the test holds: those of the files the upload directory
    holds, and those that name the directory itself or its parent. *)
Definition name_taken (entries : list string) (finalName : string) : bool :=
  existsb (String.eqb finalName) entries.

(** The name the [while] loop of the storage callback tries for a counter:
    [`${parsed.name}_${counter}${parsed.ext}`]. *)
Definition numbered_name (originalName : string) (counter : Z) : string :=
  Path.parse_name originalName ++ "_" ++ JS.toString counter
  ++ Path.extname originalName.

(** The loop, entered with [finalName] and [counter]; [fuel] bounds the
    number of further names tried. *)
Fixpoint pick_name (fuel : nat) (entries : list string)
    (originalName finalName : string) (counter : Z) : option string :=
  if name_taken entries finalName then
    match fuel with
    | O => None
    | S fuel' =>
        pick_name fuel' entries originalName
          (numbered_name originalName counter) (counter + 1)
    end
  else Some finalName.

(** The [filename] callback of [multer.diskStorage]: the original name, or
    the first numbered variant that the upload directory does not hold.
    One more try than the directory has entries is always enough. *)
Definition storage_filename (entries : list string) (originalName : string)
  : option string :=
  pick_name (S (List.length entries)) entries originalName originalName 1.

(** *** Tags of a video *)

(** [POST /api/videos/:id/tags] with body [{tagName, tagColor}]; the
    destructuring default of [tagColor] is ['#007bff'], and [id] is the
    number the path names. *)
Definition add_video_tag (unique_code : string) (id : Z)
    (tagName tagColor : option string) (database : Db.t) : response Z * Db.t :=
  if negb (JS.truthy tagName) then (Fail 400 "Tag name is required", database)
  else
    match tagName with
    | None => (Fail 400 "Tag name is required", database)
    | Some tagName =>
        match Tag.findOrCreateTag unique_code database tagName
                (Some (or_default tagColor "#007bff")) with
        | (JS.Resolved tagId, db1) =>
            let '(_, db2) := Video.addTagToVideo db1 id tagId in
            (Json tagId, db2)
        | (JS.Rejected _, db1) => (Fail 500 "Failed to add tag", db1)
        end
    end.

(** [DELETE /api/videos/:videoId/tags/:tagId] *)
Definition remove_video_tag (videoId tagId : Z) (database : Db.t)
  : response unit * Db.t :=
  match Video.removeTagFromVideo database videoId tagId with
  | (true, db') => (Json tt, db')
  | (false, db') => (Fail 404 "Tag relationship not found", db')
  end.

(** *** Tag administration *)

(** The body [POST /api/tags] answers with. *)
Record created_tag : Type := {
  r_id : Z;
  r_name : string;
  r_color : string;
  r_category : string;
  r_parentId : option Z;
  r_level : Z
}.

(** [parentId ? 2 : 1] *)
Definition level_of (parentId : option Z) : Z :=
  match parentId with
  | Some p => if p =? 0 then 1 else 2
  | None => 1
  end.

(** [POST /api/tags] with body [{name, color, category, parentId}]; the
    destructuring defaults are ['#007bff'], ['custom'] and [null]. *)
Definition create_tag (unique_code : string) (name color category : option string)
    (parentId : option Z) (database : Db.t) : response created_tag * Db.t :=
  if negb (JS.truthy name) then (Fail 400 "Tag name is required", database)
  else
    match name with
    | None => (Fail 400 "Tag name is required", database)
    | Some name =>
        let color := or_default color "#007bff" in
        let category := or_default category "custom" in
        let level := level_of parentId in
        match Tag.createTag unique_code database name (Some color) parentId
                (Some category) (Some level) with
        | (JS.Resolved tagId, db') =>
            (Json {| r_id := tagId; r_name := name; r_color := color;
                     r_category := category; r_parentId := parentId;
                     r_level := level |}, db')
        | (JS.Rejected _, db') => (Fail 500 "Failed to create tag", db')
        end
    end.

(** *** Scanning a directory *)

(** What [scanDirectory] reports for a video file. *)
Record file_info : Type := {
  fi_filename : string;
  fi_file_path : string;
  fi_file_size : Z;
  fi_duration : Z;
  fi_width : Z;
  fi_height : Z;
  fi_title : string
}.

(** The state a scan runs on: the AUTOINCREMENT counter of [videos], the
    database, the thumbnail directory, and the count of files processed. *)
Record scan_state : Type := {
  sc_seq : Z;
  sc_db : Db.t;
  sc_world : Thumb.world;
  sc_processed : Z
}.

(** [SELECT id FROM videos WHERE file_path = ?] finds a row. *)
Definition known_path (database : Db.t) (file_path : string) : bool :=
  existsb (fun v => String.eqb (v_file_path v) file_path) (videos database).

(** The body of the loop of [POST /api/scan] for one file; [clock] tells
    the time at which the row of a path is inserted. *)
Definition scan_file (E : Thumb.env) (thumbnailDir : string) (clock : string -> Z)
    (st : scan_state) (fileInfo : file_info) : scan_state :=
  if known_path (sc_db st) (fi_file_path fileInfo) then st
  else
    let '(thumbnailPath, w1) :=
      Thumb.generateThumbnail E thumbnailDir (fi_file_path fileInfo)
        (fi_filename fileInfo) 320 240 "00:00:10" (sc_world st) in
    let '(previewPath, w2) :=
      Thumb.generatePreview E thumbnailDir (fi_file_path fileInfo)
        (fi_filename fileInfo) 480 360 w1 in
    match Video.addVideo (sc_seq st) (clock (fi_file_path fileInfo)) (sc_db st)
            {| Video.n_filename := fi_filename fileInfo;
               Video.n_title := fi_title fileInfo;
               Video.n_file_path := fi_file_path fileInfo;
               Video.n_file_size := fi_file_size fileInfo;
               Video.n_duration := fi_duration fileInfo;
               Video.n_width := fi_width fileInfo;
               Video.n_height := fi_height fileInfo;
               Video.n_thumbnail_path := Some thumbnailPath;
               Video.n_preview_path := previewPath |} with
    | (JS.Resolved videoId, db') =>
        {| sc_seq := videoId; sc_db := db'; sc_world := w2;
           sc_processed := sc_processed st + 1 |}
    | (JS.Rejected _, db') =>
        {| sc_seq := sc_seq st; sc_db := db'; sc_world := w2;
           sc_processed := sc_processed st |}
    end.

(** The answer of a scan: [totalFound] and [processed]. *)
Record scan_result : Type := {
  totalFound : Z;
  processed : Z
}.

(** [POST /api/scan] with body [{directory}]; [scanDirectory] is what the
    file scanner finds below a directory. *)
Definition scan (E : Thumb.env) (thumbnailDir : string) (clock : string -> Z)
    (scanDirectory : string -> list file_info) (directory : option string)
    (videos_seq : Z) (s : state) : response scan_result * (Z * state) :=
  if negb (JS.truthy directory)
  then (Fail 400 "Directory path is required", (videos_seq, s))
  else
    match directory with
    | None => (Fail 400 "Directory path is required", (videos_seq, s))
    | Some directory =>
        let files := scanDirectory directory in
        let st :=
          List.fold_left (scan_file E thumbnailDir clock) files
            {| sc_seq := videos_seq; sc_db := db s; sc_world := world s;
               sc_processed := 0 |} in
        (Json {| totalFound := Z.of_nat (List.length files);
                 processed := sc_processed st |},
         (sc_seq st, {| db := sc_db st; world := sc_world st |}))
    end.

(** *** Development routes *)

(** [DELETE /api/dev/clear-database]: [DELETE FROM videos], then
    [cleanupUnusedTags]. *)
Definition clear_database (database : Db.t) : Db.t :=
  snd (Tag.cleanupUnusedTags (Video.with_videos database [])).

(** *** Streaming *)

(** The head of the answer of [GET /api/videos/:id/stream]: the status, and
    for a range request the bounds and the length it announces. *)
Record stream_head : Type := {
  h_status : Z;
  h_start : option Z;
  h_end : option Z;
  h_content_length : option Z
}.

(** [Number.MAX_SAFE_INTEGER] *)
Definition MAX_SAFE_INTEGER : Z := 2 ^ 53 - 1.

(** What [fs.createReadStream(videoPath, { start, end })] asks of its
    bounds before it opens the file: each is an integer from 0 to
    [MAX_SAFE_INTEGER], and [start <= end]; otherwise it throws.  [None]
    stands for [NaN].  (A digit string beyond [MAX_SAFE_INTEGER] is refused
    whether or not [parseInt] rounds it: rounding keeps it beyond.) *)
Definition createReadStream_accepts (start end_ : option Z) : bool :=
  match start, end_ with
  | Some s, Some e =>
      (0 <=? s) && (s <=? MAX_SAFE_INTEGER)
      && (0 <=? e) && (e <=? MAX_SAFE_INTEGER) && (s <=? e)
  | _, _ => false
  end.

(** What the route answers once the video and the size of its file are
    known: the head it writes before it pipes the stream, or the status and
    the message of its [catch]. *)
Inductive stream_answer : Type :=
| Streams (head : stream_head)
| StreamFails (status : Z) (message : string).

(** The answer the route builds from the [Range] header:
    [parts = range.replace(/bytes=/, "").split("-")], [start = parseInt(parts[0], 10)],
    [end = parts[1] ? parseInt(parts[1], 10) : fileSize - 1],
    [chunksize = (end - start) + 1], then
    [fs.createReadStream(videoPath, { start, end })], which throws into the
    [catch] of the handler when it refuses the bounds, and the head. *)
Definition range_head (range : option string) (fileSize : Z) : stream_answer :=
  match range with
  | Some r =>
      if JS.truthy range then
        let parts := JS.split "-" (JS.replace r "bytes=" "") in
        let start := match parts with
                     | p0 :: _ => JS.parseInt p0
                     | [] => None
                     end in
        let end_ := match parts with
                    | _ :: p1 :: _ =>
                        if JS.truthy (Some p1) then JS.parseInt p1
                        else Some (fileSize - 1)
                    | _ => Some (fileSize - 1)
                    end in
        if createReadStream_accepts start end_ then
          Streams
            {| h_status := 206; h_start := start; h_end := end_;
               h_content_length :=
                 match start, end_ with
                 | Some s, Some e => Some (e - s + 1)
                 | _, _ => None
                 end |}
        else StreamFails 500 "Failed to stream video"
      else Streams {| h_status := 200; h_start := None; h_end := None;
                      h_content_length := Some fileSize |}
  | None => Streams {| h_status := 200; h_start := None; h_end := None;
                       h_content_length := Some fileSize |}
  end.

End App.

(** ** Reference definitions, in the words of the specification *)

Module Spec.
Import Db.

(** The rational number that a finite double is. *)
Definition double_value (x : PrimFloat.float) : option Q :=
  match FloatOps.Prim2SF x with
  | SpecFloat.S754_zero _ => Some 0%Q
  | SpecFloat.S754_finite s m e =>
      let v : Q :=
        if 0 <=? e then inject_Z (Z.pos m * 2 ^ e)
        else Qmake (Z.pos m) (Pos.pow 2 (Z.to_pos (- e))) in
      Some (if s then Qopp v else v)
  | _ => None
  end.

(** Whether the window ends by [bound]: [start + length <= bound], the
    sum taken exactly. *)
Definition ends_by (w : PrimFloat.float * PrimFloat.float) (bound : Q) : option bool :=
  match double_value (fst w), double_value (snd w) with
  | Some start, Some length => Some (Qle_bool (start + length) bound)
  | _, _ => None
  end.

(** Whether the binary64 window of a duration [d] ends by [d - 1]. *)
Definition ends_a_second_early (d : PrimFloat.float) : option bool :=
  match double_value d with
  | Some q => ends_by (Thumb.preview_window_binary64 d) (q - 1)
  | None => None
  end.

(** What the properties of [Thumb.preview_window_rounded] use of the
    rounding of double-precision arithmetic: it is monotone, and it leaves
    a number that is a double as it is, here [m / 2^k] with [|m| <= 2^53]
    and [k <= 1022].  Rounding to nearest has both properties. *)
Definition rounds_to_double (fl : Q -> Q) : Prop :=
  (forall x y : Q, (x <= y)%Q -> (fl x <= fl y)%Q)
  /\ (forall (x : Q) (m : Z) (k : nat),
         Z.abs m <= 2 ^ 53 -> (k <= 1022)%nat ->
         (x == inject_Z m / inject_Z (2 ^ Z.of_nat k))%Q -> (fl x == x)%Q).

(** The four tiers of the title search, on the lower-cased title and file
    name: exact match, prefix match, substring containment, word-start
    match (the query right after a space). *)
Definition exact_match (query : string) (v : video_row) : bool :=
  String.eqb (JS.toLowerCase (v_title v)) (JS.toLowerCase query)
  || String.eqb (JS.toLowerCase (v_filename v)) (JS.toLowerCase query).

Definition prefix_match (query : string) (v : video_row) : bool :=
  JS.startsWith (JS.toLowerCase (v_title v)) (JS.toLowerCase query)
  || JS.startsWith (JS.toLowerCase (v_filename v)) (JS.toLowerCase query).

Definition substring_match (query : string) (v : video_row) : bool :=
  JS.includes (JS.toLowerCase (v_title v)) (JS.toLowerCase query)
  || JS.includes (JS.toLowerCase (v_filename v)) (JS.toLowerCase query).

Definition word_start_match (query : string) (v : video_row) : bool :=
  JS.includes (JS.toLowerCase (v_title v)) (" " ++ JS.toLowerCase query)
  || JS.includes (JS.toLowerCase (v_filename v)) (" " ++ JS.toLowerCase query).

(** The best (lowest-numbered) tier a video satisfies; 5 when none. *)
Definition best_tier (query : string) (v : video_row) : Z :=
  if exact_match query v then 1
  else if prefix_match query v then 2
  else if substring_match query v then 3
  else if word_start_match query v then 4
  else 5.

(** A query without the two characters LIKE reads as wildcards. *)
Definition is_wildcard (c : ascii) : bool :=
  Ascii.eqb c "%" || Ascii.eqb c "_".

Fixpoint wildcard_free (s : string) : bool :=
  match s with
  | EmptyString => true
  | String c s' => negb (is_wildcard c) && wildcard_free s'
  end.

(** Rank order of two results: a better tier first, and within a tier the
    later creation time first. *)
Definition ranked_before (query : string) (a b : Video.video) : Prop :=
  best_tier query (Video.row a) < best_tier query (Video.row b)
  \/ (best_tier query (Video.row a) = best_tier query (Video.row b)
      /\ v_created_at (Video.row b) <= v_created_at (Video.row a)).

(** Video [v] carries the tag named [name]: a link row joins it to a tag
    row of that name. *)
Definition has_tag (db : Db.t) (v : video_row) (name : string) : Prop :=
  exists vt t,
    In vt (video_tags db) /\ In t (Db.tags db)
    /\ vt_video_id vt = v_id v /\ vt_tag_id vt = t_id t /\ t_name t = name.

(** A tag of that name exists, comparing names without regard to case. *)
Definition name_taken_ci (db : Db.t) (name : string) : Prop :=
  exists t, In t (Db.tags db)
            /\ JS.toLowerCase (t_name t) = JS.toLowerCase name.

(** A tag of exactly that name exists. *)
Definition name_taken (db : Db.t) (name : string) : Prop :=
  exists t, In t (Db.tags db) /\ t_name t = name.

(** Text that survives [GROUP_CONCAT] and [split(',')]: not empty, and
    without a comma. *)
Fixpoint comma_free (s : string) : bool :=
  match s with
  | EmptyString => true
  | String c s' => negb (Ascii.eqb c ",") && comma_free s'
  end.

Definition plain_text (s : string) : bool :=
  negb (String.eqb s "") && comma_free s.

(** A tag whose name and color are such text. *)
Definition plain_tag (t : tag_row) : Prop :=
  plain_text (t_name t) = true
  /\ exists color, t_color t = Some color /\ plain_text color = true.

(** The slots of a fallback run that starts after index [i]: the index
    and the time mark of each attempt, in order. *)
Fixpoint numbered (i : Z) (times : list string) : list (Z * string) :=
  match times with
  | [] => []
  | timemark :: rest => (i + 1, timemark) :: numbered (i + 1) rest
  end.

(** The candidate and the extraction job that belong to a slot. *)
Definition slot_candidate (thumbnailDir filename : string)
    (slot : Z * string) : Thumb.candidate :=
  Thumb.mk_candidate thumbnailDir (fst slot) (fst slot * 2) (snd slot) filename.

Definition slot_job (thumbnailDir videoPath filename : string)
    (slot : Z * string) : Thumb.job :=
  Thumb.Frame videoPath (snd slot) 240 180
    (Path.join thumbnailDir (Thumb.selection_name (fst slot) filename)).

(** The fixed time marks 1s, 3s, 5s with their indices. *)
Definition fixed_slots : list (Z * string) :=
  [(1, "00:00:01"); (2, "00:00:03"); (3, "00:00:05")].

(** Every character of the string passes the test. *)
Fixpoint all_chars (P : ascii -> bool) (s : string) : bool :=
  match s with
  | EmptyString => true
  | String c s' => P c && all_chars P s'
  end.

(** The rank the suggestion query gives a row that its [WHERE] clause
    lets through, read off the title alone. *)
Definition title_rank (queryLower title : string) : Z :=
  if Sql.like (Video.startMatch queryLower) (Sql.LOWER title) then 1
  else if Sql.like (Video.wordStartMatch queryLower) (Sql.LOWER title) then 2
  else if Sql.like (Video.containsMatch queryLower) (Sql.LOWER title) then 3
  else 4.

(** No two tags of the table have names that are equal up to case. *)
Definition names_distinct_ci (db : Db.t) : Prop :=
  List.NoDup (List.map (fun t => JS.toLowerCase (t_name t)) (Db.tags db)).

(** The tags linked to a video: for each of its link rows, in table
    order, the tag rows the link names. *)
Definition linked_tags (db : Db.t) (v : video_row) : list tag_row :=
  List.flat_map
    (fun vt => List.filter (fun t => t_id t =? vt_tag_id vt) (Db.tags db))
    (List.filter (fun vt => vt_video_id vt =? v_id v) (video_tags db)).

(** A search result without its rank. *)
Definition without_priority (o : Video.video) : Video.video :=
  {| Video.row := Video.row o;
     Video.tags := Video.tags o;
     Video.tag_colors := Video.tag_colors o;
     Video.tag_ids := Video.tag_ids o;
     Video.match_priority := None;
     Video.thumbnail_url := Video.thumbnail_url o |}.

(** A character other than the path separator. *)
Definition no_slash (c : ascii) : bool := negb (Ascii.eqb c "/").

(** A character that [extractTitle] leaves in place. *)
Definition not_separator (c : ascii) : bool := negb (FileScanner.is_separator c).

(** White space occurs in the string only as single spaces;
    [after_space] tells whether a space comes right before the string. *)
Fixpoint single_spaced (after_space : bool) (s : string) : bool :=
  match s with
  | EmptyString => true
  | String c s' =>
      if JS.is_space c
      then Ascii.eqb c " " && negb after_space && single_spaced true s'
      else single_spaced false s'
  end.

End Spec.

(** ** Sample data *)

Module Sample.
Import Db.

Definition mk_video (id : Z) (title filename : string) (created : Z) : video_row :=
  {| v_id := id; v_filename := filename; v_title := title;
     v_file_path := "/srv/uploads/" ++ filename; v_file_size := 1000;
     v_duration := 0; v_width := 1920; v_height := 1080;
     v_thumbnail_path := None; v_preview_path := None;
     v_created_at := created; v_updated_at := created |}.

Definition mk_tag (id : Z) (name color : string) : tag_row :=
  {| t_id := id; t_name := name; t_color := Some color;
     t_parent_id := None; t_category := Some "custom"; t_level := Some 1 |}.

(** The three videos of the ranking example, created at [c1], [c2], [c3]. *)
Definition matrix_db (c1 c2 c3 : Z) : Db.t :=
  {| videos := [ mk_video 1 "Matrix" "Matrix.mp4" c1;
                 mk_video 2 "The Matrix Reloaded" "The.Matrix.Reloaded.mp4" c2;
                 mk_video 3 "xMatrixx" "xMatrixx.mp4" c3 ];
     Db.tags := [];
     video_tags := [];
     tags_seq := 0 |}.

(** The tag example: two videos, [1] tagged "A" and "B", [2] tagged "A". *)
Definition tagged_db : Db.t :=
  {| videos := [ mk_video 1 "both" "both.mp4" 10;
                 mk_video 2 "only a" "only_a.mp4" 20 ];
     Db.tags := [ mk_tag 1 "A" "#dc3545"; mk_tag 2 "B" "#28a745" ];
     video_tags := [ {| vt_video_id := 1; vt_tag_id := 1 |};
                     {| vt_video_id := 1; vt_tag_id := 2 |};
                     {| vt_video_id := 2; vt_tag_id := 1 |} ];
     tags_seq := 2 |}.

(** A table that holds the tag "Movie". *)
Definition movie_db : Db.t :=
  {| videos := [];
     Db.tags := [ mk_tag 1 "Movie" "#dc3545" ];
     video_tags := [];
     tags_seq := 1 |}.

(** A tool that probes 45.5 seconds and writes a four-byte file for every
    job. *)
Definition tiny_env : Thumb.env :=
  {| Thumb.ffmpeg := true;
     Thumb.ffprobe := fun _ => Thumb.ProbeMetadata (Some (91 # 2)%Q) None;
     Thumb.run := fun _ => Thumb.Ended (Some "moov");
     Thumb.video_exists := fun _ => true |}.

(** No transcoder installed: the [require] failed. *)
Definition no_tool_env : Thumb.env :=
  {| Thumb.ffmpeg := false;
     Thumb.ffprobe := fun _ => Thumb.ProbeThrows;
     Thumb.run := fun _ => Thumb.Threw;
     Thumb.video_exists := fun _ => true |}.

(** A transcoder that cannot read the duration and whose every job ends
    without an error and without an output file (a clip shorter than the
    points it is asked to seek to). *)
Definition silent_env : Thumb.env :=
  {| Thumb.ffmpeg := true;
     Thumb.ffprobe := fun _ => Thumb.ProbeMetadata None None;
     Thumb.run := fun _ => Thumb.Ended None;
     Thumb.video_exists := fun _ => true |}.

(** A transcoder that cannot read the duration, writes the frames at 1s
    and 5s and fails at 3s. *)
Definition flaky_env : Thumb.env :=
  {| Thumb.ffmpeg := true;
     Thumb.ffprobe := fun _ => Thumb.ProbeError;
     Thumb.run := fun j =>
       match j with
       | Thumb.Frame _ tm _ _ _ =>
           if String.eqb tm "00:00:03" then Thumb.Errored None
           else Thumb.Ended (Some "jpeg")
       | Thumb.Clip _ _ _ _ _ _ => Thumb.Errored None
       end;
     Thumb.video_exists := fun _ => true |}.

(** A working transcoder and a row whose video file is gone from the
    disk: the probe fails, and a frame job would raise an error. *)
Definition gone_env : Thumb.env :=
  {| Thumb.ffmpeg := true;
     Thumb.ffprobe := fun _ => Thumb.ProbeError;
     Thumb.run := fun _ => Thumb.Errored None;
     Thumb.video_exists := fun _ => false |}.

(** An empty thumbnail directory, no job run yet. *)
Definition empty_world : Thumb.world :=
  {| Thumb.files := ∅; Thumb.jobs := [] |}.

(** The directory of thumbnails and an uploaded clip. *)
Definition thumbnails : string := "/srv/thumbnails".
Definition clip_path : string := "/srv/uploads/clip.mp4".

(** One video whose only tag has a comma in its name. *)
Definition comma_db : Db.t :=
  {| videos := [ mk_video 1 "gig" "gig.mp4" 10 ];
     Db.tags := [ mk_tag 7 "Live,Concert" "#28a745" ];
     video_tags := [ {| vt_video_id := 1; vt_tag_id := 7 |} ];
     tags_seq := 7 |}.

(** The video "clip.mp4" and its six selection candidates on disk. *)
Definition clip_db : Db.t :=
  {| videos := [ mk_video 1 "clip" "clip.mp4" 10 ];
     Db.tags := [];
     video_tags := [];
     tags_seq := 0 |}.

Definition selection_world : Thumb.world :=
  {| Thumb.files :=
       list_to_map
         [ ("/srv/thumbnails/selection_1_thumb_clip.jpg", "frame 1");
           ("/srv/thumbnails/selection_2_thumb_clip.jpg", "frame 2");
           ("/srv/thumbnails/selection_3_thumb_clip.jpg", "frame 3");
           ("/srv/thumbnails/selection_4_thumb_clip.jpg", "frame 4");
           ("/srv/thumbnails/selection_5_thumb_clip.jpg", "frame 5");
           ("/srv/thumbnails/selection_6_thumb_clip.jpg", "frame 6") ];
     Thumb.jobs := [] |}.

Definition clip_state : App.state :=
  {| App.db := clip_db; App.world := selection_world |}.

(** A request to the filter endpoint without parameters. *)
Definition no_filter : App.filter_query :=
  {| App.q_tags := None; App.q_resolution := None;
     App.q_durationMin := None; App.q_durationMax := None;
     App.q_dateFilter := None; App.q_dateFrom := None; App.q_dateTo := None;
     App.q_sortBy := None; App.q_order := None;
     App.q_page := None; App.q_limit := None |}.

Definition titles (l : list Video.video) : list string :=
  List.map (fun o => v_title (Video.row o)) l.

End Sample.

(** * Properties *)

Import Db.

(** ** ORDER BY *)

Section OrderByFacts.
Context {A : Type} (leb : A -> A -> bool).
Hypothesis leb_total : forall a b, leb a b = false -> leb b a = true.
Hypothesis leb_trans :
  forall a b c, leb a b = true -> leb b c = true -> leb a c = true.

Lemma insert_sorted_perm x l :
  Permutation (Sql.insert_sorted leb x l) (x :: l).
Proof.
  induction l as [|y l IH]; simpl; [reflexivity|].
  destruct (leb x y); [reflexivity|].
  rewrite IH. apply perm_swap.
Qed.

Lemma order_by_perm l : Permutation (Sql.order_by leb l) l.
Proof.
  induction l as [|x l IH]; simpl; [constructor|].
  rewrite insert_sorted_perm. now constructor.
Qed.

Lemma order_by_In x l : In x (Sql.order_by leb l) <-> In x l.
Proof.
  split; apply Permutation_in; [|symmetry]; apply order_by_perm.
Qed.

Lemma insert_sorted_sorted x l :
  StronglySorted (fun a b => leb a b = true) l ->
  StronglySorted (fun a b => leb a b = true) (Sql.insert_sorted leb x l).
Proof.
  induction 1 as [|y l Hs IH Hy]; simpl.
  - repeat constructor.
  - destruct (leb x y) eqn:Hxy.
    + constructor; [now constructor|].
      constructor; [exact Hxy|].
      rewrite List.Forall_forall in *. intros z Hz. eauto.
    + constructor; [exact IH|].
      rewrite List.Forall_forall in *. intros z Hz.
      apply (Permutation_in _ (insert_sorted_perm x l)) in Hz.
      destruct Hz as [<-|Hz]; auto.
Qed.

Lemma order_by_sorted l :
  StronglySorted (fun a b => leb a b = true) (Sql.order_by leb l).
Proof.
  induction l as [|x l IH]; simpl; [constructor|].
  now apply insert_sorted_sorted.
Qed.
End OrderByFacts.

Lemma StronglySorted_map {A B} (f : A -> B) (R : B -> B -> Prop) l :
  StronglySorted (fun a b => R (f a) (f b)) l ->
  StronglySorted R (List.map f l).
Proof.
  induction 1 as [|x l Hs IH Hx]; simpl; constructor; auto.
  rewrite List.Forall_forall in *. intros y Hy.
  apply in_map_iff in Hy as (z & <- & Hz). auto.
Qed.

Lemma StronglySorted_weaken {A} (R S : A -> A -> Prop) l :
  (forall a b, In a l -> In b l -> R a b -> S a b) ->
  StronglySorted R l -> StronglySorted S l.
Proof.
  intros HRS Hs. induction Hs as [|x l Hs IH Hx]; constructor.
  - apply IH. intros a b Ha Hb. apply HRS; now right.
  - rewrite List.Forall_forall in *. intros y Hy.
    apply HRS; [now left|now right|auto].
Qed.

(** ** LIKE against the string methods *)

Lemma lower_char_idem c : JS.lower_char (JS.lower_char c) = JS.lower_char c.
Proof. destruct c as [[] [] [] [] [] [] [] []]; reflexivity. Qed.

Lemma toLowerCase_idem s : JS.toLowerCase (JS.toLowerCase s) = JS.toLowerCase s.
Proof.
  induction s as [|c s IH]; simpl; [reflexivity|].
  now rewrite lower_char_idem, IH.
Qed.

Lemma toLowerCase_app s t :
  JS.toLowerCase (s ++ t) = JS.toLowerCase s ++ JS.toLowerCase t.
Proof. induction s as [|c s IH]; simpl; [reflexivity|]. now rewrite IH. Qed.

Lemma is_wildcard_lower c : Spec.is_wildcard (JS.lower_char c) = Spec.is_wildcard c.
Proof. destruct c as [[] [] [] [] [] [] [] []]; reflexivity. Qed.

Lemma wildcard_free_lower s :
  Spec.wildcard_free (JS.toLowerCase s) = Spec.wildcard_free s.
Proof.
  induction s as [|c s IH]; simpl; [reflexivity|].
  now rewrite is_wildcard_lower, IH.
Qed.

Lemma like_percent p s :
  Sql.like (String "%" p) s =
  Sql.like p s || match s with
                  | EmptyString => false
                  | String _ s' => Sql.like (String "%" p) s'
                  end.
Proof. destruct s; reflexivity. Qed.

Lemma like_percent_only s : Sql.like "%" s = true.
Proof.
  induction s as [|c s IH]; [reflexivity|].
  rewrite like_percent. simpl in IH |- *. exact IH.
Qed.

Lemma like_literal c p s :
  Spec.is_wildcard c = false ->
  Sql.like (String c p) s =
  match s with
  | EmptyString => false
  | String d s' =>
      Ascii.eqb (JS.lower_char c) (JS.lower_char d) && Sql.like p s'
  end.
Proof.
  unfold Spec.is_wildcard. intros H.
  apply orb_false_iff in H as [H1 H2].
  simpl. rewrite H1. destruct s; [reflexivity|]. now rewrite H2.
Qed.

(** [q%] is a prefix test when [q] has no wildcard. *)
Lemma like_startMatch q s :
  Spec.wildcard_free q = true ->
  Sql.like (q ++ "%") s =
  JS.startsWith (JS.toLowerCase s) (JS.toLowerCase q).
Proof.
  revert s. induction q as [|c q IH]; intros s Hq.
  - change ("" ++ "%") with "%". rewrite like_percent_only.
    destruct s; reflexivity.
  - simpl in Hq. apply andb_true_iff in Hq as [Hc Hq].
    apply negb_true_iff in Hc.
    change ((String c q) ++ "%") with (String c (q ++ "%")).
    rewrite like_literal by exact Hc.
    destruct s as [|d s]; [reflexivity|].
    simpl. now rewrite IH.
Qed.

(** [%q%] is a containment test when [q] has no wildcard. *)
Lemma like_containsMatch q s :
  Spec.wildcard_free q = true ->
  Sql.like ("%" ++ q ++ "%") s =
  JS.includes (JS.toLowerCase s) (JS.toLowerCase q).
Proof.
  intros Hq. change ("%" ++ q ++ "%") with (String "%" (q ++ "%")).
  induction s as [|d s IH].
  - rewrite like_percent, like_startMatch by exact Hq.
    simpl. now rewrite !orb_false_r.
  - rewrite like_percent, like_startMatch by exact Hq.
    rewrite IH. reflexivity.
Qed.

Lemma startsWith_includes s p : JS.startsWith s p = true -> JS.includes s p = true.
Proof. intros H. destruct s; cbn [JS.includes]; rewrite H; reflexivity. Qed.

Lemma includes_tail c s p : JS.includes s (String c p) = true -> JS.includes s p = true.
Proof.
  induction s as [|d s IH]; cbn [JS.includes JS.startsWith].
  - intros H. discriminate.
  - intros H. apply orb_true_iff in H as [H|H].
    + apply andb_true_iff in H as [_ H].
      apply startsWith_includes in H. rewrite H. apply orb_true_r.
    + rewrite (IH H). apply orb_true_r.
Qed.

(** ** Ranked title search *)

Ltac bool_absurd :=
  match goal with
  | H : true = true -> false = true |- _ => specialize (H eq_refl); discriminate
  end.

Lemma startsWith_refl s : JS.startsWith s s = true.
Proof. induction s as [|c s IH]; simpl; [reflexivity|]. now rewrite Ascii.eqb_refl. Qed.

Lemma case_priority_best_tier query v :
  Spec.wildcard_free query = true ->
  Video.case_match_priority (JS.toLowerCase query) v = Spec.best_tier query v.
Proof.
  intros Hq.
  assert (Hl : Spec.wildcard_free (JS.toLowerCase query) = true)
    by now rewrite wildcard_free_lower.
  assert (Hw : Spec.wildcard_free (" " ++ JS.toLowerCase query) = true)
    by (simpl; exact Hl).
  unfold Video.case_match_priority, Spec.best_tier, Spec.exact_match,
    Spec.prefix_match, Spec.substring_match, Spec.word_start_match,
    Video.exactMatch, Video.startMatch, Video.containsMatch, Sql.LOWER.
  change (Video.wordStartMatch (JS.toLowerCase query))
    with ("%" ++ (" " ++ JS.toLowerCase query) ++ "%").
  rewrite !like_startMatch, !like_containsMatch by assumption.
  rewrite !toLowerCase_app, !toLowerCase_idem. reflexivity.
Qed.

Lemma where_title_substring query v :
  Spec.wildcard_free query = true ->
  Video.where_title (JS.toLowerCase query) v = Spec.substring_match query v.
Proof.
  intros Hq.
  assert (Hl : Spec.wildcard_free (JS.toLowerCase query) = true)
    by now rewrite wildcard_free_lower.
  assert (Hw : Spec.wildcard_free (" " ++ JS.toLowerCase query) = true)
    by (simpl; exact Hl).
  unfold Video.where_title, Spec.substring_match,
    Video.startMatch, Video.containsMatch, Sql.LOWER.
  change (Video.wordStartMatch (JS.toLowerCase query))
    with ("%" ++ (" " ++ JS.toLowerCase query) ++ "%").
  rewrite !like_startMatch, !like_containsMatch by assumption.
  rewrite !toLowerCase_app, !toLowerCase_idem.
  change (JS.toLowerCase " ") with " ".
  set (t := JS.toLowerCase (v_title v)).
  set (f := JS.toLowerCase (v_filename v)).
  set (q := JS.toLowerCase query).
  pose proof (startsWith_includes t q).
  pose proof (startsWith_includes f q).
  pose proof (includes_tail " " t q).
  pose proof (includes_tail " " f q).
  change (" " ++ q) with (String " " q) in *.
  destruct (JS.includes t q), (JS.includes f q),
    (JS.startsWith t q), (JS.startsWith f q),
    (JS.includes t (String " " q)), (JS.includes f (String " " q));
    simpl; first [reflexivity | bool_absurd].
Qed.

(** A video that matches in any tier matches by containment, so the
    word-start tier is never the best one. *)
Lemma best_tier_cases query v :
  (Spec.best_tier query v < 5 <-> Spec.substring_match query v = true)
  /\ Spec.best_tier query v <> 4
  /\ 1 <= Spec.best_tier query v <= 5.
Proof.
  unfold Spec.best_tier, Spec.exact_match, Spec.prefix_match,
    Spec.substring_match, Spec.word_start_match.
  set (t := JS.toLowerCase (v_title v)).
  set (f := JS.toLowerCase (v_filename v)).
  set (q := JS.toLowerCase query).
  pose proof (startsWith_includes t q) as H1.
  pose proof (startsWith_includes f q) as H2.
  pose proof (includes_tail " " t q) as H3.
  pose proof (includes_tail " " f q) as H4.
  assert (H5 : String.eqb t q = true -> JS.includes t q = true).
  { intros H. apply String.eqb_eq in H. rewrite H.
    apply startsWith_includes, startsWith_refl. }
  assert (H6 : String.eqb f q = true -> JS.includes f q = true).
  { intros H. apply String.eqb_eq in H. rewrite H.
    apply startsWith_includes, startsWith_refl. }
  change (" " ++ q) with (String " " q) in *.
  destruct (String.eqb t q), (String.eqb f q),
    (JS.startsWith t q), (JS.startsWith f q),
    (JS.includes t q), (JS.includes f q),
    (JS.includes t (String " " q)), (JS.includes f (String " " q));
    simpl; try bool_absurd;
    repeat split; intros; try lia; try reflexivity; try discriminate.
Qed.

Lemma by_priority_total a b :
  Video.by_priority_then_newest a b = false ->
  Video.by_priority_then_newest b a = true.
Proof.
  unfold Video.by_priority_then_newest, Video.newest_first.
  destruct (Z.ltb_spec (Video.priority_of a) (Video.priority_of b));
    destruct (Z.eqb_spec (Video.priority_of a) (Video.priority_of b));
    destruct (Z.ltb_spec (Video.priority_of b) (Video.priority_of a));
    destruct (Z.eqb_spec (Video.priority_of b) (Video.priority_of a));
    destruct (Z.leb_spec (v_created_at (Video.r_video b)) (v_created_at (Video.r_video a)));
    destruct (Z.leb_spec (v_created_at (Video.r_video a)) (v_created_at (Video.r_video b)));
    simpl; intros; try reflexivity; try discriminate; lia.
Qed.

Lemma by_priority_spec a b :
  Video.by_priority_then_newest a b = true <->
  (Video.priority_of a < Video.priority_of b
   \/ (Video.priority_of a = Video.priority_of b
       /\ v_created_at (Video.r_video b) <= v_created_at (Video.r_video a))).
Proof.
  unfold Video.by_priority_then_newest, Video.newest_first.
  rewrite orb_true_iff, andb_true_iff, Z.ltb_lt, Z.eqb_eq, Z.leb_le.
  reflexivity.
Qed.

Lemma by_priority_trans a b c :
  Video.by_priority_then_newest a b = true ->
  Video.by_priority_then_newest b c = true ->
  Video.by_priority_then_newest a c = true.
Proof. rewrite !by_priority_spec. lia. Qed.

Lemma newest_first_total a b :
  Video.newest_first a b = false -> Video.newest_first b a = true.
Proof. unfold Video.newest_first. rewrite Z.leb_gt, Z.leb_le. lia. Qed.

Lemma newest_first_trans a b c :
  Video.newest_first a b = true -> Video.newest_first b c = true ->
  Video.newest_first a c = true.
Proof. unfold Video.newest_first. rewrite !Z.leb_le. lia. Qed.

Lemma StronglySorted_split {A} (R : A -> A -> Prop) l1 a l2 b l3 :
  StronglySorted R (l1 ++ a :: l2 ++ b :: l3)%list -> R a b.
Proof.
  induction l1 as [|x l1 IH]; simpl; intros H.
  - apply StronglySorted_inv in H as [_ H].
    rewrite List.Forall_forall in H. apply H.
    apply in_or_app. right. now left.
  - apply StronglySorted_inv in H as [H _]. auto.
Qed.

Lemma enhancedSearch_In db query o :
  In o (Video.enhancedSearchByTitle db query) <->
  exists v, In v (videos db)
            /\ Video.where_title (JS.toLowerCase query) v = true
            /\ o = Video.to_video (Video.ranked db (JS.toLowerCase query) v).
Proof.
  unfold Video.enhancedSearchByTitle. rewrite in_map_iff. split.
  - intros (r & <- & Hr).
    apply order_by_In in Hr. apply in_map_iff in Hr as (v & <- & Hv).
    apply filter_In in Hv as [Hv Hw]. eauto.
  - intros (v & Hv & Hw & ->). eexists. split; [reflexivity|].
    apply order_by_In. apply in_map_iff. exists v. split; [reflexivity|].
    apply filter_In. auto.
Qed.

Lemma enhancedSearch_sorted db query :
  Spec.wildcard_free query = true ->
  StronglySorted (Spec.ranked_before query) (Video.enhancedSearchByTitle db query).
Proof.
  intros Hq. unfold Video.enhancedSearchByTitle.
  apply StronglySorted_map.
  eapply StronglySorted_weaken;
    [|apply order_by_sorted; [apply by_priority_total|apply by_priority_trans]].
  intros a b Ha Hb Hab.
  apply order_by_In in Ha. apply in_map_iff in Ha as (va & <- & _).
  apply order_by_In in Hb. apply in_map_iff in Hb as (vb & <- & _).
  apply by_priority_spec in Hab. unfold Spec.ranked_before.
  unfold Video.priority_of in Hab. simpl in Hab |- *.
  rewrite !case_priority_best_tier in Hab by exact Hq. exact Hab.
Qed.




(** ** Multi-tag search *)

Lemma matched_names_In db names vid n :
  In n (Video.matched_names db names vid) <->
  In n names
  /\ exists vt t, In vt (video_tags db) /\ In t (Db.tags db)
                  /\ vt_video_id vt = vid /\ vt_tag_id vt = t_id t
                  /\ t_name t = n.
Proof.
  unfold Video.matched_names. rewrite in_flat_map. split.
  - intros (vt & Hvt & Hn).
    apply filter_In in Hvt as [Hvt Hid]. apply Z.eqb_eq in Hid.
    apply in_map_iff in Hn as (t & <- & Ht).
    apply filter_In in Ht as [Ht Hc].
    apply andb_true_iff in Hc as [Hc1 Hc2]. apply Z.eqb_eq in Hc1.
    apply existsb_exists in Hc2 as (n' & Hn' & He).
    apply String.eqb_eq in He. subst n'.
    split; [exact Hn'|]. exists vt, t. auto.
  - intros (Hn & vt & t & Hvt & Ht & Hid & Htid & Hname).
    exists vt. split.
    + apply filter_In. split; [exact Hvt|]. now apply Z.eqb_eq.
    + apply in_map_iff. exists t. split; [exact Hname|].
      apply filter_In. split; [exact Ht|].
      apply andb_true_iff. split; [now apply Z.eqb_eq|].
      apply existsb_exists. exists n. split; [exact Hn|].
      now apply String.eqb_eq.
Qed.

Lemma has_all_tags_spec db names v :
  names <> [] -> List.NoDup names ->
  (Video.has_all_tags db names v = true <->
   forall n, In n names -> Spec.has_tag db v n).
Proof.
  intros Hne Hnd. unfold Video.has_all_tags, Video.count_distinct.
  set (m := Video.matched_names db names (v_id v)).
  assert (Hm : forall n, In n m <-> In n names /\ Spec.has_tag db v n).
  { intros n. unfold m. rewrite matched_names_In. unfold Spec.has_tag. reflexivity. }
  assert (Hincl : incl (nodup string_dec m) names).
  { intros n Hn. apply nodup_In in Hn. now apply Hm in Hn. }
  pose proof (List.NoDup_nodup string_dec m) as Hndm.
  rewrite andb_true_iff, negb_true_iff, Nat.eqb_neq, Z.eqb_eq, Nat2Z.inj_iff.
  split.
  - intros [_ Hlen] n Hn.
    assert (Hin : incl names (nodup string_dec m)).
    { apply List.NoDup_length_incl; [exact Hndm|lia|exact Hincl]. }
    apply Hin in Hn. apply nodup_In in Hn. now apply Hm in Hn.
  - intros Hall.
    assert (Hin : incl names (nodup string_dec m)).
    { intros n Hn. apply nodup_In. apply Hm. auto. }
    split.
    + destruct names as [|n names']; [congruence|].
      assert (Hn : In n m) by (apply Hm; split; [now left|apply Hall; now left]).
      destruct m; [destruct Hn|simpl; lia].
    + apply Nat.le_antisymm; apply List.NoDup_incl_length; assumption.
Qed.

Lemma searchByTags_rows db names v :
  names <> [] ->
  (In v (List.map Video.row (Video.searchByTags db (Some names))) <->
   In v (videos db) /\ Video.has_all_tags db names v = true).
Proof.
  intros Hne. destruct names as [|n names]; [congruence|].
  unfold Video.searchByTags.
  rewrite List.map_map, in_map_iff. split.
  - intros (r & <- & Hr).
    apply order_by_In in Hr. apply in_map_iff in Hr as (v' & <- & Hv').
    apply filter_In in Hv'. exact Hv'.
  - intros Hv. exists (Video.aggregate db v). split; [reflexivity|].
    apply order_by_In. apply in_map_iff. exists v. split; [reflexivity|].
    now apply filter_In.
Qed.

(** C3 (as amended).  For every list of N >= 1 pairwise distinct tag names,
    [searchByTags] returns exactly the videos associated with all N named
    tags; for an empty or missing list it returns the empty list. *)
Theorem searchByTags_all_tags :
  forall (db : Db.t) (names : list string),
    names <> [] -> List.NoDup names ->
    (forall v,
        In v (List.map Video.row (Video.searchByTags db (Some names))) <->
        In v (videos db) /\ forall n, In n names -> Spec.has_tag db v n)
    /\ Video.searchByTags db (Some []) = []
    /\ Video.searchByTags db None = [].
Proof.
  intros db names Hne Hnd. split; [|split; reflexivity].
  intros v. rewrite searchByTags_rows by exact Hne.
  now rewrite has_all_tags_spec.
Qed.

Lemma searchByTags_all_tags_witness :
  In (Sample.mk_video 1 "both" "both.mp4" 10)
     (List.map Video.row (Video.searchByTags Sample.tagged_db (Some ["A"; "B"])))
  /\ Video.searchByTags Sample.tagged_db None = [].
Proof.
  assert (Hne : ["A"; "B"] <> []) by discriminate.
  assert (Hnd : List.NoDup ["A"; "B"]).
  { repeat constructor; simpl; intuition discriminate. }
  destruct (searchByTags_all_tags Sample.tagged_db ["A"; "B"] Hne Hnd)
    as (Hiff & _ & Hnone).
  split; [|exact Hnone].
  apply Hiff. split; [now left|].
  intros n [<-|[<-|[]]].
  - exists {| vt_video_id := 1; vt_tag_id := 1 |}, (Sample.mk_tag 1 "A" "#dc3545").
    simpl. tauto.
  - exists {| vt_video_id := 1; vt_tag_id := 2 |}, (Sample.mk_tag 2 "B" "#28a745").
    simpl. tauto.
Defined.

(** C3 as stated fails on a list that names a tag twice: video 2 carries
    every tag the list ["A"; "A"] names, and the search returns nothing. *)
Lemma searchByTags_duplicate_counterexample :
  ~ (forall (db : Db.t) (names : list string),
        names <> [] ->
        forall v,
          In v (List.map Video.row (Video.searchByTags db (Some names))) <->
          In v (videos db) /\ forall n, In n names -> Spec.has_tag db v n).
Proof.
  intros H.
  specialize (H Sample.tagged_db ["A"; "A"] ltac:(discriminate)
                (Sample.mk_video 2 "only a" "only_a.mp4" 20)).
  destruct H as [_ H]. vm_compute in H. apply H. split.
  - right. now left.
  - intros n Hn.
    exists {| vt_video_id := 2; vt_tag_id := 1 |}, (Sample.mk_tag 1 "A" "#dc3545").
    destruct Hn as [<-|[<-|[]]]; repeat split; simpl; auto.
Qed.

(** ** Tag creation *)

Lemma violates_unique_spec db name :
  Tag.violates_unique db name = true <-> Spec.name_taken db name.
Proof.
  unfold Tag.violates_unique, Spec.name_taken. rewrite existsb_exists.
  split; intros (t & Ht & He); exists t; split; auto;
    now apply String.eqb_eq.
Qed.

Lemma fold_max_ge (seq : Z) (ids : list Z) :
  seq <= List.fold_right Z.max seq ids
  /\ forall i, In i ids -> i <= List.fold_right Z.max seq ids.
Proof.
  induction ids as [|x ids [IH1 IH2]]; simpl.
  - split; [lia|]. intros i [].
  - split; [lia|]. intros i [<-|Hi]; [lia|]. specialize (IH2 i Hi). lia.
Qed.

Lemma next_id_fresh db t : In t (Db.tags db) -> t_id t < Tag.next_id db.
Proof.
  intros Ht. unfold Tag.next_id.
  pose proof (proj2 (fold_max_ge (tags_seq db) (List.map t_id (Db.tags db)))
                (t_id t) (in_map t_id _ _ Ht)).
  lia.
Qed.

(** C5 (as amended).  [createTag] is rejected, and inserts no row, if and
    only if a tag with exactly that name (compared byte for byte, as the
    UNIQUE constraint does) already exists; otherwise it appends the row and
    resolves with its id, which is larger than every id in the table.
    Creating "MOVIE" when "Movie" exists succeeds. *)
Theorem createTag_duplicate_name :
  (forall (code : string) (db : Db.t) (name : string) (color : option string)
          (parentId : option Z) (category : option string) (level : option Z),
      ((exists e, fst (Tag.createTag code db name color parentId category level)
                  = JS.Rejected e)
       <-> Spec.name_taken db name)
      /\ (forall e, fst (Tag.createTag code db name color parentId category level)
                    = JS.Rejected e ->
                    snd (Tag.createTag code db name color parentId category level) = db)
      /\ (forall id, fst (Tag.createTag code db name color parentId category level)
                     = JS.Resolved id ->
                     Db.tags (snd (Tag.createTag code db name color parentId category level))
                     = (Db.tags db ++
                        [ {| t_id := id; t_name := name; t_color := color;
                             t_parent_id := parentId; t_category := category;
                             t_level := level |} ])%list
                     /\ forall t, In t (Db.tags db) -> t_id t < id))
  /\ (forall code,
         fst (Tag.createTag code Sample.movie_db "MOVIE" (Some "#007bff") None
                (Some "custom") (Some 1)) = JS.Resolved 2
         /\ List.map t_name
              (Db.tags (snd (Tag.createTag code Sample.movie_db "MOVIE"
                               (Some "#007bff") None (Some "custom") (Some 1))))
            = ["Movie"; "MOVIE"]).
Proof.
  split.
  - intros code db name color parentId category level.
    unfold Tag.createTag, Tag.insert_tag.
    destruct (Tag.violates_unique db name) eqn:Hu.
    + apply violates_unique_spec in Hu.
      destruct (String.eqb code "SQLITE_CONSTRAINT_UNIQUE"); simpl;
        (split; [split; eauto|split; [reflexivity|discriminate]]).
    + assert (Hn : ~ Spec.name_taken db name).
      { intros H. apply violates_unique_spec in H. congruence. }
      simpl. split; [split; [intros [e He]; discriminate|tauto]|].
      split; [discriminate|].
      intros id [= <-]. split; [reflexivity|]. apply next_id_fresh.
  - intros code. split; reflexivity.
Qed.

(** C5 as stated fails: "Movie" is in the table, "MOVIE" equals it up to
    case, and creating "MOVIE" is not rejected. *)
Lemma createTag_case_counterexample :
  ~ (forall (code : string) (db : Db.t) (name : string) (color : option string)
            (parentId : option Z) (category : option string) (level : option Z),
        (exists e, fst (Tag.createTag code db name color parentId category level)
                   = JS.Rejected e)
        <-> Spec.name_taken_ci db name).
Proof.
  intros H.
  destruct (H "SQLITE_CONSTRAINT" Sample.movie_db "MOVIE" (Some "#007bff") None
              (Some "custom") (Some 1)) as [_ H'].
  destruct H' as [e He].
  - exists (Sample.mk_tag 1 "Movie" "#dc3545"). split; [now left|reflexivity].
  - discriminate.
Qed.

(** ** The preview window *)

Local Open Scope Q_scope.

Lemma Qmin_cases (x y : Q) :
  (x <= y /\ Qmin x y = x) \/ (y < x /\ Qmin x y = y).
Proof.
  unfold Qmin, GenericMinMax.gmin.
  destruct (x ?= y) eqn:Hc.
  - left. split; [|reflexivity]. apply Qeq_alt in Hc. rewrite Hc. apply Qle_refl.
  - left. split; [|reflexivity]. apply Qlt_alt in Hc. now apply Qlt_le_weak.
  - right. split; [|reflexivity]. now apply Qgt_alt in Hc.
Qed.

Lemma Qmax_cases (x y : Q) :
  (y <= x /\ Qmax x y = x) \/ (x < y /\ Qmax x y = y).
Proof.
  unfold Qmax, GenericMinMax.gmax.
  destruct (x ?= y) eqn:Hc.
  - left. split; [|reflexivity]. apply Qeq_alt in Hc. rewrite Hc. apply Qle_refl.
  - right. split; [|reflexivity]. now apply Qlt_alt in Hc.
  - left. split; [|reflexivity]. apply Qgt_alt in Hc. now apply Qlt_le_weak.
Qed.

Lemma Qle_bool_cases (x y : Q) :
  (x <= y /\ Qle_bool x y = true) \/ (y < x /\ Qle_bool x y = false).
Proof.
  destruct (Qle_bool x y) eqn:Hb.
  - left. split; [now apply Qle_bool_iff|reflexivity].
  - right. split; [|reflexivity]. apply Qnot_le_lt. intros H.
    apply Qle_bool_iff in H. congruence.
Qed.

Ltac window_cases :=
  repeat match goal with
    | |- context [Qmin ?x ?y] =>
        let H := fresh in let E := fresh in
        destruct (Qmin_cases x y) as [[H E]|[H E]]; rewrite E in *; clear E
    | |- context [Qmax ?x ?y] =>
        let H := fresh in let E := fresh in
        destruct (Qmax_cases x y) as [[H E]|[H E]]; rewrite E in *; clear E
    | |- context [Qle_bool ?x ?y] =>
        let H := fresh in let E := fresh in
        destruct (Qle_bool_cases x y) as [[H E]|[H E]]; rewrite E in *; clear E;
        cbn [negb orb] in *
    end.

(** ** The preview window in double precision *)

Section Rounded.
Variable fl : Q -> Q.
Hypothesis fl_double : Spec.rounds_to_double fl.

Lemma fl_mono x y : x <= y -> fl x <= fl y.
Proof. apply (proj1 fl_double). Qed.

Lemma fl_dyadic (m : Z) (k : nat) (x : Q) :
  (Z.abs m <= 2 ^ 53)%Z -> (k <= 1022)%nat ->
  x == inject_Z m / inject_Z (2 ^ Z.of_nat k) -> fl x == x.
Proof. apply (proj2 fl_double). Qed.

Lemma fl_int (n : Z) (x : Q) :
  (Z.abs n <= 2 ^ 53)%Z -> x == inject_Z n -> fl x == inject_Z n.
Proof.
  intros Hn Hx. transitivity x; [|exact Hx].
  apply (fl_dyadic n 0 x Hn); [lia|].
  rewrite Hx. change (inject_Z (2 ^ Z.of_nat 0)) with 1. field.
Qed.

Lemma fl_le (n : Z) (x : Q) :
  (Z.abs n <= 2 ^ 53)%Z -> x <= inject_Z n -> fl x <= inject_Z n.
Proof.
  intros Hn Hx. apply Qle_trans with (fl (inject_Z n)); [now apply fl_mono|].
  rewrite (fl_int n (inject_Z n) Hn (Qeq_refl _)). apply Qle_refl.
Qed.

Lemma fl_ge (n : Z) (x : Q) :
  (Z.abs n <= 2 ^ 53)%Z -> inject_Z n <= x -> inject_Z n <= fl x.
Proof.
  intros Hn Hx. apply Qle_trans with (fl (inject_Z n)); [|now apply fl_mono].
  rewrite (fl_int n (inject_Z n) Hn (Qeq_refl _)). apply Qle_refl.
Qed.

Lemma inject_Z_sub (d n : Z) : inject_Z (d - n) == inject_Z d - inject_Z n.
Proof. unfold Qeq, Qminus, Qplus, Qopp, inject_Z. simpl. lia. Qed.

Lemma window_short (d : Z) :
  (1 <= d <= 30)%Z ->
  let w := Thumb.preview_window_rounded fl d in
  fst w == Qmin 2 (fl (inject_Z d * fl (1 # 10)))
  /\ snd w <= 10
  /\ ((13 <= d)%Z -> fst w + snd w <= inject_Z d - 1)
  /\ ((d = 1)%Z -> snd w == 1).
Proof.
  intros [Hlo Hhi] w. subst w. unfold Thumb.preview_window_rounded, Thumb.Qltb.
  destruct (Z.leb_spec d 30) as [_|]; [|lia].
  cbv beta iota zeta.
  pose proof (inject_Z_sub d 1) as E1. pose proof (inject_Z_sub d 2) as E2.
  pose proof (inject_Z_sub d 3) as E3.
  assert (Hq : 1 <= inject_Z d <= 30).
  { split; [change 1 with (inject_Z 1)|change 30 with (inject_Z 30)];
      now rewrite <- Zle_Qle. }
  assert (Hcase : ((d = 1)%Z /\ inject_Z d == 1)
                  \/ ((2 <= d <= 11)%Z /\ inject_Z d <= 11)
                  \/ ((d = 12)%Z /\ inject_Z d == 12)
                  \/ ((13 <= d)%Z /\ 13 <= inject_Z d)).
  { destruct (Z.eq_dec d 1%Z) as [->|]; [left; split; reflexivity|right].
    destruct (Z_le_gt_dec d 11%Z); [left; split; [lia|]|right].
    { change 11 with (inject_Z 11). now rewrite <- Zle_Qle. }
    destruct (Z.eq_dec d 12%Z) as [->|]; [left; split; reflexivity|right].
    split; [lia|]. change 13 with (inject_Z 13). rewrite <- Zle_Qle. lia. }
  set (q := inject_Z d) in *.
  set (c := fl (1 # 10)).
  assert (Hc : 0 <= c) by (apply (fl_ge 0); [lia|discriminate]).
  clearbody c.
  set (P := fl (q * c)).
  assert (HP : 0 <= P).
  { apply (fl_ge 0); [lia|]. change (inject_Z 0) with 0. nra. }
  clearbody P.
  set (s0 := Qmin 2 P).
  assert (Hs0 : 0 <= s0 <= 2).
  { subst s0. destruct (Qmin_cases 2 P) as [[? ->]|[? ->]]; lra. }
  clearbody s0.
  destruct (Qle_bool_cases 0 s0) as [[_ ->]|[? _]]; [|lra].
  cbn [negb]. cbv beta iota zeta.
  set (D := fl (q - s0)).
  assert (HD : q - 2 <= D <= q).
  { split.
    - rewrite <- E2. apply fl_ge; [lia|]. rewrite E2. change (inject_Z 2) with 2. lra.
    - apply fl_le; [lia|]. fold q. lra. }
  clearbody D.
  set (L := fl (D - 1)).
  assert (HL : q - 3 <= L <= q - 1).
  { split.
    - rewrite <- E3. apply fl_ge; [lia|]. rewrite E3. change (inject_Z 3) with 3. lra.
    - rewrite <- E1. apply fl_le; [lia|]. rewrite E1. change (inject_Z 1) with 1. lra. }
  assert (HL0 : q <= 1 -> L <= 0).
  { intros H. apply (fl_le 0); [lia|]. change (inject_Z 0) with 0. lra. }
  assert (HL10 : 13 <= q -> 10 <= L).
  { intros H. apply (fl_ge 10); [lia|]. change (inject_Z 10) with 10. lra. }
  clearbody L.
  set (l0 := Qmin 10 L).
  assert (Hl0 : (10 <= L /\ l0 == 10) \/ (L < 10 /\ l0 == L)).
  { subst l0. destruct (Qmin_cases 10 L) as [[? ->]|[? ->]]; [left|right];
      split; try assumption; reflexivity. }
  clearbody l0.
  set (S := fl (s0 + l0)).
  assert (HS : S <= 12).
  { apply (fl_le 12); [lia|]. change (inject_Z 12) with 12.
    destruct Hl0 as [[? ?]|[? ?]]; lra. }
  clearbody S.
  destruct (Qle_bool_cases l0 0) as [[Hz ->]|[Hz ->]];
    destruct (Qle_bool_cases S q) as [[Hs ->]|[Hs ->]];
    cbn [negb orb fst snd];
    try (destruct (Qmax_cases 1 L) as [[Hm ->]|[Hm ->]]);
    (split; [reflexivity|]);
    (split; [destruct Hcase as [[? ?]|[[? ?]|[[? ?]|[? ?]]]];
             destruct Hl0 as [[? ?]|[? ?]]; lra|]);
    (split; [intros H13|intros H1]).
  all: try (destruct Hcase as [[? ?]|[[? ?]|[[? ?]|[? ?]]]]; try (exfalso; lia);
            destruct Hl0 as [[? ?]|[? ?]]; lra).
Qed.

Lemma window_medium (d : Z) :
  (30 < d <= 60)%Z ->
  let w := Thumb.preview_window_rounded fl d in
  fst w == 15 /\ snd w <= 15 /\ fst w + snd w <= inject_Z d - 5.
Proof.
  intros [Hlo Hhi] w. subst w. unfold Thumb.preview_window_rounded, Thumb.Qltb.
  destruct (Z.leb_spec d 30) as [|_]; [lia|].
  destruct (Z.leb_spec d 60) as [_|]; [|lia].
  cbv beta iota zeta.
  pose proof (inject_Z_sub d 15) as E15. pose proof (inject_Z_sub d 20) as E20.
  pose proof (inject_Z_sub d 5) as E5.
  assert (Hq : 31 <= inject_Z d <= 60).
  { split; [change 31 with (inject_Z 31)|change 60 with (inject_Z 60)];
      rewrite <- Zle_Qle; lia. }
  set (q := inject_Z d) in *.
  destruct (Qle_bool_cases 0 15) as [[_ ->]|[H _]]; [|exfalso; lra].
  cbn [negb]. cbv beta iota zeta.
  set (D := fl (q - 15)).
  assert (HD : D == q - 15).
  { rewrite <- E15. apply fl_int; [lia|]. rewrite E15. reflexivity. }
  clearbody D.
  set (L := fl (D - 5)).
  assert (HL : L == q - 20).
  { rewrite <- E20. apply fl_int; [lia|]. rewrite E20, HD.
    change (inject_Z 20) with 20. ring. }
  clearbody L.
  set (l0 := Qmin 15 L).
  assert (Hl0 : (15 <= L /\ l0 == 15) \/ (L < 15 /\ l0 == L)).
  { subst l0. destruct (Qmin_cases 15 L) as [[? ->]|[? ->]]; [left|right];
      split; try assumption; reflexivity. }
  clearbody l0.
  set (S := fl (15 + l0)).
  assert (HS : S <= q - 5).
  { rewrite <- E5. apply fl_le; [lia|]. rewrite E5. change (inject_Z 5) with 5.
    destruct Hl0 as [[? ?]|[? ?]]; lra. }
  clearbody S.
  set (M := fl (D - 1)). clearbody M.
  destruct (Qle_bool_cases l0 0) as [[Hz ->]|[Hz ->]];
    destruct (Qle_bool_cases S q) as [[Hs ->]|[Hs ->]];
    cbn [negb orb fst snd];
    try (exfalso; destruct Hl0 as [[? ?]|[? ?]]; lra).
  split; [reflexivity|]. destruct Hl0 as [[? ?]|[? ?]]; split; lra.
Qed.

Lemma window_long (d : Z) :
  (60 < d <= 2 ^ 53)%Z ->
  let w := Thumb.preview_window_rounded fl d in
  30 <= fst w /\ 10 <= snd w <= 20 /\ fst w + snd w <= inject_Z d - 5.
Proof.
  intros [Hlo Hhi] w. subst w. unfold Thumb.preview_window_rounded, Thumb.Qltb.
  destruct (Z.leb_spec d 30) as [|_]; [lia|].
  destruct (Z.leb_spec d 60) as [|_]; [lia|].
  cbv beta iota zeta.
  pose proof (inject_Z_sub d 20) as E20. pose proof (inject_Z_sub d 25) as E25.
  pose proof (inject_Z_sub d 5) as E5.
  assert (Hq : 61 <= inject_Z d).
  { change 61 with (inject_Z 61). rewrite <- Zle_Qle. lia. }
  assert (Hcase : ((d <= 66)%Z /\ inject_Z d <= 66) \/ ((67 <= d)%Z /\ 67 <= inject_Z d)).
  { destruct (Z_le_gt_dec d 66%Z); [left|right]; (split; [lia|]).
    - change 66 with (inject_Z 66). now rewrite <- Zle_Qle.
    - change 67 with (inject_Z 67). rewrite <- Zle_Qle. lia. }
  set (q := inject_Z d) in *.
  set (c2 := fl (2 # 10)).
  assert (Hc2 : 0 <= c2 <= 1 # 4).
  { split.
    - apply (fl_ge 0); [lia|discriminate].
    - apply Qle_trans with (fl (1 # 4)); [apply fl_mono; discriminate|].
      rewrite (fl_dyadic 1 2 (1 # 4)); [apply Qle_refl|lia|lia|reflexivity]. }
  clearbody c2.
  set (c3 := fl (3 # 10)).
  assert (Hc3 : 153 # 512 <= c3).
  { apply Qle_trans with (fl (153 # 512)); [|apply fl_mono; discriminate].
    rewrite (fl_dyadic 153 9 (153 # 512)); [apply Qle_refl|lia|lia|reflexivity]. }
  clearbody c3.
  set (A := fl (q * c2)).
  assert (HA : q <= 66 -> A <= 30).
  { intros H. apply (fl_le 30); [lia|]. change (inject_Z 30) with 30. nra. }
  clearbody A.
  set (B := fl (q * c3)).
  assert (HB : 67 <= q -> 20 <= B).
  { intros H. apply (fl_ge 20); [lia|]. change (inject_Z 20) with 20. nra. }
  clearbody B.
  set (dur := Qmin 20 (Qmax 10 B)).
  assert (Hdur : 10 <= dur <= 20 /\ (67 <= q -> dur == 20)).
  { subst dur. destruct (Qmax_cases 10 B) as [[? ->]|[? ->]];
      [destruct (Qmin_cases 20 10) as [[? ->]|[? ->]]
      |destruct (Qmin_cases 20 B) as [[? ->]|[? ->]]];
      (split; [lra|intros H67; try reflexivity; specialize (HB H67); lra]). }
  destruct Hdur as [Hdur Hdur20]. clearbody dur.
  set (s0 := Qmax 30 A).
  assert (Hs0 : 30 <= s0 /\ (q <= 66 -> s0 == 30)).
  { subst s0. destruct (Qmax_cases 30 A) as [[? ->]|[? ->]];
      (split; [lra|intros H66; try reflexivity; specialize (HA H66); lra]). }
  destruct Hs0 as [Hs0 Hs030]. clearbody s0.
  set (D := fl (q - dur)).
  assert (HD : q - 20 <= D /\ (67 <= q -> D == q - 20)).
  { split.
    - rewrite <- E20. apply fl_ge; [lia|]. rewrite E20. change (inject_Z 20) with 20. lra.
    - intros H67. rewrite <- E20. apply fl_int; [lia|]. rewrite E20, (Hdur20 H67).
      reflexivity. }
  destruct HD as [HD HD20]. clearbody D.
  set (M := fl (D - 5)).
  assert (HM : q - 25 <= M /\ (67 <= q -> M == q - 25)).
  { split.
    - rewrite <- E25. apply fl_ge; [lia|]. rewrite E25. change (inject_Z 25) with 25. lra.
    - intros H67. rewrite <- E25. apply fl_int; [lia|]. rewrite E25, (HD20 H67).
      change (inject_Z 25) with 25. ring. }
  destruct HM as [HM HM25]. clearbody M.
  set (s1 := Qmin s0 M).
  assert (Hs1 : 30 <= s1 /\ s1 <= s0 /\ s1 <= M).
  { subst s1. destruct (Qmin_cases s0 M) as [[? ->]|[? ->]]; lra. }
  clearbody s1.
  assert (Hsum : s1 + dur <= q - 5).
  { destruct Hcase as [[_ H66]|[_ H67]].
    - specialize (Hs030 H66). lra.
    - specialize (Hdur20 H67). specialize (HM25 H67). lra. }
  destruct (Qle_bool_cases 0 s1) as [[_ ->]|[? _]]; [|lra].
  cbn [negb]. cbv beta iota zeta.
  set (S := fl (s1 + dur)).
  assert (HS : S <= q - 5).
  { rewrite <- E5. apply fl_le; [lia|]. rewrite E5. exact Hsum. }
  clearbody S.
  destruct (Qle_bool_cases dur 0) as [[Hz ->]|[Hz ->]];
    destruct (Qle_bool_cases S q) as [[Hs ->]|[Hs ->]];
    cbn [negb orb fst snd]; try (exfalso; lra).
  repeat split; lra.
Qed.

End Rounded.


Lemma rounds_to_double_exact : Spec.rounds_to_double (fun x => x).
Proof. split; [intros x y H; exact H|intros x m k _ _ _; reflexivity]. Qed.



Lemma preview_window_exact (d : Z) :
  Thumb.preview_window d = Thumb.preview_window_rounded (fun x => x) d.
Proof. reflexivity. Qed.

Local Close Scope Q_scope.

(** ** Preview clips *)

Lemma extract_preview_valid E videoPath previewPath startTime duration width height w p :
  fst (Thumb.extract_preview E videoPath previewPath startTime duration width height w)
  = Some p ->
  exists content,
    Thumb.files (snd (Thumb.extract_preview E videoPath previewPath startTime
                        duration width height w)) !! p = Some content
    /\ 1024 <= Thumb.size content.
Proof.
  unfold Thumb.extract_preview.
  destruct (Thumb.ffmpeg E); simpl; [|discriminate].
  destruct (Thumb.spawn E _ w) as [[wr|wr|] w'] eqn:Hs; simpl; try discriminate.
  destruct (Thumb.files w' !! previewPath) as [content|] eqn:Hl; simpl;
    [|discriminate].
  destruct (Z.ltb_spec (Thumb.size content) 1024); simpl; [discriminate|].
  intros [= <-]. eauto.
Qed.

Lemma duration_nonzero_ffmpeg E videoPath :
  Thumb.getVideoDuration E videoPath <> 0 -> Thumb.ffmpeg E = true.
Proof.
  unfold Thumb.getVideoDuration. destruct (Thumb.ffmpeg E); simpl; congruence.
Qed.

(** C7.  [generatePreview] never returns the path of a file smaller than
    1024 bytes.  When the duration is known, an existing preview file
    smaller than 1KB is removed and the clip is extracted again, exactly as
    if the file had not been there; and a freshly written clip smaller than
    1KB is removed and the call returns [null]. *)
Theorem generatePreview_rejects_small_files :
  forall (E : Thumb.env) (thumbnailDir videoPath filename : string)
         (width height : Z) (w : Thumb.world),
    let previewPath := Path.join thumbnailDir (Thumb.getPreviewFilename filename) in
    let window := Thumb.preview_window (Thumb.getVideoDuration E videoPath) in
    let clip := Thumb.Clip videoPath (fst window) (snd window) width height previewPath in
    let out := Thumb.generatePreview E thumbnailDir videoPath filename width height w in
    (forall p, fst out = Some p ->
               exists content,
                 Thumb.files (snd out) !! p = Some content
                 /\ 1024 <= Thumb.size content)
    /\ (Thumb.getVideoDuration E videoPath <> 0 ->
        forall old, Thumb.files w !! previewPath = Some old ->
                    Thumb.size old < 1024 ->
                    out = Thumb.generatePreview E thumbnailDir videoPath filename
                            width height (Thumb.remove previewPath w)
                    /\ Thumb.jobs (snd out) = (Thumb.jobs w ++ [clip])%list)
    /\ (Thumb.getVideoDuration E videoPath <> 0 ->
        (forall old, Thumb.files w !! previewPath = Some old ->
                     Thumb.size old <= 1024) ->
        forall fresh, Thumb.run E clip = Thumb.Ended (Some fresh) ->
                      Thumb.size fresh < 1024 ->
                      fst out = None
                      /\ Thumb.files (snd out) !! previewPath = None).
Proof.
  intros E thumbnailDir videoPath filename width height w previewPath window clip out.
  subst out clip window. unfold Thumb.generatePreview. fold previewPath.
  destruct (Z.eqb_spec (Thumb.getVideoDuration E videoPath) 0) as [Hz|Hnz].
  { split; [intros p; discriminate|]. split; intros H; contradiction. }
  destruct (Thumb.preview_window (Thumb.getVideoDuration E videoPath))
    as [startTime duration] eqn:Hw.
  cbn [fst snd].
  pose proof (duration_nonzero_ffmpeg E videoPath Hnz) as Hff.
  split; [|split].
  - destruct (Thumb.files w !! previewPath) as [old|] eqn:Hold.
    + destruct (Z.gtb_spec (Thumb.size old) 1024).
      * intros p [= <-]. simpl. exists old. split; [exact Hold|lia].
      * intros p. apply extract_preview_valid.
    + intros p. apply extract_preview_valid.
  - intros _ old Hold Hsmall. rewrite Hold.
    destruct (Z.gtb_spec (Thumb.size old) 1024); [lia|].
    assert (Hgone : Thumb.files (Thumb.remove previewPath w) !! previewPath = None)
      by apply lookup_delete_eq.
    rewrite Hgone. split; [reflexivity|].
    unfold Thumb.extract_preview, Thumb.spawn. rewrite Hff. cbn [negb].
    destruct (Thumb.run E _) as [[c|]|[c|]|]; cbn [Thumb.leave];
      repeat match goal with
        | |- context [match ?x !! ?k with _ => _ end] => destruct (x !! k)
        | |- context [if ?b then _ else _] => destruct b
        end; reflexivity.
  - intros _ Hold fresh Hrun Hsmall.
    assert (Hex : forall w0,
               Thumb.extract_preview E videoPath previewPath startTime duration
                 width height w0
               = (None, Thumb.remove previewPath
                          (Thumb.writeFile previewPath fresh
                             {| Thumb.files := Thumb.files w0;
                                Thumb.jobs := (Thumb.jobs w0 ++
                                  [Thumb.Clip videoPath startTime duration width
                                     height previewPath])%list |}))).
    { intros w0. unfold Thumb.extract_preview, Thumb.spawn.
      rewrite Hff, Hrun. cbn [negb Thumb.leave Thumb.output_of].
      cbn [Thumb.writeFile Thumb.files]. rewrite lookup_insert_eq.
      destruct (Z.ltb_spec (Thumb.size fresh) 1024); [reflexivity|lia]. }
    destruct (Thumb.files w !! previewPath) as [old|] eqn:Hold'.
    + specialize (Hold old eq_refl).
      destruct (Z.gtb_spec (Thumb.size old) 1024); [lia|].
      rewrite Hex. split; [reflexivity|]. apply lookup_delete_eq.
    + rewrite Hex. split; [reflexivity|]. apply lookup_delete_eq.
Qed.

Lemma generatePreview_rejects_small_files_witness :
  fst (Thumb.generatePreview Sample.tiny_env Sample.thumbnails Sample.clip_path
         "clip.mp4" 480 360 Sample.empty_world) = None
  /\ Thumb.files
       (snd (Thumb.generatePreview Sample.tiny_env Sample.thumbnails
               Sample.clip_path "clip.mp4" 480 360 Sample.empty_world))
     !! Path.join Sample.thumbnails (Thumb.getPreviewFilename "clip.mp4") = None.
Proof.
  apply (proj2 (proj2 (generatePreview_rejects_small_files Sample.tiny_env
                         Sample.thumbnails Sample.clip_path "clip.mp4" 480 360
                         Sample.empty_world))) with (fresh := "moov").
  - vm_compute. discriminate.
  - intros old H. vm_compute in H. discriminate.
  - reflexivity.
  - vm_compute. reflexivity.
Defined.

(** ** Unknown duration *)

Lemma placeholder_written thumbnailPath filename w :
  exists content,
    Thumb.files (snd (Thumb.createPlaceholderThumbnail thumbnailPath filename w))
    !! fst (Thumb.createPlaceholderThumbnail thumbnailPath filename w)
    = Some content.
Proof.
  unfold Thumb.createPlaceholderThumbnail. simpl.
  eexists. apply lookup_insert_eq.
Qed.

(** C10 (as amended).  [getVideoDuration] reports 0 whenever the tool is
    unavailable and whenever the probe fails; and whenever it reports 0,
    [generatePreview] returns [null] with the thumbnail directory untouched
    and no extraction started.  [generateThumbnail] for the same file still
    returns a path, and the file at that path exists afterwards (the
    thumbnail already there, the frame just written, or the placeholder)
    in every case but one: the thumbnail was not there, the tool is
    available, and the transcoder reports completion without having
    written the frame.  In particular it exists whenever the tool is
    unavailable. *)
Theorem generatePreview_null_without_duration :
  forall (E : Thumb.env) (thumbnailDir videoPath filename : string)
         (width height : Z) (timemark : string) (w : Thumb.world),
    (Thumb.ffmpeg E = false -> Thumb.getVideoDuration E videoPath = 0)
    /\ (Thumb.ffprobe E videoPath = Thumb.ProbeError
        \/ Thumb.ffprobe E videoPath = Thumb.ProbeThrows ->
        Thumb.getVideoDuration E videoPath = 0)
    /\ (Thumb.getVideoDuration E videoPath = 0 ->
        Thumb.generatePreview E thumbnailDir videoPath filename width height w
        = (None, w))
    /\ (let out := Thumb.generateThumbnail E thumbnailDir videoPath filename
                     width height timemark w in
        let thumbnailPath :=
          Path.join thumbnailDir (Thumb.getThumbnailFilename filename) in
        (Thumb.ffmpeg E = false ->
         exists content, Thumb.files (snd out) !! fst out = Some content)
        /\ ((exists content, Thumb.files (snd out) !! fst out = Some content)
            <-> ~ (Thumb.pathExists w thumbnailPath = false
                   /\ Thumb.ffmpeg E = true
                   /\ Thumb.run E
                        (Thumb.Frame videoPath timemark width height thumbnailPath)
                      = Thumb.Ended None))).
Proof.
  intros E thumbnailDir videoPath filename width height timemark w.
  split; [|split; [|split]].
  - intros Hff. unfold Thumb.getVideoDuration. now rewrite Hff.
  - intros Hp. unfold Thumb.getVideoDuration.
    destruct (Thumb.ffmpeg E); [|reflexivity]. simpl.
    destruct Hp as [-> | ->]; reflexivity.
  - intros Hd. unfold Thumb.generatePreview. now rewrite Hd.
  - cbv zeta. unfold Thumb.generateThumbnail.
    set (thumbnailPath := Path.join thumbnailDir (Thumb.getThumbnailFilename filename)).
    unfold Thumb.pathExists.
    destruct (decide (is_Some (Thumb.files w !! thumbnailPath))) as [[c Hc]|Hno].
    { rewrite bool_decide_eq_true_2 by eauto. simpl.
      split; [eauto|]. split; [intros _ (H & _); discriminate|eauto]. }
    rewrite bool_decide_eq_false_2 by exact Hno.
    destruct (Thumb.ffmpeg E) eqn:Hff; cbn [negb].
    2:{ split; [intros _; apply placeholder_written|].
        split; [intros _ (_ & H & _); discriminate|intros _; apply placeholder_written]. }
    split; [discriminate|].
    unfold Thumb.spawn.
    destruct (Thumb.run E _) as [[c|]|wr|] eqn:Hrun.
    + split; [intros _ (_ & _ & H); discriminate|intros _].
      simpl. eexists. apply lookup_insert_eq.
    + split.
      * intros [c Hc] _. simpl in Hc. apply Hno. eauto.
      * intros H. exfalso. apply H. auto.
    + split; [intros _ (_ & _ & H); discriminate|intros _; apply placeholder_written].
    + split; [intros _ (_ & _ & H); discriminate|intros _; apply placeholder_written].
Qed.

Lemma generatePreview_null_without_duration_witness :
  Thumb.generatePreview Sample.no_tool_env Sample.thumbnails Sample.clip_path
    "clip.mp4" 480 360 Sample.empty_world = (None, Sample.empty_world)
  /\ exists content,
       Thumb.files
         (snd (Thumb.generateThumbnail Sample.no_tool_env Sample.thumbnails
                 Sample.clip_path "clip.mp4" 320 240 "00:00:10" Sample.empty_world))
       !! "/srv/thumbnails/thumb_clip.svg" = Some content.
Proof.
  pose proof (generatePreview_null_without_duration Sample.no_tool_env
                Sample.thumbnails Sample.clip_path "clip.mp4" 480 360 "00:00:10"
                Sample.empty_world) as (_ & _ & Hp & _).
  pose proof (generatePreview_null_without_duration Sample.no_tool_env
                Sample.thumbnails Sample.clip_path "clip.mp4" 320 240 "00:00:10"
                Sample.empty_world) as (_ & _ & _ & Ht & _).
  split.
  - apply Hp. reflexivity.
  - apply Ht. reflexivity.
Defined.

(** C10 as stated fails.  For a video whose duration cannot be read and
    whose frame job ends without an error and without a file (the seek
    point lies beyond the end of a short clip), [generatePreview] returns
    [null] and [generateThumbnail] returns the path of a thumbnail that
    does not exist: no artifact, not even the placeholder. *)
Lemma generateThumbnail_no_artifact_counterexample :
  ~ (forall (E : Thumb.env) (thumbnailDir videoPath filename : string)
            (width height : Z) (timemark : string) (w : Thumb.world),
        Thumb.getVideoDuration E videoPath = 0 ->
        exists content,
          Thumb.files
            (snd (Thumb.generateThumbnail E thumbnailDir videoPath filename
                    width height timemark w))
          !! fst (Thumb.generateThumbnail E thumbnailDir videoPath filename
                    width height timemark w) = Some content)
  /\ Thumb.getVideoDuration Sample.silent_env Sample.clip_path = 0
  /\ Thumb.generatePreview Sample.silent_env Sample.thumbnails Sample.clip_path
       "clip.mp4" 480 360 Sample.empty_world = (None, Sample.empty_world)
  /\ fst (Thumb.generateThumbnail Sample.silent_env Sample.thumbnails
            Sample.clip_path "clip.mp4" 320 240 "00:00:10" Sample.empty_world)
     = "/srv/thumbnails/thumb_clip.jpg"
  /\ Thumb.files
       (snd (Thumb.generateThumbnail Sample.silent_env Sample.thumbnails
               Sample.clip_path "clip.mp4" 320 240 "00:00:10" Sample.empty_world))
     = ∅.
Proof.
  split; [|repeat split; reflexivity].
  intros H.
  destruct (H Sample.silent_env Sample.thumbnails Sample.clip_path "clip.mp4"
              320 240 "00:00:10" Sample.empty_world eq_refl) as [content Hc].
  vm_compute in Hc. discriminate.
Qed.

(** ** Selection thumbnails on an unknown duration *)

Lemma attempt_jobs E videoPath thumbnailPath timemark w :
  Thumb.jobs (snd (Thumb.attempt E videoPath thumbnailPath timemark w)) = Thumb.jobs w
  \/ Thumb.jobs (snd (Thumb.attempt E videoPath thumbnailPath timemark w))
     = (Thumb.jobs w ++ [Thumb.Frame videoPath timemark 240 180 thumbnailPath])%list.
Proof.
  unfold Thumb.attempt, Thumb.generateSingleThumbnail, Thumb.spawn.
  destruct (Thumb.pathExists w thumbnailPath); [now left|].
  destruct (Thumb.ffmpeg E); cbn [negb]; [|now left].
  right. destruct (Thumb.run E _) as [[c|]|[c|]|]; reflexivity.
Qed.

(** The loop only ever extends the list it has accumulated; what it adds,
    and the jobs it runs, follow the slots in order. *)
Lemma fallback_loop_spec E thumbnailDir videoPath filename times :
  forall i thumbnails w,
  exists more js,
    fst (Thumb.fallback_loop E thumbnailDir videoPath filename i times thumbnails w)
    = (thumbnails ++ more)%list
    /\ Thumb.jobs (snd (Thumb.fallback_loop E thumbnailDir videoPath filename i
                          times thumbnails w))
       = (Thumb.jobs w ++ js)%list
    /\ sublist more
         (List.map (Spec.slot_candidate thumbnailDir filename) (Spec.numbered i times))
    /\ sublist js
         (List.map (Spec.slot_job thumbnailDir videoPath filename) (Spec.numbered i times)).
Proof.
  induction times as [|timemark rest IH]; intros i thumbnails w.
  - exists [], []. simpl. rewrite !app_nil_r. repeat split; constructor.
  - cbn [Thumb.fallback_loop Spec.numbered List.map].
    set (thumbnailPath := Path.join thumbnailDir (Thumb.selection_name (i + 1) filename)).
    pose proof (attempt_jobs E videoPath thumbnailPath timemark w) as Hj.
    destruct (Thumb.attempt E videoPath thumbnailPath timemark w)
      as [[[|]|e] w'] eqn:Ha; cbn [snd] in Hj.
    + destruct (IH (i + 1)
                  (thumbnails ++ [Thumb.mk_candidate thumbnailDir (i + 1) ((i + 1) * 2)
                                    timemark filename])%list w')
        as (more & js & H1 & H2 & H3 & H4).
      exists (Thumb.mk_candidate thumbnailDir (i + 1) ((i + 1) * 2) timemark filename
              :: more).
      destruct Hj as [Hj|Hj].
      * exists js. rewrite H1, H2, Hj, <- app_assoc.
        repeat split; [now apply sublist_skip|now apply sublist_cons].
      * exists (Thumb.Frame videoPath timemark 240 180 thumbnailPath :: js).
        rewrite H1, H2, Hj, <- !app_assoc.
        repeat split; now apply sublist_skip.
    + destruct (IH (i + 1) thumbnails w') as (more & js & H1 & H2 & H3 & H4).
      exists more. destruct Hj as [Hj|Hj].
      * exists js. rewrite H1, H2, Hj. repeat split; now apply sublist_cons.
      * exists (Thumb.Frame videoPath timemark 240 180 thumbnailPath :: js).
        rewrite H1, H2, Hj, <- !app_assoc.
        repeat split; [now apply sublist_cons|now apply sublist_skip].
    + assert (Hstop :
        exists js, Thumb.jobs w' = (Thumb.jobs w ++ js)%list
                   /\ sublist js
                        (Spec.slot_job thumbnailDir videoPath filename (i + 1, timemark)
                         :: List.map (Spec.slot_job thumbnailDir videoPath filename)
                              (Spec.numbered (i + 1) rest))).
      { destruct Hj as [Hj|Hj].
        - exists []. rewrite Hj, app_nil_r. split; [reflexivity|apply sublist_nil_l].
        - exists [Thumb.Frame videoPath timemark 240 180 thumbnailPath].
          split; [exact Hj|]. apply sublist_skip, sublist_nil_l. }
      destruct (i =? 0).
      * destruct Hstop as (js & Hjs & Hsub).
        exists [], js. cbn [fst snd]. rewrite app_nil_r.
        repeat split; [exact Hjs|apply sublist_nil_l|exact Hsub].
      * destruct (IH (i + 1) thumbnails w') as (more & js & H1 & H2 & H3 & H4).
        exists more. destruct Hj as [Hj|Hj].
        -- exists js. rewrite H1, H2, Hj. repeat split; now apply sublist_cons.
        -- exists (Thumb.Frame videoPath timemark 240 180 thumbnailPath :: js).
           rewrite H1, H2, Hj, <- !app_assoc.
           repeat split; [now apply sublist_cons|now apply sublist_skip].
Qed.

Lemma numbered_firstn n i times :
  Spec.numbered i (firstn n times) = firstn n (Spec.numbered i times).
Proof.
  revert i times. induction n as [|n IH]; intros i [|t r]; simpl; try reflexivity.
  now rewrite IH.
Qed.

Lemma fallback_run E thumbnailDir videoPath filename count w :
  Thumb.ffmpeg E = true ->
  Thumb.video_exists E videoPath = true ->
  Thumb.getVideoDuration E videoPath = 0 ->
  Thumb.generateSelectionThumbnails E thumbnailDir videoPath filename count w
  = Thumb.fallback_loop E thumbnailDir videoPath filename 0
      (firstn (Z.to_nat (Z.min count 3)) Thumb.fallbackTimes) [] w.
Proof.
  intros Hff Hex Hd. unfold Thumb.generateSelectionThumbnails.
  rewrite Hff, Hex, Hd. cbn [negb Z.eqb].
  unfold Thumb.generateFallbackThumbnails.
  now rewrite Z.min_l by lia.
Qed.

Lemma fallback_first_slot count :
  1 <= count ->
  exists rest,
    firstn (Z.to_nat (Z.min count 3)) Thumb.fallbackTimes = "00:00:01" :: rest.
Proof.
  intros Hc. destruct (Z.to_nat (Z.min count 3)) as [|n] eqn:Hn; [lia|].
  simpl. eauto.
Qed.




(** ** Aggregated tag lists *)

Lemma split_comma_free x :
  Spec.comma_free x = true -> JS.split "," x = [x].
Proof.
  induction x as [|c x IH]; simpl; [reflexivity|].
  intros H. apply andb_true_iff in H as [Hc Hx].
  apply negb_true_iff in Hc. rewrite Hc, (IH Hx). reflexivity.
Qed.

Lemma split_comma_app x rest :
  Spec.comma_free x = true ->
  JS.split "," (x ++ "," ++ rest) = x :: JS.split "," rest.
Proof.
  induction x as [|c x IH]; simpl; [reflexivity|].
  intros H. apply andb_true_iff in H as [Hc Hx].
  apply negb_true_iff in Hc. rewrite Hc, (IH Hx). reflexivity.
Qed.

Lemma plain_text_comma_free x : Spec.plain_text x = true -> Spec.comma_free x = true.
Proof. unfold Spec.plain_text. intros H. now apply andb_true_iff in H. Qed.

(** Joining with commas and splitting on commas gives the list back. *)
Lemma split_join xs :
  xs <> [] -> Forall (fun x => Spec.plain_text x = true) xs ->
  JS.split "," (JS.join "," xs) = xs.
Proof.
  induction xs as [|x xs IH]; [congruence|]. intros _ Hall.
  apply Forall_cons_1 in Hall as [Hx Hxs].
  apply plain_text_comma_free in Hx.
  destruct xs as [|y xs].
  - simpl. now apply split_comma_free.
  - change (JS.join "," (x :: y :: xs)) with (x ++ "," ++ JS.join "," (y :: xs)).
    rewrite split_comma_app by exact Hx. f_equal. apply IH; [discriminate|exact Hxs].
Qed.

Lemma join_truthy xs :
  xs <> [] -> Forall (fun x => Spec.plain_text x = true) xs ->
  JS.truthy (Some (JS.join "," xs)) = true.
Proof.
  destruct xs as [|x xs]; [congruence|]. intros _ Hall.
  apply Forall_cons_1 in Hall as [Hx _].
  unfold Spec.plain_text in Hx. apply andb_true_iff in Hx as [Hx _].
  destruct x as [|c x]; [discriminate|].
  destruct xs; reflexivity.
Qed.

Lemma split_list_group_concat xs :
  Forall (fun x => Spec.plain_text x = true) xs ->
  Video.split_list (Sql.GROUP_CONCAT (List.map Some xs)) = xs.
Proof.
  intros Hall. unfold Sql.GROUP_CONCAT.
  assert (Hom : omap id (List.map Some xs) = xs).
  { clear Hall. induction xs as [|x xs IH]; [reflexivity|].
    simpl. cbn. f_equal. exact IH. }
  rewrite Hom. destruct xs as [|x xs]; [reflexivity|].
  unfold Video.split_list.
  rewrite join_truthy by (auto; discriminate).
  apply split_join; [discriminate|exact Hall].
Qed.

Lemma digits_comma_free s : JS.all_digits s = true -> Spec.comma_free s = true.
Proof.
  induction s as [|c s IH]; simpl; [reflexivity|].
  intros H. apply andb_true_iff in H as [Hc Hs]. rewrite (IH Hs), andb_true_r.
  destruct (Ascii.eqb_spec c ","); [subst c; discriminate|reflexivity].
Qed.

Lemma string_of_uint_digits d : JS.all_digits (NilEmpty.string_of_uint d) = true.
Proof. induction d; simpl; auto. Qed.

Lemma nilzero_digits d :
  JS.all_digits (NilZero.string_of_uint d) = true
  /\ NilZero.string_of_uint d <> "".
Proof.
  destruct d; simpl; (split; [try apply string_of_uint_digits; reflexivity|discriminate]).
Qed.

Lemma leading_digits_all s : JS.all_digits s = true -> JS.leading_digits s = s.
Proof.
  induction s as [|c s IH]; simpl; [reflexivity|].
  intros H. apply andb_true_iff in H as [Hc Hs]. now rewrite Hc, (IH Hs).
Qed.

Lemma toString_plain z : Spec.plain_text (JS.toString z) = true.
Proof.
  unfold JS.toString, Spec.plain_text.
  destruct (Z.to_int z) as [d|d]; cbn [NilZero.string_of_int];
    destruct (nilzero_digits d) as [Hd Hne].
  - rewrite (digits_comma_free _ Hd), andb_true_r.
    destruct (NilZero.string_of_uint d); [congruence|reflexivity].
  - simpl. now apply digits_comma_free.
Qed.

Lemma uint_of_nilzero d :
  option_map Z.of_uint (NilZero.uint_of_string (NilZero.string_of_uint d))
  = Some (Z.of_uint d).
Proof.
  destruct d; try reflexivity;
    cbn [NilZero.string_of_uint];
    (unfold NilZero.uint_of_string;
     match goal with
     | |- context [NilEmpty.string_of_uint ?u] =>
         destruct (NilEmpty.string_of_uint u) eqn:Hs;
         [discriminate Hs|rewrite <- Hs, NilEmpty.usu; reflexivity]
     end).
Qed.

(** [parseInt] reads back the decimal rendering of an integer. *)
Lemma parseInt_toString z : JS.parseInt (JS.toString z) = Some z.
Proof.
  rewrite <- (DecimalZ.of_to z) at 2.
  unfold JS.toString.
  destruct (Z.to_int z) as [d|d]; cbn [NilZero.string_of_int Z.of_int].
  - destruct (nilzero_digits d) as [Hd Hne].
    pose proof (uint_of_nilzero d) as Hu.
    unfold JS.parseInt.
    destruct (NilZero.string_of_uint d) as [|c s] eqn:Hs; [congruence|].
    assert (Hc : JS.is_digit c = true).
    { simpl in Hd. now apply andb_true_iff in Hd. }
    assert (Hm : Ascii.eqb c "-" = false).
    { destruct (Ascii.eqb_spec c "-"); [subst c; discriminate|reflexivity]. }
    assert (Hp : Ascii.eqb c "+" = false).
    { destruct (Ascii.eqb_spec c "+"); [subst c; discriminate|reflexivity]. }
    rewrite Hm, Hp, (leading_digits_all _ Hd).
    destruct (NilZero.uint_of_string (String c s)); [|discriminate].
    simpl in Hu. congruence.
  - destruct (nilzero_digits d) as [Hd Hne].
    pose proof (uint_of_nilzero d) as Hu.
    unfold JS.parseInt. rewrite Ascii.eqb_refl, (leading_digits_all _ Hd).
    destruct (NilZero.uint_of_string (NilZero.string_of_uint d)); [|discriminate].
    simpl in Hu. injection Hu as ->. reflexivity.
Qed.

(** For tags whose names and colors are plain text the three aggregated
    lists are parallel: the i-th name, color and id are those of the i-th
    tag row joined to the video. *)
Lemma aggregated_lists_parallel db v ts :
  Video.joined db v = List.map Some ts ->
  Forall Spec.plain_tag ts ->
  exists colors,
    List.map t_color ts = List.map Some colors
    /\ Video.tags (Video.to_video (Video.aggregate db v)) = List.map t_name ts
    /\ Video.tag_colors (Video.to_video (Video.aggregate db v)) = colors
    /\ Video.tag_ids (Video.to_video (Video.aggregate db v))
       = List.map (fun t => Some (t_id t)) ts.
Proof.
  intros Hj Hall.
  assert (Hcolors : exists colors,
             List.map t_color ts = List.map Some colors
             /\ Forall (fun x => Spec.plain_text x = true) colors).
  { clear Hj. induction Hall as [|t ts [_ (c & Hc & Hp)] _ (colors & IH1 & IH2)].
    - exists []. split; constructor.
    - exists (c :: colors). simpl. rewrite Hc, IH1. split; [reflexivity|].
      now constructor. }
  destruct Hcolors as (colors & Hcol & Hplain).
  exists colors. split; [exact Hcol|].
  unfold Video.to_video, Video.aggregate. cbn [Video.tags Video.tag_colors
    Video.tag_ids Video.r_tags Video.r_tag_colors Video.r_tag_ids].
  rewrite Hj, !List.map_map. cbn [Video.col].
  split; [|split].
  - rewrite <- (List.map_map t_name Some). apply split_list_group_concat.
    apply List.Forall_forall. intros x Hx.
    apply in_map_iff in Hx as (t & <- & Ht).
    rewrite List.Forall_forall in Hall. now destruct (Hall t Ht).
  - change (fun x : tag_row => t_color x) with t_color.
    rewrite Hcol. now apply split_list_group_concat.
  - rewrite <- (List.map_map (fun t => JS.toString (t_id t)) Some).
    rewrite split_list_group_concat.
    + rewrite List.map_map. apply map_ext. intros t. apply parseInt_toString.
    + apply List.Forall_forall. intros x Hx.
      apply in_map_iff in Hx as (t & <- & _). apply toString_plain.
Qed.

(** C9, at a tag whose name holds a comma.  The video has one tag; the
    object [getVideoById] returns, and the element [getAllVideos] lists,
    carries two names for one color and one id: the three lists are not
    parallel. *)
Theorem getVideoById_comma_in_tag_name :
  option_map (fun o => (Video.tags o, Video.tag_colors o, Video.tag_ids o))
             (Video.getVideoById Sample.comma_db 1)
  = Some (["Live"; "Concert"], ["#28a745"], [Some 7])
  /\ List.map (fun o => (List.length (Video.tags o),
                         List.length (Video.tag_colors o),
                         List.length (Video.tag_ids o)))
              (Video.getAllVideos Sample.comma_db)
     = [(2%nat, 1%nat, 1%nat)].
Proof. split; reflexivity. Qed.

(** ** Committing a selected thumbnail *)

Lemma startsWith_app s t : JS.startsWith (s ++ t) s = true.
Proof.
  induction s as [|c s IH]; [now destruct t|].
  change (String c s ++ t) with (String c (s ++ t)).
  cbn [JS.startsWith]. now rewrite Ascii.eqb_refl.
Qed.

Lemma drop_app s t : JS.drop (String.length s) (s ++ t) = t.
Proof. induction s as [|c s IH]; [reflexivity|exact IH]. Qed.

Lemma app_assoc_string (s t u : string) : ((s ++ t) ++ u = s ++ (t ++ u))%string.
Proof.
  induction s as [|c s IH]; [reflexivity|].
  change (String c ((s ++ t) ++ u) = String c (s ++ (t ++ u))). now f_equal.
Qed.

Lemma length_app_string (s t : string) :
  String.length (s ++ t) = (String.length s + String.length t)%nat.
Proof.
  induction s as [|c s IH]; [reflexivity|].
  change (S (String.length (s ++ t)) = S (String.length s + String.length t)).
  now f_equal.
Qed.

(** A plain file name below [dir] is listed under that name. *)
Lemma child_of_join dir name :
  name <> "" -> JS.includes name "/" = false ->
  App.child_of dir (Path.join dir name) = Some name.
Proof.
  intros Hne Hslash. unfold App.child_of, Path.join.
  rewrite <- app_assoc_string, startsWith_app.
  replace (String.length dir + 1)%nat with (String.length (dir ++ "/"))
    by (rewrite length_app_string; reflexivity).
  rewrite drop_app, Hslash. simpl.
  destruct name; [congruence|reflexivity].
Qed.

Lemma readdir_In w dir name :
  In name (App.readdir w dir) <->
  exists p content, Thumb.files w !! p = Some content /\ App.child_of dir p = Some name.
Proof.
  unfold App.readdir. rewrite <- list_elem_of_In, list_elem_of_omap. split.
  - intros (p & Hp & Hc). apply list_elem_of_In, in_map_iff in Hp as ([p' c] & <- & Hin).
    apply list_elem_of_In, elem_of_map_to_list in Hin. eauto.
  - intros (p & c & Hl & Hc). exists p. split; [|exact Hc].
    apply list_elem_of_In, in_map_iff. exists (p, c). split; [reflexivity|].
    now apply list_elem_of_In, elem_of_map_to_list.
Qed.

Lemma remove_all_absent dir names w p :
  Thumb.files w !! p = None ->
  Thumb.files
    (List.fold_left (fun w t => Thumb.remove (Path.join dir t) w) names w) !! p = None.
Proof.
  revert w. induction names as [|t names IH]; intros w Hp; simpl; [exact Hp|].
  apply IH. unfold Thumb.remove. simpl.
  destruct (decide (Path.join dir t = p)) as [->|Hne].
  - apply lookup_delete_eq.
  - now rewrite lookup_delete_ne.
Qed.

Lemma remove_all_removed dir names w t :
  In t names ->
  Thumb.files
    (List.fold_left (fun w t => Thumb.remove (Path.join dir t) w) names w)
  !! Path.join dir t = None.
Proof.
  revert w. induction names as [|t' names IH]; intros w Hin; simpl; [destruct Hin|].
  destruct Hin as [->|Hin]; [|now apply IH].
  apply remove_all_absent. apply lookup_delete_eq.
Qed.

Lemma remove_all_cases dir names w p :
  Thumb.files
    (List.fold_left (fun w t => Thumb.remove (Path.join dir t) w) names w) !! p = None
  \/ Thumb.files
       (List.fold_left (fun w t => Thumb.remove (Path.join dir t) w) names w) !! p
     = Thumb.files w !! p.
Proof.
  revert w. induction names as [|t names IH]; intros w; simpl; [now right|].
  destruct (IH (Thumb.remove (Path.join dir t) w)) as [H|H]; [now left|].
  rewrite H. unfold Thumb.remove. simpl.
  destruct (decide (Path.join dir t = p)) as [->|Hne].
  - left. apply lookup_delete_eq.
  - right. now apply lookup_delete_ne.
Qed.

(** The cleanup half of the commit, on both routes: no selection file that
    matches the video's base name is left in the thumbnail directory. *)
Lemma cleanup_removes_matching thumbnailDir filename selectedThumbnail w name :
  name <> "" -> JS.includes name "/" = false ->
  App.is_selection_thumbnail name = true ->
  App.matches_video (Path.parse_name filename) name = true ->
  Thumb.files (App.cleanupUnusedThumbnails thumbnailDir filename selectedThumbnail w)
  !! Path.join thumbnailDir name = None.
Proof.
  intros Hne Hslash Hsel Hmatch. unfold App.cleanupUnusedThumbnails.
  destruct (Thumb.files w !! Path.join thumbnailDir name) as [content|] eqn:Hl.
  - apply remove_all_removed.
    apply filter_In. split; [|exact Hmatch].
    apply filter_In. split; [|exact Hsel].
    apply readdir_In. exists (Path.join thumbnailDir name), content.
    split; [exact Hl|]. now apply child_of_join.
  - now apply remove_all_absent.
Qed.

(** The set-thumbnail route writes no file: whatever it is asked, a path
    holds afterwards what it held before, or nothing. *)
Lemma set_thumbnail_writes_nothing thumbnailDir now id thumbnailFilename s p :
  Thumb.files (App.world (snd (App.set_thumbnail thumbnailDir now id
                                 thumbnailFilename s))) !! p = None
  \/ Thumb.files (App.world (snd (App.set_thumbnail thumbnailDir now id
                                    thumbnailFilename s))) !! p
     = Thumb.files (App.world s) !! p.
Proof.
  unfold App.set_thumbnail.
  destruct (JS.truthy thumbnailFilename); cbn [negb]; [|now right].
  destruct thumbnailFilename as [name|]; [|now right].
  destruct (Video.getVideoById (App.db s) id) as [videoData|]; [|now right].
  destruct (Thumb.pathExists (App.world s) (Path.join thumbnailDir name));
    cbn [negb]; [|now right].
  destruct (Video.updateVideo _ _ _ _) as [changed db']. cbn [snd App.world].
  apply remove_all_cases.
Qed.

(** C4, on the set-thumbnail route.  Whenever the handler answers with
    success, the thumbnail path it stores is the chosen selection file
    itself, and it has written no file: no path holds anything it did not
    hold before.  At the video "clip.mp4" with six candidates and candidate
    3 chosen: every selection file is gone, the chosen one included; no
    committed file [thumb_clip.jpg] exists; and the stored thumbnail path
    names the chosen selection file, which no longer exists. *)
Theorem set_thumbnail_stores_removed_file :
  (forall (thumbnailDir : string) (now id : Z) (name : string) (s : App.state),
      fst (App.set_thumbnail thumbnailDir now id (Some name) s) = App.Json name ->
      (forall v,
          In v (videos (App.db (snd (App.set_thumbnail thumbnailDir now id
                                       (Some name) s)))) ->
          v_id v = id ->
          v_thumbnail_path v = Some (Path.join thumbnailDir name))
      /\ (forall p,
             Thumb.files (App.world (snd (App.set_thumbnail thumbnailDir now id
                                            (Some name) s))) !! p = None
             \/ Thumb.files (App.world (snd (App.set_thumbnail thumbnailDir now id
                                               (Some name) s))) !! p
                = Thumb.files (App.world s) !! p))
  /\ (let out := App.set_thumbnail Sample.thumbnails 99 1
                   (Some "selection_3_thumb_clip.jpg") Sample.clip_state in
      fst out = App.Json "selection_3_thumb_clip.jpg"
      /\ App.readdir (App.world (snd out)) Sample.thumbnails = []
      /\ Thumb.files (App.world (snd out)) !! "/srv/thumbnails/thumb_clip.jpg" = None
      /\ List.map v_thumbnail_path (videos (App.db (snd out)))
         = [Some "/srv/thumbnails/selection_3_thumb_clip.jpg"]
      /\ Thumb.files (App.world (snd out))
         !! "/srv/thumbnails/selection_3_thumb_clip.jpg" = None).
Proof.
  split; [|vm_compute; repeat split].
  intros thumbnailDir now id name s Hok.
  split; [|intros p; apply set_thumbnail_writes_nothing].
  revert Hok. unfold App.set_thumbnail.
  destruct (JS.truthy (Some name)); cbn [negb]; [|discriminate].
  destruct (Video.getVideoById (App.db s) id) as [videoData|]; [|discriminate].
  destruct (Thumb.pathExists (App.world s) (Path.join thumbnailDir name));
    cbn [negb]; [|discriminate].
  unfold Video.updateVideo. cbn [fst snd App.db Video.d_thumbnail_path
    Video.d_preview_path Video.d_updated_at videos].
  intros _ v Hv Hid.
  apply in_map_iff in Hv as (v0 & <- & _).
  destruct (Z.eqb_spec (v_id v0) id) as [_|Hne]; [reflexivity|].
  contradiction.
Qed.

Lemma set_thumbnail_stores_removed_file_witness :
  Thumb.files (App.world (snd (App.set_thumbnail Sample.thumbnails 99 1
                                 (Some "selection_3_thumb_clip.jpg")
                                 Sample.clip_state)))
  !! "/srv/thumbnails/thumb_clip.jpg" = None
  \/ Thumb.files (App.world (snd (App.set_thumbnail Sample.thumbnails 99 1
                                    (Some "selection_3_thumb_clip.jpg")
                                    Sample.clip_state)))
     !! "/srv/thumbnails/thumb_clip.jpg"
     = Thumb.files (App.world Sample.clip_state) !! "/srv/thumbnails/thumb_clip.jpg".
Proof.
  apply (proj1 set_thumbnail_stores_removed_file Sample.thumbnails 99 1
           "selection_3_thumb_clip.jpg" Sample.clip_state).
  vm_compute. reflexivity.
Defined.

(** The upload route, on the same directory: the chosen candidate is
    copied to the committed name before the candidates are removed. *)
Lemma upload_thumbnail_commits_copy :
  let out := App.upload_thumbnail Sample.tiny_env Sample.thumbnails
               Sample.clip_path "clip.mp4" "selection_3_thumb_clip.jpg"
               Sample.selection_world in
  fst out = "/srv/thumbnails/thumb_clip.jpg"
  /\ Thumb.files (snd out) !! "/srv/thumbnails/thumb_clip.jpg" = Some "frame 3"
  /\ App.readdir (snd out) Sample.thumbnails = ["thumb_clip.jpg"].
Proof. vm_compute. repeat split. Qed.

(** ** The composite filter *)

(** C2.  [GET /api/videos/filter] fails on every request.  The handler
    reads the request as the claim describes (tag and resolution sets,
    duration bounds, date parameters, sort field and direction defaulting
    to creation time descending, page 1 and limit 100) and hands the
    options to [video.getFilteredVideos]; class [Video] defines no such
    method, the call throws, and the [catch] answers with status 500,
    whatever the request and whatever the database holds.  So it is for
    the request without parameters on the three Matrix videos, where the
    claim expects the three videos, newest first. *)
Theorem filter_videos_always_fails :
  (forall (JSON_parse : string -> option (list string)) (database : Db.t)
          (q : App.filter_query),
      App.filter_videos JSON_parse database q
      = App.Fail 500 "Failed to filter videos")
  /\ ~ In "getFilteredVideos" Video.methods
  /\ App.filter_options_of Sample.no_filter [] []
     = {| Video.f_tags := []; Video.f_resolution := [];
          Video.f_durationMin := None; Video.f_durationMax := None;
          Video.f_dateFilter := None; Video.f_dateFrom := None;
          Video.f_dateTo := None;
          Video.f_sortBy := "created_at"; Video.f_order := "desc";
          Video.f_page := Some 1; Video.f_limit := Some 100 |}
  /\ Sample.titles (Video.getAllVideos (Sample.matrix_db 10 20 30))
     = ["xMatrixx"; "The Matrix Reloaded"; "Matrix"]
  /\ App.filter_videos (fun _ => None) (Sample.matrix_db 10 20 30) Sample.no_filter
     = App.Fail 500 "Failed to filter videos".
Proof.
  split; [|split; [|split; [|split]]]; try reflexivity.
  - intros JSON_parse database q. unfold App.filter_videos.
    destruct (App.parse_list JSON_parse (App.q_tags q)) as [tags|]; [|reflexivity].
    destruct (App.parse_list JSON_parse (App.q_resolution q)); reflexivity.
  - intros H. repeat (destruct H as [H|H]; [discriminate|]). exact H.
Qed.

(** ** Time marks *)

Lemma digit_not_colon c : JS.is_digit c = true -> Ascii.eqb c ":" = false.
Proof.
  destruct c as [[] [] [] [] [] [] [] []]; try discriminate; reflexivity.
Qed.

Lemma split_colon_digits x :
  JS.all_digits x = true -> JS.split ":" x = [x].
Proof.
  induction x as [|c x IH]; [reflexivity|]. simpl.
  intros H. apply andb_true_iff in H as [Hc Hx].
  rewrite (digit_not_colon _ Hc), (IH Hx). reflexivity.
Qed.

Lemma split_colon_app x rest :
  JS.all_digits x = true ->
  JS.split ":" (x ++ ":" ++ rest) = x :: JS.split ":" rest.
Proof.
  induction x as [|c x IH]; intros H.
  - reflexivity.
  - simpl in H. apply andb_true_iff in H as [Hc Hx].
    change (String c x ++ ":" ++ rest) with (String c (x ++ ":" ++ rest)).
    cbn [JS.split]. rewrite (digit_not_colon _ Hc), (IH Hx). reflexivity.
Qed.

Lemma toString_nonneg_digits z :
  0 <= z -> JS.all_digits (JS.toString z) = true /\ JS.toString z <> "".
Proof.
  intros Hz. unfold JS.toString.
  destruct z as [|p|p]; [split; [reflexivity|discriminate]| |lia].
  cbn [Z.to_int NilZero.string_of_int]. apply nilzero_digits.
Qed.

Lemma parseInt_leading_zero c :
  JS.is_digit c = true ->
  JS.parseInt (String "0" (String c "")) = JS.parseInt (String c "").
Proof.
  destruct c as [[] [] [] [] [] [] [] []]; try discriminate; reflexivity.
Qed.

Lemma pad2_decodes n :
  0 <= n ->
  JS.all_digits (Thumb.pad2 n) = true /\ JS.parseInt (Thumb.pad2 n) = Some n.
Proof.
  intros Hn. destruct (toString_nonneg_digits n Hn) as [Hd Hne].
  pose proof (parseInt_toString n) as Hp. unfold Thumb.pad2.
  destruct (JS.toString n) as [|c [|c' s]] eqn:Hs; [congruence| |].
  - cbn [String.length]. change ("0" ++ String c "") with (String "0" (String c "")).
    simpl in Hd. rewrite andb_true_r in Hd. split.
    + simpl. now rewrite Hd.
    + now rewrite parseInt_leading_zero.
  - cbn [String.length]. now split.
Qed.

Lemma formatTime_fields seconds :
  0 <= seconds ->
  List.map JS.parseInt (JS.split ":" (Thumb.formatTime seconds))
  = [Some (seconds / 3600); Some (Z.rem seconds 3600 / 60); Some (Z.rem seconds 60)].
Proof.
  intros Hs. unfold Thumb.formatTime.
  assert (Hh : 0 <= seconds / 3600) by (apply Z.div_pos; lia).
  assert (Hm : 0 <= Z.rem seconds 3600 / 60).
  { rewrite Z.rem_mod_nonneg by lia. apply Z.div_pos; [|lia].
    apply Z.mod_pos_bound. lia. }
  assert (Hc : 0 <= Z.rem seconds 60).
  { rewrite Z.rem_mod_nonneg by lia. apply Z.mod_pos_bound. lia. }
  destruct (pad2_decodes _ Hh) as [Dh Ph].
  destruct (pad2_decodes _ Hm) as [Dm Pm].
  destruct (pad2_decodes _ Hc) as [Dc Pc].
  rewrite (split_colon_app _ _ Dh), (split_colon_app _ _ Dm),
    (split_colon_digits _ Dc).
  cbn [List.map]. now rewrite Ph, Pm, Pc.
Qed.

(** X1.  [formatTime] can be read back: for a non-negative whole number of
    seconds the three colon-separated fields of the time mark parse, with
    [parseInt], to hours, minutes below 60 and seconds below 60 that add up
    to the input; so two different instants never get the same time mark. *)
Theorem formatTime_reads_back :
  forall a b : Z,
    0 <= a -> 0 <= b ->
    (exists h m s,
        List.map JS.parseInt (JS.split ":" (Thumb.formatTime a))
        = [Some h; Some m; Some s]
        /\ 0 <= h /\ 0 <= m < 60 /\ 0 <= s < 60
        /\ a = 3600 * h + 60 * m + s)
    /\ (Thumb.formatTime a = Thumb.formatTime b -> a = b).
Proof.
  intros a b Ha Hb. split.
  - exists (a / 3600), (Z.rem a 3600 / 60), (Z.rem a 60).
    split; [now apply formatTime_fields|].
    rewrite !Z.rem_mod_nonneg by lia.
    Z.to_euclidean_division_equations; lia.
  - intros Heq.
    pose proof (formatTime_fields a Ha) as Fa.
    pose proof (formatTime_fields b Hb) as Fb.
    rewrite Heq, Fb in Fa. injection Fa as E1 E2 E3.
    rewrite !Z.rem_mod_nonneg in * by lia.
    Z.to_euclidean_division_equations; lia.
Qed.

Lemma formatTime_reads_back_witness :
  (exists h m s,
      List.map JS.parseInt (JS.split ":" (Thumb.formatTime 3725))
      = [Some h; Some m; Some s]
      /\ 0 <= h /\ 0 <= m < 60 /\ 0 <= s < 60
      /\ 3725 = 3600 * h + 60 * m + s)
  /\ (Thumb.formatTime 3725 = Thumb.formatTime 59 -> 3725 = 59).
Proof. apply (formatTime_reads_back 3725 59); lia. Defined.

(** ** Titles from file names *)

Lemma all_chars_excludes P d s :
  P d = false -> Spec.all_chars P s = true ->
  JS.includes s (String d "") = false.
Proof.
  intros Hd. induction s as [|c s IH]; intros H.
  - reflexivity.
  - simpl in H. apply andb_true_iff in H as [Hc Hs].
    cbn [JS.includes JS.startsWith]. rewrite (IH Hs), orb_false_r.
    destruct (Ascii.eqb_spec d c); [subst; congruence|reflexivity].
Qed.

Lemma all_chars_impl (P Q : ascii -> bool) s :
  (forall c, P c = true -> Q c = true) ->
  Spec.all_chars P s = true -> Spec.all_chars Q s = true.
Proof.
  intros HPQ. induction s as [|c s IH]; [reflexivity|]. simpl.
  intros H. apply andb_true_iff in H as [Hc Hs].
  now rewrite (HPQ _ Hc), (IH Hs).
Qed.

Lemma all_chars_trimStart P s :
  Spec.all_chars P s = true -> Spec.all_chars P (JS.trimStart s) = true.
Proof.
  induction s as [|c s IH]; [reflexivity|]. intros H. simpl.
  destruct (JS.is_space c); [|exact H].
  simpl in H. apply andb_true_iff in H as [_ Hs]. auto.
Qed.

Lemma all_chars_trimEnd P s :
  Spec.all_chars P s = true -> Spec.all_chars P (JS.trimEnd s) = true.
Proof.
  induction s as [|c s IH]; [reflexivity|]. intros H. simpl.
  simpl in H. apply andb_true_iff in H as [Hc Hs]. specialize (IH Hs).
  destruct (JS.trimEnd s) as [|d t].
  - destruct (JS.is_space c); [reflexivity|]. simpl. now rewrite Hc.
  - cbn [Spec.all_chars] in *. now rewrite Hc.
Qed.

Lemma replace_separators_clean s :
  Spec.all_chars Spec.not_separator (FileScanner.replace_separators s) = true.
Proof.
  induction s as [|c s IH]; [reflexivity|]. simpl. rewrite IH, andb_true_r.
  unfold Spec.not_separator. destruct (FileScanner.is_separator c) eqn:E; [reflexivity|].
  now rewrite E.
Qed.

Lemma collapse_spaces_clean b s :
  Spec.all_chars Spec.not_separator s = true ->
  Spec.all_chars Spec.not_separator (JS.collapse_spaces b s) = true.
Proof.
  revert b. induction s as [|c s IH]; intros b H; [reflexivity|].
  simpl in H. apply andb_true_iff in H as [Hc Hs]. simpl.
  destruct (JS.is_space c).
  - destruct b; [now apply IH|]. simpl. now apply IH.
  - simpl. rewrite Hc. now apply IH.
Qed.

Lemma collapse_spaces_single b s :
  Spec.single_spaced b (JS.collapse_spaces b s) = true.
Proof.
  revert b. induction s as [|c s IH]; intros b; [reflexivity|]. simpl.
  destruct (JS.is_space c) eqn:E.
  - destruct b; [apply IH|]. simpl. apply IH.
  - simpl. rewrite E. apply IH.
Qed.

Lemma single_spaced_weaken s :
  Spec.single_spaced true s = true -> Spec.single_spaced false s = true.
Proof.
  destruct s as [|c s]; [reflexivity|]. simpl.
  destruct (JS.is_space c); [|auto]. rewrite andb_false_r. discriminate.
Qed.

Lemma single_spaced_trimStart b s :
  Spec.single_spaced b s = true ->
  Spec.single_spaced false (JS.trimStart s) = true.
Proof.
  revert b. induction s as [|c s IH]; intros b H; [reflexivity|]. simpl.
  destruct (JS.is_space c) eqn:E.
  - simpl in H. rewrite E in H.
    apply andb_true_iff in H as [_ H]. eauto.
  - simpl in *. now rewrite E in *.
Qed.

Lemma trimEnd_empty_spaces s :
  JS.trimEnd s = "" -> Spec.all_chars JS.is_space s = true.
Proof.
  induction s as [|c s IH]; [reflexivity|]. simpl.
  destruct (JS.trimEnd s) as [|d t]; [|discriminate].
  destruct (JS.is_space c); [|discriminate]. intros _. now apply IH.
Qed.

Lemma single_spaced_trimEnd b s :
  Spec.single_spaced b s = true ->
  Spec.single_spaced b (JS.trimEnd s) = true.
Proof.
  revert b. induction s as [|c s IH]; intros b H; [reflexivity|].
  simpl in H. simpl. destruct (JS.is_space c) eqn:E.
  - apply andb_true_iff in H as [H1 H2]. specialize (IH _ H2).
    destruct (JS.trimEnd s) as [|d t]; [reflexivity|].
    cbn [Spec.single_spaced] in *. now rewrite E, H1.
  - specialize (IH _ H).
    destruct (JS.trimEnd s) as [|d t].
    + simpl. now rewrite E.
    + cbn [Spec.single_spaced] in *. now rewrite E.
Qed.

Lemma single_spaced_no_double b s :
  Spec.single_spaced b s = true -> JS.includes s "  " = false.
Proof.
  revert b. induction s as [|c s IH]; intros b H; [reflexivity|].
  cbn [JS.includes]. simpl in H.
  destruct (JS.is_space c) eqn:E.
  - apply andb_true_iff in H as [H1 H2]. rewrite (IH _ H2), orb_false_r.
    destruct s as [|d s]; cbn [JS.startsWith]; [apply andb_false_r|].
    destruct (Ascii.eqb_spec " " d) as [<-|].
    + simpl in H2. discriminate.
    + cbn [andb]. apply andb_false_r.
  - rewrite (IH _ H), orb_false_r. cbn [JS.startsWith].
    destruct (Ascii.eqb_spec " " c) as [<-|]; [discriminate|reflexivity].
Qed.

Lemma single_spaced_spaces b s :
  Spec.single_spaced b s = true ->
  Spec.all_chars (fun c => negb (JS.is_space c) || Ascii.eqb c " ") s = true.
Proof.
  revert b. induction s as [|c s IH]; intros b H; [reflexivity|].
  simpl in *. destruct (JS.is_space c).
  - apply andb_true_iff in H as [H1 H2]. apply andb_true_iff in H1 as [H1 _].
    rewrite H1. simpl. eauto.
  - simpl. eauto.
Qed.

Lemma startsWith_space c s :
  JS.startsWith (String c s) " " = Ascii.eqb " " c.
Proof. cbn [JS.startsWith]. destruct s; apply andb_true_r. Qed.

Lemma not_space_not_blank c : JS.is_space c = false -> Ascii.eqb " " c = false.
Proof.
  intros E. destruct (Ascii.eqb_spec " " c) as [<-|]; [discriminate|reflexivity].
Qed.

Lemma trimStart_head s : JS.startsWith (JS.trimStart s) " " = false.
Proof.
  induction s as [|c s IH]; [reflexivity|]. cbn [JS.trimStart].
  destruct (JS.is_space c) eqn:E; [exact IH|].
  rewrite startsWith_space. now apply not_space_not_blank.
Qed.

Lemma trimEnd_head s :
  JS.startsWith s " " = false -> JS.startsWith (JS.trimEnd s) " " = false.
Proof.
  destruct s as [|c s]; [reflexivity|]. rewrite startsWith_space.
  intros Hc. cbn [JS.trimEnd].
  destruct (JS.trimEnd s); [destruct (JS.is_space c)|];
    try reflexivity; now rewrite startsWith_space.
Qed.

Lemma rev_string_snoc s c :
  JS.rev_string (s ++ String c "") = String c (JS.rev_string s).
Proof.
  induction s as [|d s IH]; [reflexivity|].
  change (String d s ++ String c "") with (String d (s ++ String c "")).
  cbn [JS.rev_string]. now rewrite IH.
Qed.

Lemma trimEnd_last s :
  JS.trimEnd s = ""
  \/ exists u c, JS.trimEnd s = u ++ String c "" /\ JS.is_space c = false.
Proof.
  induction s as [|c s IH]; [now left|]. simpl.
  destruct IH as [->|(u & d & -> & Hd)].
  - destruct (JS.is_space c) eqn:E; [now left|]. right. now exists "", c.
  - right. exists (String c u), d. split; [|exact Hd].
    destruct u; reflexivity.
Qed.

Lemma trimEnd_tail s : JS.endsWith (JS.trimEnd s) " " = false.
Proof.
  unfold JS.endsWith. destruct (trimEnd_last s) as [->|(u & c & -> & Hc)].
  - reflexivity.
  - rewrite rev_string_snoc. change (JS.rev_string " ") with " ".
    rewrite startsWith_space. now apply not_space_not_blank.
Qed.

(** X2.  A title that [extractTitle] derives from a file name is in normal
    form: it holds no dot, underscore or hyphen, its only white space is
    the single space, never two in a row, and it neither starts nor ends
    with a space. *)
Theorem extractTitle_normal_form :
  forall filename : string,
    let title := FileScanner.extractTitle filename in
    JS.includes title "." = false
    /\ JS.includes title "_" = false
    /\ JS.includes title "-" = false
    /\ JS.includes title "  " = false
    /\ JS.startsWith title " " = false
    /\ JS.endsWith title " " = false
    /\ Spec.all_chars (fun c => negb (JS.is_space c) || Ascii.eqb c " ") title
       = true.
Proof.
  intros filename title. unfold title, FileScanner.extractTitle, JS.trim.
  set (s := FileScanner.replace_separators (Path.parse_name filename)).
  assert (Hclean : Spec.all_chars Spec.not_separator
                     (JS.trimEnd (JS.trimStart (JS.collapse_spaces false s))) = true).
  { apply all_chars_trimEnd, all_chars_trimStart, collapse_spaces_clean,
      replace_separators_clean. }
  assert (Hsingle : Spec.single_spaced false
                      (JS.trimEnd (JS.trimStart (JS.collapse_spaces false s))) = true).
  { apply single_spaced_trimEnd, (single_spaced_trimStart false),
      collapse_spaces_single. }
  repeat split.
  - now apply (all_chars_excludes Spec.not_separator).
  - now apply (all_chars_excludes Spec.not_separator).
  - now apply (all_chars_excludes Spec.not_separator).
  - now apply (single_spaced_no_double false).
  - apply trimEnd_head, trimStart_head.
  - apply trimEnd_tail.
  - now apply (single_spaced_spaces false).
Qed.

(** ** Thumbnail names, server and browser *)

Lemma basename_no_slash p : JS.includes p "/" = false -> Path.basename p = p.
Proof.
  destruct p as [|c p]; [reflexivity|]. cbn [JS.includes Path.basename].
  intros H. apply orb_false_iff in H as [H1 H2]. rewrite H2.
  cbn [JS.startsWith] in H1.
  destruct (Ascii.eqb_spec c "/") as [->|]; [|reflexivity].
  rewrite Ascii.eqb_refl in H1. destruct p; discriminate.
Qed.

Lemma join_cons c w rest :
  JS.join "." (String c w :: rest) = String c (JS.join "." (w :: rest)).
Proof. destruct rest; reflexivity. Qed.

Lemma split_nonempty sep s : JS.split sep s <> [].
Proof.
  destruct s as [|c s]; [discriminate|]. simpl.
  destruct (Ascii.eqb c sep); [discriminate|].
  destruct (JS.split sep s); discriminate.
Qed.

Lemma split_no_dot b :
  Path.split_ext b = None -> JS.split "." b = [b].
Proof.
  induction b as [|c b IH]; [reflexivity|]. simpl.
  destruct (Path.split_ext b) as [[n e]|]; [discriminate|].
  destruct (Ascii.eqb c "."); [discriminate|]. intros _. now rewrite IH.
Qed.

Lemma split_stem b n e :
  Path.split_ext b = Some (n, e) ->
  exists w ws, JS.slice_but_last (JS.split "." b) = w :: ws
               /\ JS.join "." (w :: ws) = n.
Proof.
  unfold JS.slice_but_last. revert n e.
  induction b as [|c b IH]; intros n e H; [discriminate|].
  simpl in H. destruct (Path.split_ext b) as [[n' e']|] eqn:Hb.
  - injection H as <- <-. destruct (IH _ _ eq_refl) as (w & ws & Hl & Hj).
    cbn [JS.split]. destruct (JS.split "." b) as [|x xs] eqn:Hs;
      [discriminate|].
    destruct xs as [|y ys]; [discriminate|].
    destruct (Ascii.eqb_spec c ".") as [->|Hc].
    + exists "", (w :: ws). split.
      * change (removelast ("" :: x :: y :: ys))
          with ("" :: removelast (x :: y :: ys)). now rewrite Hl.
      * change (JS.join "." ("" :: w :: ws))
          with ("" ++ "." ++ JS.join "." (w :: ws)). now rewrite Hj.
    + assert (Hl' : x :: removelast (y :: ys) = w :: ws) by exact Hl.
      injection Hl' as -> Hws.
      exists (String c w), ws. split.
      * change (removelast (String c w :: y :: ys))
          with (String c w :: removelast (y :: ys)). f_equal. exact Hws.
      * rewrite join_cons. now rewrite Hj.
  - destruct (Ascii.eqb_spec c ".") as [->|]; [|discriminate].
    injection H as <- <-. exists "", []. split; [|reflexivity].
    cbn [JS.split]. rewrite Ascii.eqb_refl, (split_no_dot _ Hb). reflexivity.
Qed.

Lemma isVideoFile_has_stem f :
  FileScanner.isVideoFile f = true ->
  exists n e, Path.split_ext (Path.basename f) = Some (n, e)
              /\ n <> "" /\ Path.parse_name f = n.
Proof.
  unfold FileScanner.isVideoFile, Path.extname, Path.parse_name.
  destruct (String.eqb (Path.basename f) ".."); [discriminate|].
  destruct (Path.split_ext (Path.basename f)) as [[n e]|]; [|discriminate].
  destruct n as [|c n]; [discriminate|].
  intros _. exists (String c n), e. repeat split. discriminate.
Qed.

(** X3.  The browser and the server name the committed thumbnail of a
    video alike whenever the file name, free of ['/'], has one of the
    supported video extensions; for a name without any dot they differ: the
    browser asks for [thumb_.jpg], the server writes [thumb_<name>.jpg]. *)
Theorem thumbnail_names_agree :
  forall filename : string,
    JS.includes filename "/" = false ->
    (FileScanner.isVideoFile filename = true ->
     Client.getThumbnailFilename filename = Thumb.getThumbnailFilename filename)
    /\ (JS.includes filename "." = false ->
        Client.getThumbnailFilename filename = "thumb_.jpg"
        /\ Thumb.getThumbnailFilename filename = "thumb_" ++ filename ++ ".jpg").
Proof.
  intros filename Hslash. pose proof (basename_no_slash _ Hslash) as Hb. split.
  - intros Hv. destruct (isVideoFile_has_stem _ Hv) as (n & e & Hs & Hn & Hp).
    rewrite Hb in Hs. destruct (split_stem _ _ _ Hs) as (w & ws & Hl & Hj).
    unfold Client.getThumbnailFilename, Thumb.getThumbnailFilename.
    now rewrite Hl, Hj, Hp.
  - intros Hdot.
    assert (Hno : Path.split_ext filename = None).
    { clear Hb Hslash. induction filename as [|c s IH]; [reflexivity|].
      cbn [JS.includes JS.startsWith] in Hdot.
      apply orb_false_iff in Hdot as [H1 H2]. simpl. rewrite (IH H2).
      destruct (Ascii.eqb_spec c ".") as [->|]; [|reflexivity].
      rewrite Ascii.eqb_refl in H1. destruct s; discriminate. }
    unfold Client.getThumbnailFilename, Thumb.getThumbnailFilename,
      Path.parse_name.
    rewrite Hb, Hno, (split_no_dot _ Hno). split; [reflexivity|].
    destruct (String.eqb_spec filename "..") as [->|]; [discriminate|reflexivity].
Qed.

Lemma thumbnail_names_agree_witness :
  Client.getThumbnailFilename "My.Clip.MP4"
  = Thumb.getThumbnailFilename "My.Clip.MP4"
  /\ (Client.getThumbnailFilename "README" = "thumb_.jpg"
      /\ Thumb.getThumbnailFilename "README" = "thumb_" ++ "README" ++ ".jpg").
Proof.
  split.
  - apply (proj1 (thumbnail_names_agree "My.Clip.MP4" eq_refl)). reflexivity.
  - apply (proj2 (thumbnail_names_agree "README" eq_refl)). reflexivity.
Defined.

(** ** Storing an upload under a free name *)

Lemma append_cancel_l (p s t : string) : p ++ s = p ++ t -> s = t.
Proof.
  induction p as [|c p IH]; [auto|].
  change (String c p ++ s) with (String c (p ++ s)).
  change (String c p ++ t) with (String c (p ++ t)).
  intros H. injection H as H. auto.
Qed.

Lemma append_cancel_r (s t e : string) : s ++ e = t ++ e -> s = t.
Proof.
  revert t. induction s as [|c s IH]; intros [|d t] H.
  - reflexivity.
  - apply (f_equal String.length) in H.
    rewrite !length_app_string in H. simpl in H. lia.
  - apply (f_equal String.length) in H.
    rewrite !length_app_string in H. simpl in H. lia.
  - change (String c s ++ e) with (String c (s ++ e)) in H.
    change (String d t ++ e) with (String d (t ++ e)) in H.
    injection H as -> H. f_equal. auto.
Qed.

Lemma toString_inj a b : JS.toString a = JS.toString b -> a = b.
Proof.
  intros H. pose proof (parseInt_toString a) as Ha.
  rewrite H, parseInt_toString in Ha. congruence.
Qed.

Lemma numbered_name_inj originalName j k :
  App.numbered_name originalName j = App.numbered_name originalName k -> j = k.
Proof.
  unfold App.numbered_name. intros H.
  apply append_cancel_l, append_cancel_l, append_cancel_r in H.
  now apply toString_inj.
Qed.

Lemma numbered_name_not_original originalName k :
  JS.includes originalName "/" = false ->
  App.numbered_name originalName k <> originalName.
Proof.
  intros Hs H. apply (f_equal String.length) in H.
  unfold App.numbered_name in H. rewrite !length_app_string in H.
  assert (Hlen : (String.length (Path.parse_name originalName)
                  + String.length (Path.extname originalName)
                  = String.length originalName)%nat).
  { unfold Path.parse_name, Path.extname.
    rewrite (basename_no_slash _ Hs).
    destruct (String.eqb_spec originalName "..") as [->|_]; [reflexivity|].
    destruct (Path.split_ext originalName) as [[n e]|] eqn:E; [|simpl; lia].
    assert (Hne : originalName = n ++ e).
    { clear Hs H. revert n e E.
      induction originalName as [|c s IH]; intros n e E; [discriminate|].
      simpl in E. destruct (Path.split_ext s) as [[n' e']|].
      - injection E as <- <-. now rewrite (IH _ _ eq_refl) at 1.
      - destruct (Ascii.eqb c "."); [|discriminate]. now injection E as <- <-. }
    destruct n as [|c n]; [simpl; lia|].
    rewrite Hne, length_app_string. cbn [fst snd]. reflexivity. }
  simpl in H. lia.
Qed.

Lemma name_taken_In entries x :
  App.name_taken entries x = true <-> In x entries.
Proof.
  unfold App.name_taken. rewrite existsb_exists. split.
  - intros (y & Hy & E). apply String.eqb_eq in E. now subst.
  - intros H. exists x. split; [exact H|apply String.eqb_refl].
Qed.

Lemma pick_name_spec entries originalName :
  forall fuel finalName k tried,
    List.NoDup tried ->
    (forall x, In x tried -> In x entries) ->
    ~ In finalName tried ->
    (forall j, k <= j -> ~ In (App.numbered_name originalName j) tried) ->
    (forall j, k <= j -> finalName <> App.numbered_name originalName j) ->
    (List.length entries <= List.length tried + fuel)%nat ->
    exists name,
      App.pick_name fuel entries originalName finalName k = Some name
      /\ App.name_taken entries name = false
      /\ (App.name_taken entries finalName = false -> name = finalName)
      /\ (App.name_taken entries finalName = true ->
          exists j, k <= j /\ name = App.numbered_name originalName j
                    /\ forall i, k <= i < j ->
                                 App.name_taken entries
                                   (App.numbered_name originalName i) = true).
Proof.
  induction fuel as [|fuel IH]; intros finalName k tried Hnd Hin Hfin Hnum Hne Hlen;
    cbn [App.pick_name]; destruct (App.name_taken entries finalName) eqn:Ht.
  - exfalso. apply name_taken_In in Ht.
    assert (Hle : (List.length (finalName :: tried) <= List.length entries)%nat).
    { apply List.NoDup_incl_length; [now constructor|].
      intros x [<-|Hx]; auto. }
    simpl in Hle. lia.
  - exists finalName. repeat split; auto. discriminate.
  - apply name_taken_In in Ht.
    destruct (IH (App.numbered_name originalName k) (k + 1) (finalName :: tried))
      as (name & Hp & Hfree & Hkeep & Hnext).
    + now constructor.
    + intros x [<-|Hx]; auto.
    + intros [E|Hx]; [apply (Hne k); [lia|exact E]|apply (Hnum k); [lia|exact Hx]].
    + intros j Hj [E|Hx]; [apply (Hne j); [lia|exact E]|apply (Hnum j); [lia|exact Hx]].
    + intros j Hj E. apply numbered_name_inj in E. lia.
    + simpl. lia.
    + exists name. repeat split; auto; [discriminate|]. intros _.
      destruct (App.name_taken entries (App.numbered_name originalName k)) eqn:Hk.
      * destruct (Hnext eq_refl) as (j & Hj & -> & Hall).
        exists j. split; [lia|]. split; [reflexivity|].
        intros i Hi. destruct (Z.eq_dec i k) as [->|]; [exact Hk|].
        apply Hall. lia.
      * exists k. split; [lia|]. split; [now apply Hkeep|]. intros i Hi. lia.
  - exists finalName. repeat split; auto. discriminate.
Qed.

(** X5.  The storage callback of an upload always settles on a name, and
    that name is not in the upload directory, so an upload never overwrites
    a stored file: the original name when it is free, otherwise the
    numbered variant [<name>_<k><ext>] with the least counter [k >= 1] that
    is free. *)
Theorem storage_filename_fresh :
  forall (entries : list string) (originalName : string),
    JS.includes originalName "/" = false ->
    exists name,
      App.storage_filename entries originalName = Some name
      /\ App.name_taken entries name = false
      /\ (App.name_taken entries originalName = false -> name = originalName)
      /\ (App.name_taken entries originalName = true ->
          exists k, 1 <= k
                    /\ name = App.numbered_name originalName k
                    /\ forall i, 1 <= i < k ->
                                 App.name_taken entries
                                   (App.numbered_name originalName i) = true).
Proof.
  intros entries originalName Hs. unfold App.storage_filename.
  apply (pick_name_spec entries originalName _ originalName 1 []).
  - constructor.
  - intros x [].
  - intros [].
  - intros j _ [].
  - intros j _ E. symmetry in E. now apply numbered_name_not_original in E.
  - simpl. lia.
Qed.

Lemma storage_filename_fresh_witness :
  exists name,
    App.storage_filename ["clip.mp4"; "clip_1.mp4"; "other.mkv"] "clip.mp4" = Some name
    /\ App.name_taken ["clip.mp4"; "clip_1.mp4"; "other.mkv"] name = false
    /\ (App.name_taken ["clip.mp4"; "clip_1.mp4"; "other.mkv"] "clip.mp4" = false ->
        name = "clip.mp4")
    /\ (App.name_taken ["clip.mp4"; "clip_1.mp4"; "other.mkv"] "clip.mp4" = true ->
        exists k, 1 <= k
                  /\ name = App.numbered_name "clip.mp4" k
                  /\ forall i, 1 <= i < k ->
                               App.name_taken ["clip.mp4"; "clip_1.mp4"; "other.mkv"]
                                 (App.numbered_name "clip.mp4" i) = true).
Proof.
  apply (storage_filename_fresh ["clip.mp4"; "clip_1.mp4"; "other.mkv"] "clip.mp4").
  reflexivity.
Defined.

(** ** The preview window is always a proper interval *)

Local Open Scope Q_scope.

(** X6.  Whatever the probed duration, the window that [generatePreview]
    hands to the transcoder starts at a non-negative offset and has a
    positive length: the final validation repairs every start below zero
    and every length that is not positive. *)
Theorem preview_window_proper :
  forall d : Z,
    0 <= fst (Thumb.preview_window d) /\ 0 < snd (Thumb.preview_window d).
Proof.
  intros d. unfold Thumb.preview_window, Thumb.Qltb.
  set (q := inject_Z d) in *.
  destruct (Z.leb_spec d 30) as [H30|H30]; [|destruct (Z.leb_spec d 60) as [H60|H60]].
  - window_cases; cbn [negb orb fst snd] in *; window_cases;
      cbn [negb orb fst snd] in *; split; lra.
  - assert (H : (31 <= d)%Z) by lia.
    rewrite Zle_Qle in H. change (inject_Z 31) with 31 in H. fold q in H.
    window_cases; cbn [negb orb fst snd] in *; window_cases;
      cbn [negb orb fst snd] in *; split; lra.
  - assert (H : (61 <= d)%Z) by lia.
    rewrite Zle_Qle in H. change (inject_Z 61) with 61 in H. fold q in H.
    window_cases; cbn [negb orb fst snd] in *; window_cases;
      cbn [negb orb fst snd] in *; split; lra.
Qed.

Local Close Scope Q_scope.

(** ** Selection thumbnails: what comes back is on disk *)

Lemma pathExists_true w p :
  Thumb.pathExists w p = true <-> is_Some (Thumb.files w !! p).
Proof. unfold Thumb.pathExists. apply bool_decide_eq_true. Qed.

Lemma pathExists_false w p :
  Thumb.pathExists w p = false <-> Thumb.files w !! p = None.
Proof.
  unfold Thumb.pathExists. rewrite bool_decide_eq_false.
  symmetry. apply eq_None_not_Some.
Qed.

Lemma spawn_files E j w :
  (forall p, p <> Thumb.output_of j ->
             Thumb.files (snd (Thumb.spawn E j w)) !! p = Thumb.files w !! p)
  /\ Thumb.jobs (snd (Thumb.spawn E j w)) = (Thumb.jobs w ++ [j])%list.
Proof.
  unfold Thumb.spawn.
  destruct (Thumb.run E j) as [[c|]|[c|]|]; cbn [snd Thumb.leave Thumb.writeFile
    Thumb.files Thumb.jobs]; split; try reflexivity; intros p Hp;
    now rewrite lookup_insert_ne.
Qed.

Lemma attempt_files E videoPath thumbnailPath timemark w :
  (forall p content,
      Thumb.files w !! p = Some content ->
      Thumb.files (snd (Thumb.attempt E videoPath thumbnailPath timemark w)) !! p
      = Some content)
  /\ (fst (Thumb.attempt E videoPath thumbnailPath timemark w) = JS.Resolved true ->
      Thumb.pathExists
        (snd (Thumb.attempt E videoPath thumbnailPath timemark w)) thumbnailPath
      = true).
Proof.
  unfold Thumb.attempt, Thumb.generateSingleThumbnail.
  destruct (Thumb.pathExists w thumbnailPath) eqn:Hex.
  - cbn [fst snd]. split; [auto|]. intros _. exact Hex.
  - apply pathExists_false in Hex.
    destruct (Thumb.ffmpeg E); cbn [negb fst snd]; [|split; [auto|discriminate]].
    pose proof (spawn_files E
      (Thumb.Frame videoPath timemark 240 180 thumbnailPath) w) as [Hf _].
    cbn [Thumb.output_of] in Hf.
    destruct (Thumb.spawn E _ w) as [[wr|wr|] w'] eqn:Hs; cbn [fst snd] in *.
    + split.
      * intros p content Hp. rewrite Hf; [exact Hp|]. intros ->. congruence.
      * intros H. now injection H.
    + split; [|discriminate].
      intros p content Hp. rewrite Hf; [exact Hp|]. intros ->. congruence.
    + split; [|discriminate].
      intros p content Hp. rewrite Hf; [exact Hp|]. intros ->. congruence.
Qed.

Lemma kept_exists w w' p :
  (forall q content, Thumb.files w !! q = Some content ->
                     Thumb.files w' !! q = Some content) ->
  Thumb.pathExists w p = true -> Thumb.pathExists w' p = true.
Proof.
  intros Hk Hp. apply pathExists_true in Hp as [content Hc].
  apply pathExists_true. exists content. auto.
Qed.

Lemma selection_loop_spec E thumbnailDir videoPath filename finalInterval indices :
  forall thumbnails w,
  let out := Thumb.selection_loop E thumbnailDir videoPath filename finalInterval
               indices thumbnails w in
  (forall p content, Thumb.files w !! p = Some content ->
                     Thumb.files (snd out) !! p = Some content)
  /\ exists more,
       fst out = (thumbnails ++ more)%list
       /\ sublist more
            (List.map
               (fun i => Thumb.mk_candidate thumbnailDir i (finalInterval * i)
                           (Thumb.formatTime (finalInterval * i)) filename)
               indices)
       /\ forall c, In c more -> Thumb.pathExists (snd out) (Thumb.c_path c) = true.
Proof.
  induction indices as [|i rest IH]; intros thumbnails w out; subst out.
  - cbn [Thumb.selection_loop fst snd]. split; [auto|].
    exists []. rewrite app_nil_r. repeat split; [constructor|intros c []].
  - cbn [Thumb.selection_loop List.map].
    set (thumbnailPath := Path.join thumbnailDir (Thumb.selection_name i filename)).
    set (timemark := Thumb.formatTime (finalInterval * i)).
    destruct (attempt_files E videoPath thumbnailPath timemark w) as [Hkeep Hthere].
    destruct (Thumb.attempt E videoPath thumbnailPath timemark w)
      as [[[|]|e] w'] eqn:Ha; cbn [fst snd] in Hkeep, Hthere.
    + specialize (Hthere eq_refl).
      destruct (IH (thumbnails ++ [Thumb.mk_candidate thumbnailDir i (finalInterval * i)
                                     timemark filename])%list w')
        as (Hk & more & H1 & H2 & H3).
      split; [auto|].
      exists (Thumb.mk_candidate thumbnailDir i (finalInterval * i) timemark filename
              :: more).
      rewrite H1, <- app_assoc. split; [reflexivity|].
      split; [now apply sublist_skip|].
      intros c [<-|Hc]; [|now apply H3].
      apply (kept_exists w'); [exact Hk|exact Hthere].
    + destruct (IH thumbnails w') as (Hk & more & H1 & H2 & H3).
      split; [auto|]. exists more. repeat split; auto. now apply sublist_cons.
    + destruct (IH thumbnails w') as (Hk & more & H1 & H2 & H3).
      split; [auto|]. exists more. repeat split; auto. now apply sublist_cons.
Qed.

Lemma fallback_loop_files E thumbnailDir videoPath filename times :
  forall i thumbnails w,
  let out := Thumb.fallback_loop E thumbnailDir videoPath filename i times
               thumbnails w in
  (forall p content, Thumb.files w !! p = Some content ->
                     Thumb.files (snd out) !! p = Some content)
  /\ exists more,
       fst out = (thumbnails ++ more)%list
       /\ sublist more
            (List.map (Spec.slot_candidate thumbnailDir filename)
               (Spec.numbered i times))
       /\ forall c, In c more -> Thumb.pathExists (snd out) (Thumb.c_path c) = true.
Proof.
  induction times as [|timemark rest IH]; intros i thumbnails w out; subst out.
  - cbn [Thumb.fallback_loop fst snd]. split; [auto|].
    exists []. rewrite app_nil_r. repeat split; [constructor|intros c []].
  - cbn [Thumb.fallback_loop Spec.numbered List.map].
    set (thumbnailPath := Path.join thumbnailDir (Thumb.selection_name (i + 1) filename)).
    destruct (attempt_files E videoPath thumbnailPath timemark w) as [Hkeep Hthere].
    destruct (Thumb.attempt E videoPath thumbnailPath timemark w)
      as [[[|]|e] w'] eqn:Ha; cbn [fst snd] in Hkeep, Hthere.
    + specialize (Hthere eq_refl).
      destruct (IH (i + 1)
                  (thumbnails ++ [Thumb.mk_candidate thumbnailDir (i + 1) ((i + 1) * 2)
                                    timemark filename])%list w')
        as (Hk & more & H1 & H2 & H3).
      split; [auto|].
      exists (Thumb.mk_candidate thumbnailDir (i + 1) ((i + 1) * 2) timemark filename
              :: more).
      rewrite H1, <- app_assoc. split; [reflexivity|].
      split; [now apply sublist_skip|].
      intros c [<-|Hc]; [|now apply H3].
      apply (kept_exists w'); [exact Hk|exact Hthere].
    + destruct (IH (i + 1) thumbnails w') as (Hk & more & H1 & H2 & H3).
      split; [auto|]. exists more. repeat split; auto. now apply sublist_cons.
    + destruct (i =? 0).
      * cbn [fst snd]. split; [auto|]. exists []. rewrite app_nil_r.
        repeat split; [apply sublist_nil_l|intros c []].
      * destruct (IH (i + 1) thumbnails w') as (Hk & more & H1 & H2 & H3).
        split; [auto|]. exists more. repeat split; auto. now apply sublist_cons.
Qed.

Lemma sublist_In {A} (l1 l2 : list A) x : sublist l1 l2 -> In x l1 -> In x l2.
Proof.
  intros Hs Hx. apply list_elem_of_In. apply list_elem_of_In in Hx.
  eapply elem_of_sublist; eassumption.
Qed.

(** X7.  Every candidate that [generateSelectionThumbnails] returns, on
    whatever path through the function, names a file that is in the
    thumbnail directory when the call returns, under the name
    [selection_<index>_thumb_<name>.jpg] that its [filename], [path] and
    [url] fields all spell out; and the call neither removes nor rewrites
    any file that was there before. *)
Theorem generateSelectionThumbnails_on_disk :
  forall (E : Thumb.env) (thumbnailDir videoPath filename : string)
         (count : Z) (w : Thumb.world),
    let out := Thumb.generateSelectionThumbnails E thumbnailDir videoPath
                 filename count w in
    (forall c, In c (fst out) ->
               Thumb.pathExists (snd out) (Thumb.c_path c) = true
               /\ Thumb.c_filename c = Thumb.selection_name (Thumb.c_index c) filename
               /\ Thumb.c_path c = Path.join thumbnailDir (Thumb.c_filename c)
               /\ Thumb.c_url c = "/thumbnails/" ++ Thumb.c_filename c)
    /\ (forall p content, Thumb.files w !! p = Some content ->
                          Thumb.files (snd out) !! p = Some content).
Proof.
  intros E thumbnailDir videoPath filename count w out. subst out.
  unfold Thumb.generateSelectionThumbnails, Thumb.generateFallbackThumbnails.
  assert (Hnone : forall c : Thumb.candidate, In c [] -> 
             Thumb.pathExists w (Thumb.c_path c) = true
             /\ Thumb.c_filename c = Thumb.selection_name (Thumb.c_index c) filename
             /\ Thumb.c_path c = Path.join thumbnailDir (Thumb.c_filename c)
             /\ Thumb.c_url c = "/thumbnails/" ++ Thumb.c_filename c)
    by (intros c []).
  assert (Hfall : forall n,
    let out := Thumb.fallback_loop E thumbnailDir videoPath filename 0
                 (firstn n Thumb.fallbackTimes) [] w in
    (forall c, In c (fst out) ->
               Thumb.pathExists (snd out) (Thumb.c_path c) = true
               /\ Thumb.c_filename c = Thumb.selection_name (Thumb.c_index c) filename
               /\ Thumb.c_path c = Path.join thumbnailDir (Thumb.c_filename c)
               /\ Thumb.c_url c = "/thumbnails/" ++ Thumb.c_filename c)
    /\ (forall p content, Thumb.files w !! p = Some content ->
                          Thumb.files (snd out) !! p = Some content)).
  { intros n out.
    destruct (fallback_loop_files E thumbnailDir videoPath filename
                (firstn n Thumb.fallbackTimes) 0 [] w) as (Hk & more & H1 & H2 & H3).
    fold out in Hk, H1, H3. split; [|exact Hk].
    intros c Hc. rewrite H1 in Hc. simpl in Hc. split; [now apply H3|].
    apply (sublist_In _ _ _ H2), in_map_iff in Hc as ([i tm] & <- & _).
    repeat split. }
  destruct (Thumb.ffmpeg E); cbn [negb]; [|split; [exact Hnone|auto]].
  destruct (Thumb.video_exists E videoPath); cbn [negb]; [|split; [exact Hnone|auto]].
  destruct (Thumb.getVideoDuration E videoPath =? 0); [apply Hfall|].
  destruct (count + 1 =? 0); [split; [exact Hnone|auto]|].
  destruct (_ <=? 0); [apply Hfall|].
  match goal with
  | |- context [Thumb.selection_loop E thumbnailDir videoPath filename ?fi ?ix [] w] =>
      destruct (selection_loop_spec E thumbnailDir videoPath filename fi ix [] w)
        as (Hk & more & H1 & H2 & H3)
  end.
  split; [|exact Hk].
  intros c Hc. rewrite H1 in Hc. simpl in Hc. split; [now apply H3|].
  apply (sublist_In _ _ _ H2), in_map_iff in Hc as (i & <- & _).
  repeat split.
Qed.

(** ** Selection thumbnails of a video of known length *)

Lemma attempt_succeeds E videoPath thumbnailPath timemark w :
  Thumb.ffmpeg E = true ->
  (forall j, exists content, Thumb.run E j = Thumb.Ended (Some content)) ->
  fst (Thumb.attempt E videoPath thumbnailPath timemark w) = JS.Resolved true.
Proof.
  intros Hf Hrun. unfold Thumb.attempt, Thumb.generateSingleThumbnail, Thumb.spawn.
  destruct (Thumb.pathExists w thumbnailPath) eqn:Hex; [reflexivity|].
  rewrite Hf. cbn [negb].
  destruct (Hrun (Thumb.Frame videoPath timemark 240 180 thumbnailPath))
    as [content ->].
  cbn [fst snd Thumb.leave Thumb.output_of]. f_equal.
  apply pathExists_true. cbn [Thumb.writeFile Thumb.files].
  rewrite lookup_insert_eq. eauto.
Qed.

Lemma selection_loop_all E thumbnailDir videoPath filename finalInterval indices :
  Thumb.ffmpeg E = true ->
  (forall j, exists content, Thumb.run E j = Thumb.Ended (Some content)) ->
  forall thumbnails w,
    fst (Thumb.selection_loop E thumbnailDir videoPath filename finalInterval
           indices thumbnails w)
    = (thumbnails ++
       List.map
         (fun i => Thumb.mk_candidate thumbnailDir i (finalInterval * i)
                     (Thumb.formatTime (finalInterval * i)) filename)
         indices)%list.
Proof.
  intros Hf Hrun. induction indices as [|i rest IH]; intros thumbnails w.
  - simpl. now rewrite app_nil_r.
  - cbn [Thumb.selection_loop List.map].
    pose proof (attempt_succeeds E videoPath
      (Path.join thumbnailDir (Thumb.selection_name i filename))
      (Thumb.formatTime (finalInterval * i)) w Hf Hrun) as Ha.
    destruct (Thumb.attempt E videoPath _ _ w) as [r w'].
    cbn [fst] in Ha. subst r. rewrite IH, <- app_assoc. reflexivity.
Qed.

Lemma indices_range n i :
  In i (List.map Z.of_nat (List.seq 1 n)) -> 1 <= i <= Z.of_nat n.
Proof.
  intros H. apply in_map_iff in H as (k & <- & Hk).
  apply in_seq in Hk. lia.
Qed.

(** X8.  For a video whose probed length exceeds the requested count
    (count at least 1), [generateSelectionThumbnails] works at the interval
    [floor(duration / (count + 1))]: the count is never adjusted, the
    candidates come in index order from the slots 1..count, each at the
    time [interval * index], which lies strictly inside the video; and when
    the transcoder writes every frame it is asked for, exactly [count]
    candidates come back. *)
Theorem generateSelectionThumbnails_inside_video :
  forall (E : Thumb.env) (thumbnailDir videoPath filename : string)
         (count : Z) (w : Thumb.world),
    Thumb.ffmpeg E = true ->
    Thumb.video_exists E videoPath = true ->
    1 <= count ->
    count < Thumb.getVideoDuration E videoPath ->
    let duration := Thumb.getVideoDuration E videoPath in
    let interval := duration / (count + 1) in
    let slots :=
      List.map
        (fun i => Thumb.mk_candidate thumbnailDir i (interval * i)
                    (Thumb.formatTime (interval * i)) filename)
        (List.map Z.of_nat (List.seq 1 (Z.to_nat count))) in
    let out := Thumb.generateSelectionThumbnails E thumbnailDir videoPath
                 filename count w in
    sublist (fst out) slots
    /\ (forall c, In c (fst out) ->
                  1 <= Thumb.c_index c <= count
                  /\ Thumb.c_timestamp c = interval * Thumb.c_index c
                  /\ 1 <= Thumb.c_timestamp c < duration
                  /\ Thumb.c_timemark c = Thumb.formatTime (Thumb.c_timestamp c))
    /\ ((forall j, exists content, Thumb.run E j = Thumb.Ended (Some content)) ->
        fst out = slots).
Proof.
  intros E thumbnailDir videoPath filename count w Hf Hv Hc Hd
    duration interval slots out.
  assert (Hi : 1 <= interval).
  { apply Z.div_le_lower_bound; lia. }
  assert (Hm : interval * (count + 1) <= duration).
  { rewrite Z.mul_comm. apply Z.mul_div_le. lia. }
  assert (Hq : count + 1 <= duration / interval).
  { apply Z.div_le_lower_bound; lia. }
  assert (Hout : out = Thumb.selection_loop E thumbnailDir videoPath filename
                         interval (List.map Z.of_nat (List.seq 1 (Z.to_nat count)))
                         [] w).
  { subst out. unfold Thumb.generateSelectionThumbnails.
    rewrite Hf, Hv. cbn [negb]. fold duration.
    destruct (Z.eqb_spec duration 0) as [|_]; [lia|].
    destruct (Z.eqb_spec (count + 1) 0) as [|_]; [lia|]. fold interval.
    destruct (Z.leb_spec interval 0) as [|_]; [lia|].
    rewrite (Z.max_r 1 interval) by lia.
    rewrite (Z.min_l count (duration / interval)) by lia. reflexivity. }
  destruct (selection_loop_spec E thumbnailDir videoPath filename interval
              (List.map Z.of_nat (List.seq 1 (Z.to_nat count))) [] w)
    as (_ & more & H1 & H2 & _).
  rewrite <- Hout in H1. simpl in H1. subst more.
  split; [exact H2|]. split.
  - intros c Hin. apply (sublist_In _ _ _ H2), in_map_iff in Hin as (i & <- & Hin).
    apply indices_range in Hin. rewrite Z2Nat.id in Hin by lia.
    cbn [Thumb.mk_candidate Thumb.c_index Thumb.c_timestamp Thumb.c_timemark].
    repeat split; try lia; nia.
  - intros Hrun. rewrite Hout.
    now rewrite (selection_loop_all E thumbnailDir videoPath filename interval _ Hf Hrun).
Qed.

Lemma generateSelectionThumbnails_inside_video_witness :
  fst (Thumb.generateSelectionThumbnails Sample.tiny_env Sample.thumbnails
         Sample.clip_path "clip.mp4" 6 Sample.empty_world)
  = List.map
      (fun i => Thumb.mk_candidate Sample.thumbnails i
                  (Thumb.getVideoDuration Sample.tiny_env Sample.clip_path / (6 + 1) * i)
                  (Thumb.formatTime
                     (Thumb.getVideoDuration Sample.tiny_env Sample.clip_path
                      / (6 + 1) * i))
                  "clip.mp4")
      (List.map Z.of_nat (List.seq 1 (Z.to_nat 6))).
Proof.
  apply (generateSelectionThumbnails_inside_video
           Sample.tiny_env Sample.thumbnails Sample.clip_path
           "clip.mp4" 6 Sample.empty_world eq_refl eq_refl).
  - lia.
  - vm_compute. reflexivity.
  - intros j. exists "moov". reflexivity.
Defined.

(** ** Artifacts of one video: made, reused, removed *)

Lemma remove_files p w q :
  Thumb.files (Thumb.remove p w) !! q
  = if String.eqb p q then None else Thumb.files w !! q.
Proof.
  unfold Thumb.remove. cbn [Thumb.files].
  destruct (String.eqb_spec p q) as [->|Hne].
  - apply lookup_delete_eq.
  - now apply lookup_delete_ne.
Qed.

Lemma writeFile_files p content w q :
  Thumb.files (Thumb.writeFile p content w) !! q
  = if String.eqb p q then Some content else Thumb.files w !! q.
Proof.
  unfold Thumb.writeFile. cbn [Thumb.files].
  destruct (String.eqb_spec p q) as [->|Hne].
  - apply lookup_insert_eq.
  - now apply lookup_insert_ne.
Qed.

Lemma generateThumbnail_frame E thumbnailDir videoPath filename width height timemark w :
  let thumbnailPath := Path.join thumbnailDir (Thumb.getThumbnailFilename filename) in
  let svgPath := JS.replace thumbnailPath ".jpg" ".svg" in
  let out := Thumb.generateThumbnail E thumbnailDir videoPath filename
               width height timemark w in
  (fst out = thumbnailPath \/ fst out = svgPath)
  /\ (forall q, q <> thumbnailPath -> q <> svgPath ->
                Thumb.files (snd out) !! q = Thumb.files w !! q).
Proof.
  intros thumbnailPath svgPath out. subst out.
  unfold Thumb.generateThumbnail. fold thumbnailPath.
  destruct (Thumb.pathExists w thumbnailPath); [split; [now left|reflexivity]|].
  assert (Hplace : forall w',
    (forall q, q <> thumbnailPath -> Thumb.files w' !! q = Thumb.files w !! q) ->
    (fst (Thumb.createPlaceholderThumbnail thumbnailPath filename w') = thumbnailPath
     \/ fst (Thumb.createPlaceholderThumbnail thumbnailPath filename w') = svgPath)
    /\ (forall q, q <> thumbnailPath -> q <> svgPath ->
                  Thumb.files (snd (Thumb.createPlaceholderThumbnail thumbnailPath
                                      filename w')) !! q
                  = Thumb.files w !! q)).
  { intros w' Hw'. unfold Thumb.createPlaceholderThumbnail. cbn [fst snd].
    split; [now right|]. intros q Hq1 Hq2. rewrite writeFile_files.
    fold svgPath. destruct (String.eqb_spec svgPath q); [congruence|]. auto. }
  destruct (Thumb.ffmpeg E); cbn [negb]; [|apply Hplace; auto].
  pose proof (spawn_files E
    (Thumb.Frame videoPath timemark width height thumbnailPath) w) as [Hf _].
  cbn [Thumb.output_of] in Hf.
  destruct (Thumb.spawn E _ w) as [[wr|wr|] w']; cbn [snd] in Hf.
  - cbn [fst snd]. split; [now left|]. intros q Hq _. auto.
  - apply Hplace. exact Hf.
  - apply Hplace. exact Hf.
Qed.

Lemma extract_preview_frame E videoPath previewPath startTime duration width height w :
  let out := Thumb.extract_preview E videoPath previewPath startTime duration
               width height w in
  (fst out = None \/ fst out = Some previewPath)
  /\ (forall q, q <> previewPath ->
                Thumb.files (snd out) !! q = Thumb.files w !! q).
Proof.
  intros out. subst out. unfold Thumb.extract_preview.
  destruct (Thumb.ffmpeg E); cbn [negb]; [|split; [now left|reflexivity]].
  pose proof (spawn_files E
    (Thumb.Clip videoPath startTime duration width height previewPath) w) as [Hf _].
  cbn [Thumb.output_of] in Hf.
  destruct (Thumb.spawn E _ w) as [[wr|wr|] w']; cbn [snd] in Hf;
    try (split; [now left|exact Hf]).
  destruct (Thumb.files w' !! previewPath) as [content|];
    [|split; [now left|exact Hf]].
  destruct (Thumb.size content <? 1024); cbn [fst snd].
  - split; [now left|]. intros q Hq. rewrite remove_files.
    destruct (String.eqb_spec previewPath q); [congruence|]. auto.
  - split; [now right|exact Hf].
Qed.

Lemma generatePreview_frame E thumbnailDir videoPath filename width height w :
  let previewPath := Path.join thumbnailDir (Thumb.getPreviewFilename filename) in
  let out := Thumb.generatePreview E thumbnailDir videoPath filename width height w in
  (fst out = None \/ fst out = Some previewPath)
  /\ (forall q, q <> previewPath ->
                Thumb.files (snd out) !! q = Thumb.files w !! q).
Proof.
  intros previewPath out. subst out. unfold Thumb.generatePreview.
  destruct (_ =? 0); [split; [now left|reflexivity]|].
  destruct (Thumb.preview_window _) as [startTime duration]. fold previewPath.
  destruct (Thumb.files w !! previewPath) as [content|].
  - destruct (Thumb.size content >? 1024); [split; [now right|reflexivity]|].
    destruct (extract_preview_frame E videoPath previewPath startTime duration
                width height (Thumb.remove previewPath w)) as [H1 H2].
    split; [exact H1|]. intros q Hq. rewrite (H2 q Hq), remove_files.
    destruct (String.eqb_spec previewPath q); [congruence|reflexivity].
  - apply extract_preview_frame.
Qed.

Lemma deleteThumbnail_files thumbnailDir filename w q :
  let thumbnailPath := Path.join thumbnailDir (Thumb.getThumbnailFilename filename) in
  let previewPath := Path.join thumbnailDir (Thumb.getPreviewFilename filename) in
  let svgPath := JS.replace thumbnailPath ".jpg" ".svg" in
  Thumb.files (Thumb.deleteThumbnail thumbnailDir filename w) !! q
  = if String.eqb q thumbnailPath || String.eqb q previewPath || String.eqb q svgPath
    then None else Thumb.files w !! q.
Proof.
  intros thumbnailPath previewPath svgPath. unfold Thumb.deleteThumbnail.
  fold thumbnailPath previewPath svgPath. rewrite !remove_files.
  rewrite (String.eqb_sym q thumbnailPath), (String.eqb_sym q previewPath),
    (String.eqb_sym q svgPath).
  destruct (String.eqb svgPath q), (String.eqb previewPath q),
    (String.eqb thumbnailPath q); reflexivity.
Qed.

(** X9.  [deleteThumbnail] undoes what generation left behind: after a
    thumbnail and a preview have been generated for a file, in whatever way
    the tool behaves, [deleteThumbnail] leaves neither the path that
    [generateThumbnail] returned (image or placeholder) nor the preview
    clip, and every other file of the directory is as it was before the
    three calls. *)
Theorem deleteThumbnail_undoes_generation :
  forall (E : Thumb.env) (thumbnailDir videoPath filename timemark : string)
         (width height pwidth pheight : Z) (w : Thumb.world),
    let thumbnailPath := Path.join thumbnailDir (Thumb.getThumbnailFilename filename) in
    let previewPath := Path.join thumbnailDir (Thumb.getPreviewFilename filename) in
    let svgPath := JS.replace thumbnailPath ".jpg" ".svg" in
    let thumb := Thumb.generateThumbnail E thumbnailDir videoPath filename
                   width height timemark w in
    let clip := Thumb.generatePreview E thumbnailDir videoPath filename
                  pwidth pheight (snd thumb) in
    let after := Thumb.deleteThumbnail thumbnailDir filename (snd clip) in
    Thumb.pathExists after (fst thumb) = false
    /\ (forall q, fst clip = Some q -> Thumb.pathExists after q = false)
    /\ (forall q, q <> thumbnailPath -> q <> previewPath -> q <> svgPath ->
                  Thumb.files after !! q = Thumb.files w !! q).
Proof.
  intros E thumbnailDir videoPath filename timemark width height pwidth pheight w
    thumbnailPath previewPath svgPath thumb clip after.
  destruct (generateThumbnail_frame E thumbnailDir videoPath filename width height
              timemark w) as [Ht Hframe1].
  destruct (generatePreview_frame E thumbnailDir videoPath filename pwidth pheight
              (snd thumb)) as [Hc Hframe2].
  fold thumbnailPath svgPath thumb in Ht, Hframe1.
  fold previewPath clip in Hc, Hframe2.
  assert (Hgone : forall q,
            q = thumbnailPath \/ q = previewPath \/ q = svgPath ->
            Thumb.pathExists after q = false).
  { intros q Hq. apply pathExists_false. subst after.
    rewrite deleteThumbnail_files. fold thumbnailPath previewPath svgPath.
    destruct Hq as [-> | [-> | ->]]; rewrite String.eqb_refl;
      now rewrite ?orb_true_r. }
  split; [|split].
  - apply Hgone. destruct Ht as [Ht|Ht]; rewrite Ht; auto.
  - intros q Hq. apply Hgone. destruct Hc as [Hc|Hc]; [congruence|].
    rewrite Hc in Hq. injection Hq as <-. auto.
  - intros q H1 H2 H3. subst after. rewrite deleteThumbnail_files.
    fold thumbnailPath previewPath svgPath.
    destruct (String.eqb_spec q thumbnailPath); [congruence|].
    destruct (String.eqb_spec q previewPath); [congruence|].
    destruct (String.eqb_spec q svgPath); [congruence|]. cbn [orb].
    rewrite Hframe2 by assumption. now apply Hframe1.
Qed.

(** ** Reusing a preview clip *)

Lemma extract_preview_written E videoPath previewPath startTime duration width height
      w fresh :
  Thumb.ffmpeg E = true ->
  Thumb.run E (Thumb.Clip videoPath startTime duration width height previewPath)
  = Thumb.Ended (Some fresh) ->
  1024 <= Thumb.size fresh ->
  Thumb.extract_preview E videoPath previewPath startTime duration width height w
  = (Some previewPath,
     Thumb.writeFile previewPath fresh
       {| Thumb.files := Thumb.files w;
          Thumb.jobs := (Thumb.jobs w ++
                         [Thumb.Clip videoPath startTime duration width height
                            previewPath])%list |}).
Proof.
  intros Hf Hrun Hsize. unfold Thumb.extract_preview, Thumb.spawn.
  rewrite Hf, Hrun. cbn [negb Thumb.leave Thumb.output_of].
  rewrite writeFile_files, String.eqb_refl.
  destruct (Z.ltb_spec (Thumb.size fresh) 1024); [lia|reflexivity].
Qed.

(** X10.  A preview clip of more than 1024 bytes is reused by the next
    call without running the transcoder; one of exactly 1024 bytes is
    accepted when it is fresh, yet the next call deletes it and runs the
    transcoder again, because reuse asks for more than 1024 bytes while
    acceptance asks for at least 1024. *)
Theorem generatePreview_reuse_threshold :
  forall (E : Thumb.env) (thumbnailDir videoPath filename fresh : string)
         (width height : Z) (w : Thumb.world),
    let previewPath := Path.join thumbnailDir (Thumb.getPreviewFilename filename) in
    let window := Thumb.preview_window (Thumb.getVideoDuration E videoPath) in
    let clip := Thumb.Clip videoPath (fst window) (snd window) width height previewPath in
    Thumb.getVideoDuration E videoPath <> 0 ->
    Thumb.files w !! previewPath = None ->
    Thumb.run E clip = Thumb.Ended (Some fresh) ->
    1024 <= Thumb.size fresh ->
    let first := Thumb.generatePreview E thumbnailDir videoPath filename width height w in
    let second := Thumb.generatePreview E thumbnailDir videoPath filename width height
                    (snd first) in
    fst first = Some previewPath
    /\ Thumb.jobs (snd first) = (Thumb.jobs w ++ [clip])%list
    /\ fst second = Some previewPath
    /\ (1024 < Thumb.size fresh -> snd second = snd first)
    /\ (Thumb.size fresh = 1024 ->
        Thumb.jobs (snd second) = (Thumb.jobs w ++ [clip; clip])%list).
Proof.
  intros E thumbnailDir videoPath filename fresh width height w previewPath window clip
    Hd Hnone Hrun Hsize first second.
  pose proof (duration_nonzero_ffmpeg E videoPath Hd) as Hf.
  assert (Hgen : forall w0,
    Thumb.generatePreview E thumbnailDir videoPath filename width height w0
    = match Thumb.files w0 !! previewPath with
      | Some content =>
          if Thumb.size content >? 1024 then (Some previewPath, w0)
          else Thumb.extract_preview E videoPath previewPath (fst window) (snd window)
                 width height (Thumb.remove previewPath w0)
      | None =>
          Thumb.extract_preview E videoPath previewPath (fst window) (snd window)
            width height w0
      end).
  { intros w0. unfold Thumb.generatePreview.
    destruct (Z.eqb_spec (Thumb.getVideoDuration E videoPath) 0) as [|_]; [contradiction|].
    subst window. destruct (Thumb.preview_window _) as [s l]. reflexivity. }
  assert (H1 : first
               = (Some previewPath,
                  Thumb.writeFile previewPath fresh
                    {| Thumb.files := Thumb.files w;
                       Thumb.jobs := (Thumb.jobs w ++ [clip])%list |})).
  { subst first. rewrite Hgen, Hnone.
    now apply extract_preview_written. }
  assert (Hlook : Thumb.files (snd first) !! previewPath = Some fresh).
  { rewrite H1. cbn [snd]. now rewrite writeFile_files, String.eqb_refl. }
  split; [now rewrite H1|]. split; [now rewrite H1|].
  subst second. rewrite Hgen, Hlook.
  destruct (Z.gtb_spec (Thumb.size fresh) 1024) as [Hbig|Hsmall].
  - repeat split; auto. lia.
  - rewrite (extract_preview_written E videoPath previewPath (fst window) (snd window)
               width height _ fresh Hf Hrun Hsize).
    cbn [fst snd Thumb.writeFile Thumb.remove Thumb.jobs].
    repeat split; [lia|]. intros _. rewrite H1. cbn [snd Thumb.writeFile Thumb.jobs].
    now rewrite <- app_assoc.
Qed.

Lemma generatePreview_reuse_threshold_witness :
  let kilobyte := String.concat "" (List.repeat "0123456789abcdef" 64) in
  let E := {| Thumb.ffmpeg := true;
              Thumb.ffprobe := fun _ => Thumb.ProbeMetadata (Some (91 # 2)%Q) None;
              Thumb.run := fun _ => Thumb.Ended (Some kilobyte);
              Thumb.video_exists := fun _ => true |} in
  let first := Thumb.generatePreview E Sample.thumbnails Sample.clip_path "clip.mp4"
                 480 360 Sample.empty_world in
  let second := Thumb.generatePreview E Sample.thumbnails Sample.clip_path "clip.mp4"
                  480 360 (snd first) in
  Thumb.size kilobyte = 1024
  /\ fst second = Some (Path.join Sample.thumbnails (Thumb.getPreviewFilename "clip.mp4"))
  /\ List.length (Thumb.jobs (snd second)) = 2%nat.
Proof.
  intros kilobyte E first second.
  assert (Hs : Thumb.size kilobyte = 1024) by (vm_compute; reflexivity).
  destruct (generatePreview_reuse_threshold E Sample.thumbnails Sample.clip_path
              "clip.mp4" kilobyte 480 360 Sample.empty_world)
    as (_ & _ & H3 & _ & H5).
  - vm_compute. discriminate.
  - reflexivity.
  - reflexivity.
  - rewrite Hs. lia.
  - split; [exact Hs|]. split; [exact H3|].
    fold first second in H5. rewrite (H5 Hs). reflexivity.
Defined.

(** ** Two videos with one base name *)

(** X11.  The thumbnail of a video is named after the base name of its file
    alone, so two videos whose file names differ only in directory or
    extension share one thumbnail: once the first has its image, generating
    a thumbnail for the second returns that same file, runs no job and
    leaves the directory as it is. *)
Theorem generateThumbnail_shared_by_base_name :
  forall (E : Thumb.env) (thumbnailDir videoPath1 filename1 videoPath2 filename2 : string)
         (width height : Z) (timemark image : string) (w : Thumb.world),
    Path.parse_name filename1 = Path.parse_name filename2 ->
    Thumb.ffmpeg E = true ->
    Thumb.run E (Thumb.Frame videoPath1 timemark width height
                   (Path.join thumbnailDir (Thumb.getThumbnailFilename filename1)))
    = Thumb.Ended (Some image) ->
    let first := Thumb.generateThumbnail E thumbnailDir videoPath1 filename1
                   width height timemark w in
    Thumb.generateThumbnail E thumbnailDir videoPath2 filename2
      width height timemark (snd first)
    = (fst first, snd first)
    /\ (Thumb.pathExists w (fst first) = false ->
        Thumb.files (snd first) !! fst first = Some image).
Proof.
  intros E thumbnailDir videoPath1 filename1 videoPath2 filename2 width height
    timemark image w Hname Hf Hrun first.
  assert (Hn : Thumb.getThumbnailFilename filename2 = Thumb.getThumbnailFilename filename1).
  { unfold Thumb.getThumbnailFilename. now rewrite Hname. }
  set (thumbnailPath := Path.join thumbnailDir (Thumb.getThumbnailFilename filename1)) in *.
  assert (H1 : fst first = thumbnailPath
               /\ Thumb.pathExists (snd first) thumbnailPath = true
               /\ (Thumb.pathExists w thumbnailPath = false ->
                   Thumb.files (snd first) !! thumbnailPath = Some image)).
  { subst first. unfold Thumb.generateThumbnail, Thumb.spawn. fold thumbnailPath.
    destruct (Thumb.pathExists w thumbnailPath) eqn:Hex.
    - cbn [fst snd]. repeat split; [exact Hex|discriminate].
    - rewrite Hf, Hrun. cbn [negb fst snd Thumb.leave Thumb.output_of].
      assert (Hl : Thumb.files
                     (Thumb.writeFile thumbnailPath image
                        {| Thumb.files := Thumb.files w;
                           Thumb.jobs := (Thumb.jobs w ++
                             [Thumb.Frame videoPath1 timemark width height
                                thumbnailPath])%list |}) !! thumbnailPath
                   = Some image).
      { now rewrite writeFile_files, String.eqb_refl. }
      repeat split; [|auto]. apply pathExists_true. rewrite Hl. eauto. }
  destruct H1 as (Hp & Hex & Himg). split.
  - unfold Thumb.generateThumbnail at 1. rewrite Hn. fold thumbnailPath.
    now rewrite Hex, Hp.
  - rewrite Hp. exact Himg.
Qed.

Lemma generateThumbnail_shared_by_base_name_witness :
  let first := Thumb.generateThumbnail Sample.tiny_env Sample.thumbnails
                 "/srv/uploads/clip.mp4" "clip.mp4" 320 240 "00:00:10"
                 Sample.empty_world in
  Thumb.generateThumbnail Sample.tiny_env Sample.thumbnails
    "/media/archive/clip.mkv" "clip.mkv" 320 240 "00:00:10" (snd first)
  = (fst first, snd first)
  /\ (Thumb.pathExists Sample.empty_world (fst first) = false ->
      Thumb.files (snd first) !! fst first = Some "moov").
Proof.
  apply (generateThumbnail_shared_by_base_name Sample.tiny_env Sample.thumbnails
           "/srv/uploads/clip.mp4" "clip.mp4" "/media/archive/clip.mkv" "clip.mkv"
           320 240 "00:00:10" "moov" Sample.empty_world); reflexivity.
Defined.

(** ** What the thumbnail cleanup leaves alone, and what it takes along *)

Lemma remove_all_other dir names p :
  (forall t, In t names -> Path.join dir t <> p) ->
  forall w,
    Thumb.files
      (List.fold_left (fun w t => Thumb.remove (Path.join dir t) w) names w) !! p
    = Thumb.files w !! p.
Proof.
  induction names as [|t names IH]; intros Hne w; [reflexivity|].
  cbn [List.fold_left]. rewrite IH by (intros t' Ht'; apply Hne; now right).
  rewrite remove_files.
  destruct (String.eqb_spec (Path.join dir t) p) as [E|]; [|reflexivity].
  exfalso. apply (Hne t); [now left|exact E].
Qed.

Lemma child_of_inv dir p name :
  App.child_of dir p = Some name ->
  p = Path.join dir name /\ name <> "" /\ JS.includes name "/" = false.
Proof.
  unfold App.child_of.
  destruct (JS.startsWith p (dir ++ "/")) eqn:Hs; [|discriminate].
  destruct (JS.includes _ "/" || String.eqb _ "") eqn:Hb; [discriminate|].
  intros H. injection H as <-. apply orb_false_iff in Hb as [Hb1 Hb2].
  split; [|split; [|exact Hb1]].
  - clear Hb1 Hb2. unfold Path.join. rewrite <- app_assoc_string.
    replace (String.length dir + 1)%nat with (String.length (dir ++ "/"))
      by (rewrite length_app_string; simpl; lia).
    revert p Hs. generalize (dir ++ "/") as pre.
    induction pre as [|c pre IH]; intros p Hs; [reflexivity|].
    destruct p as [|d p]; [discriminate|].
    cbn [JS.startsWith] in Hs. apply andb_true_iff in Hs as [Hc Hs].
    apply Ascii.eqb_eq in Hc. subst d.
    change (String c pre ++ JS.drop (String.length (String c pre)) (String c p))
      with (String c (pre ++ JS.drop (String.length pre) p)).
    f_equal. now apply IH.
  - intros E. rewrite E in Hb2. discriminate.
Qed.

Lemma thumb_name_not_selection rest :
  App.is_selection_thumbnail ("thumb_" ++ rest) = false
  /\ App.is_selection_thumbnail ("preview_" ++ rest) = false.
Proof. split; reflexivity. Qed.

(** X12.  [cleanupUnusedThumbnails] removes selection candidates only: a
    file of the thumbnail directory whose name does not pass the selection
    test, and any file elsewhere, is left exactly as it was; in particular
    the committed thumbnail and the preview clip of every video survive
    it. *)
Theorem cleanupUnusedThumbnails_keeps_committed :
  forall (thumbnailDir filename selectedThumbnail : string) (w : Thumb.world),
    let after := App.cleanupUnusedThumbnails thumbnailDir filename
                   selectedThumbnail w in
    (forall p,
        (forall name, App.child_of thumbnailDir p = Some name ->
                      App.is_selection_thumbnail name = false) ->
        Thumb.files after !! p = Thumb.files w !! p)
    /\ (forall other,
           Thumb.files after !! Path.join thumbnailDir (Thumb.getThumbnailFilename other)
           = Thumb.files w !! Path.join thumbnailDir (Thumb.getThumbnailFilename other)
           /\ Thumb.files after !! Path.join thumbnailDir (Thumb.getPreviewFilename other)
              = Thumb.files w !! Path.join thumbnailDir (Thumb.getPreviewFilename other)).
Proof.
  intros thumbnailDir filename selectedThumbnail w after.
  assert (Hkeep : forall p,
            (forall name, App.child_of thumbnailDir p = Some name ->
                          App.is_selection_thumbnail name = false) ->
            Thumb.files after !! p = Thumb.files w !! p).
  { intros p Hp. subst after. unfold App.cleanupUnusedThumbnails.
    apply remove_all_other. intros t Ht E.
    apply filter_In in Ht as [Ht _]. apply filter_In in Ht as [Ht Hsel].
    apply readdir_In in Ht as (p' & content & _ & Hc).
    destruct (child_of_inv _ _ _ Hc) as (_ & Hne & Hslash).
    rewrite (Hp t) in Hsel; [discriminate|].
    rewrite <- E. now apply child_of_join. }
  split; [exact Hkeep|].
  intros other. split; apply Hkeep; intros name Hc;
    apply child_of_inv in Hc as (E & _ & _);
    apply append_cancel_l, append_cancel_l in E; subst name.
  - apply thumb_name_not_selection.
  - apply thumb_name_not_selection.
Qed.

Lemma all_chars_app P s t :
  Spec.all_chars P (s ++ t) = Spec.all_chars P s && Spec.all_chars P t.
Proof.
  induction s as [|c s IH]; [reflexivity|].
  change (String c s ++ t) with (String c (s ++ t)). simpl.
  now rewrite IH, andb_assoc.
Qed.

Lemma no_slash_iff s :
  Spec.all_chars Spec.no_slash s = true <-> JS.includes s "/" = false.
Proof.
  split; [now apply all_chars_excludes|].
  induction s as [|c s IH]; [reflexivity|]. cbn [JS.includes JS.startsWith].
  intros H. apply orb_false_iff in H as [H1 H2]. simpl. rewrite (IH H2), andb_true_r.
  unfold Spec.no_slash. rewrite Ascii.eqb_sym.
  destruct (Ascii.eqb "/" c); [destruct s; discriminate|reflexivity].
Qed.

Lemma basename_slash_free p : JS.includes (Path.basename p) "/" = false.
Proof.
  induction p as [|c p IH]; [reflexivity|]. cbn [Path.basename].
  destruct (JS.includes p "/") eqn:Hp; [exact IH|].
  destruct (Ascii.eqb_spec c "/") as [->|Hc]; [exact Hp|].
  cbn [JS.includes JS.startsWith]. rewrite Hp, orb_false_r.
  destruct (Ascii.eqb_spec "/" c); [congruence|reflexivity].
Qed.

Lemma split_ext_app b n e : Path.split_ext b = Some (n, e) -> b = n ++ e.
Proof.
  revert n e. induction b as [|c s IH]; intros n e E; [discriminate|].
  simpl in E. destruct (Path.split_ext s) as [[n' e']|].
  - injection E as <- <-. now rewrite (IH _ _ eq_refl) at 1.
  - destruct (Ascii.eqb c "."); [|discriminate]. now injection E as <- <-.
Qed.

Lemma parse_name_slash_free p :
  Spec.all_chars Spec.no_slash (Path.parse_name p) = true.
Proof.
  pose proof (basename_slash_free p) as Hb. apply no_slash_iff in Hb.
  unfold Path.parse_name. destruct (String.eqb _ ".."); [exact Hb|].
  destruct (Path.split_ext (Path.basename p)) as [[n e]|] eqn:E; [|exact Hb].
  destruct n as [|c n]; [exact Hb|].
  apply split_ext_app in E. rewrite E, all_chars_app in Hb.
  now apply andb_true_iff in Hb.
Qed.

Lemma toString_slash_free z : Spec.all_chars Spec.no_slash (JS.toString z) = true.
Proof.
  assert (Hd : forall s, JS.all_digits s = true -> Spec.all_chars Spec.no_slash s = true).
  { induction s as [|c s IH]; [reflexivity|]. simpl. intros H.
    apply andb_true_iff in H as [Hc Hs]. rewrite (IH Hs), andb_true_r.
    destruct c as [[] [] [] [] [] [] [] []]; try discriminate; reflexivity. }
  unfold JS.toString. destruct (Z.to_int z) as [d|d]; cbn [NilZero.string_of_int].
  - apply Hd, nilzero_digits.
  - simpl. apply Hd, nilzero_digits.
Qed.

Lemma includes_app_skip a b x :
  JS.includes b x = true -> JS.includes (a ++ b) x = true.
Proof.
  intros H. induction a as [|c a IH]; [exact H|].
  change (String c a ++ b) with (String c (a ++ b)).
  cbn [JS.includes]. rewrite IH. apply orb_true_r.
Qed.

Lemma startsWith_split s p :
  JS.startsWith s p = true -> exists r, s = p ++ r.
Proof.
  revert s. induction p as [|c p IH]; intros s H; [now exists s|].
  destruct s as [|d s]; [discriminate|]. cbn [JS.startsWith] in H.
  apply andb_true_iff in H as [Hc Hs]. apply Ascii.eqb_eq in Hc. subst d.
  destruct (IH _ Hs) as [r ->]. now exists r.
Qed.

Lemma append_nil_r (s : string) : s ++ "" = s.
Proof.
  induction s as [|c s IH]; [reflexivity|].
  change (String c s ++ "") with (String c (s ++ "")). now rewrite IH.
Qed.

Lemma rev_string_app s t :
  JS.rev_string (s ++ t) = JS.rev_string t ++ JS.rev_string s.
Proof.
  induction s as [|c s IH].
  - change ("" ++ t) with t. change (JS.rev_string "") with "".
    now rewrite append_nil_r.
  - change (String c s ++ t) with (String c (s ++ t)). cbn [JS.rev_string].
    now rewrite IH, app_assoc_string.
Qed.

Lemma endsWith_app a s : JS.endsWith (a ++ s) s = true.
Proof. unfold JS.endsWith. rewrite rev_string_app. apply startsWith_app. Qed.

Lemma selection_name_shape i filename :
  let name := Thumb.selection_name i filename in
  name <> "" /\ JS.includes name "/" = false
  /\ App.is_selection_thumbnail name = true.
Proof.
  intros name. subst name. unfold Thumb.selection_name, Thumb.getThumbnailFilename.
  split; [discriminate|]. split.
  - apply no_slash_iff. rewrite !all_chars_app, toString_slash_free,
      parse_name_slash_free. reflexivity.
  - unfold App.is_selection_thumbnail. apply andb_true_iff. split;
      [apply andb_true_iff; split|].
    + apply startsWith_app.
    + change ("selection_" ++ JS.toString i ++ "_" ++ "thumb_"
              ++ Path.parse_name filename ++ ".jpg")
        with ("selection_" ++ JS.toString i ++ "_" ++ "thumb_"
              ++ (Path.parse_name filename ++ ".jpg")).
      apply includes_app_skip, includes_app_skip, (includes_app_skip "_").
      apply startsWith_includes, startsWith_app.
    + rewrite <- !app_assoc_string. apply endsWith_app.
Qed.

(** X13.  [cleanupUnusedThumbnails] matches by containment, so the cleanup
    for one video also removes the selection candidates of every video
    whose base name begins with its own (a trailing [_<digits>] dropped
    first): the candidates of [clip.mp4] go when a thumbnail is committed
    for [clip_1.mp4], and so do those of [catalog.mp4] when one is
    committed for [cat.mp4]. *)
Theorem cleanupUnusedThumbnails_takes_extensions :
  forall (thumbnailDir filename selectedThumbnail other : string) (index : Z)
         (w : Thumb.world),
    JS.startsWith (Path.parse_name other)
      (App.strip_numeric_suffix (Path.parse_name filename)) = true ->
    Thumb.files (App.cleanupUnusedThumbnails thumbnailDir filename selectedThumbnail w)
    !! Path.join thumbnailDir (Thumb.selection_name index other) = None.
Proof.
  intros thumbnailDir filename selectedThumbnail other index w Hpre.
  destruct (selection_name_shape index other) as (Hne & Hslash & Hsel).
  apply cleanup_removes_matching; [exact Hne|exact Hslash|exact Hsel|].
  unfold App.matches_video. apply orb_true_iff. right.
  destruct (startsWith_split _ _ Hpre) as [r Hr].
  unfold Thumb.selection_name, Thumb.getThumbnailFilename. rewrite Hr.
  apply includes_app_skip, includes_app_skip, (includes_app_skip "_").
  apply startsWith_includes.
  set (target := App.strip_numeric_suffix (Path.parse_name filename)).
  replace ("thumb_" ++ (target ++ r) ++ ".jpg")
    with (("thumb_" ++ target) ++ (r ++ ".jpg"))
    by (now rewrite !app_assoc_string).
  apply startsWith_app.
Qed.

Lemma cleanupUnusedThumbnails_takes_extensions_witness :
  Thumb.files
    (App.cleanupUnusedThumbnails Sample.thumbnails "cat.mp4" "selection_1_thumb_cat.jpg"
       {| Thumb.files :=
            list_to_map [ ("/srv/thumbnails/selection_1_thumb_cat.jpg", "cat 1");
                          ("/srv/thumbnails/selection_2_thumb_catalog.jpg", "catalog 2") ];
          Thumb.jobs := [] |})
  !! Path.join Sample.thumbnails (Thumb.selection_name 2 "catalog.mp4") = None.
Proof.
  apply (cleanupUnusedThumbnails_takes_extensions Sample.thumbnails "cat.mp4"
           "selection_1_thumb_cat.jpg" "catalog.mp4" 2).
  reflexivity.
Defined.

(** ** A refused set-thumbnail request *)

(** X14.  For a request whose file name, when given, is a plain file name
    (no ['/'], not ["."] or [".."]), [POST /api/videos/:id/set-thumbnail]
    answers 400 exactly when the file name is missing or empty, 404 when
    the video or the named file does not exist, and accepts otherwise; a
    refused request changes neither the database nor the thumbnail
    directory. *)
Theorem set_thumbnail_refusals :
  forall (thumbnailDir : string) (now id : Z) (thumbnailFilename : option string)
         (s : App.state),
    (forall name, thumbnailFilename = Some name -> Path.is_file_name name = true) ->
    let out := App.set_thumbnail thumbnailDir now id thumbnailFilename s in
    (forall status message, fst out = App.Fail status message -> snd out = s)
    /\ ((exists message, fst out = App.Fail 400 message)
        <-> JS.truthy thumbnailFilename = false)
    /\ ((exists message, fst out = App.Fail 404 message)
        <-> exists name,
              thumbnailFilename = Some name /\ name <> ""
              /\ (Video.getVideoById (App.db s) id = None
                  \/ Thumb.pathExists (App.world s) (Path.join thumbnailDir name)
                     = false))
    /\ (forall name,
           fst out = App.Json name
           <-> thumbnailFilename = Some name /\ name <> ""
               /\ Video.getVideoById (App.db s) id <> None
               /\ Thumb.pathExists (App.world s) (Path.join thumbnailDir name) = true).
Proof.
  intros thumbnailDir now id thumbnailFilename s _ out. subst out.
  unfold App.set_thumbnail.
  destruct thumbnailFilename as [[|c name]|]; cbn [JS.truthy negb fst snd].
  - split; [auto|]. split; [split; [auto|intros _; eauto]|]. split.
    + split; [intros [m H]; discriminate|intros (n & H & Hn & _); congruence].
    + intros n. split; [discriminate|intros (H & Hn & _); congruence].
  - destruct (Video.getVideoById (App.db s) id) as [videoData|] eqn:Hv.
    + destruct (Thumb.pathExists (App.world s) (Path.join thumbnailDir (String c name)))
        eqn:Hex; cbn [negb].
      * destruct (Video.updateVideo _ _ _ _) as [changed db']. cbn [fst snd].
        split; [discriminate|]. split; [split; [intros [m H]|]; discriminate|]. split.
        -- split; [intros [m H]; discriminate|].
           intros (n & H & _ & [H1|H1]); [discriminate|]. injection H as <-. congruence.
        -- intros n. split.
           ++ intros H. injection H as <-. repeat split; congruence.
           ++ intros (H & _). now injection H as <-.
      * cbn [fst snd]. split; [auto|].
        split; [split; [intros [m H]|]; discriminate|]. split.
        -- split; [intros _|eauto]. exists (String c name).
           repeat split; [discriminate|now right].
        -- intros n. split; [discriminate|].
           intros (H & _ & _ & H1). injection H as <-. congruence.
    + cbn [fst snd]. split; [auto|].
      split; [split; [intros [m H]|]; discriminate|]. split.
      * split; [intros _|eauto]. exists (String c name).
        repeat split; [discriminate|now left].
      * intros n. split; [discriminate|]. intros (_ & _ & H1 & _). congruence.
  - split; [auto|]. split; [split; [auto|intros _; eauto]|]. split.
    + split; [intros [m H]; discriminate|intros (n & H & _); discriminate].
    + intros n. split; [discriminate|intros (H & _); discriminate].
Qed.

Lemma set_thumbnail_refusals_witness :
  exists message,
    fst (App.set_thumbnail Sample.thumbnails 0 1 (Some "selection_9_thumb_clip.jpg")
           Sample.clip_state) = App.Fail 404 message.
Proof.
  destruct (set_thumbnail_refusals Sample.thumbnails 0 1
              (Some "selection_9_thumb_clip.jpg") Sample.clip_state)
    as (_ & _ & H404 & _).
  - intros name [= <-]. reflexivity.
  - apply H404. exists "selection_9_thumb_clip.jpg".
    split; [reflexivity|]. split; [discriminate|]. right. reflexivity.
Defined.

(** ** The two title searches find the same videos *)

Lemma lower_char_percent c :
  Ascii.eqb (JS.lower_char c) "%" = Ascii.eqb c "%"
  /\ Ascii.eqb (JS.lower_char c) "_" = Ascii.eqb c "_".
Proof. destruct c as [[] [] [] [] [] [] [] []]; split; reflexivity. Qed.

Lemma like_cons_other c p s :
  Ascii.eqb c "%" = false ->
  Sql.like (String c p) s =
  match s with
  | EmptyString => false
  | String d s' =>
      (Ascii.eqb c "_" || Ascii.eqb (JS.lower_char c) (JS.lower_char d))
      && Sql.like p s'
  end.
Proof. intros H. simpl. now rewrite H. Qed.

Lemma like_lower p :
  forall s, Sql.like (JS.toLowerCase p) (JS.toLowerCase s) = Sql.like p s.
Proof.
  induction p as [|c p IH]; intros s.
  - destruct s; reflexivity.
  - cbn [JS.toLowerCase]. destruct (lower_char_percent c) as [Hp Hu].
    destruct (Ascii.eqb_spec c "%") as [->|Hc].
    + change (JS.lower_char "%") with "%"%char.
      induction s as [|d s IHs].
      * pose proof (IH "") as H0. cbn [JS.toLowerCase] in H0 |- *.
        rewrite !like_percent. now rewrite H0.
      * cbn [JS.toLowerCase]. rewrite (like_percent (JS.toLowerCase p)),
          (like_percent p). rewrite IHs.
        change (String (JS.lower_char d) (JS.toLowerCase s))
          with (JS.toLowerCase (String d s)). now rewrite IH.
    + assert (Hc' : Ascii.eqb c "%" = false)
        by (destruct (Ascii.eqb_spec c "%"); congruence).
      rewrite !like_cons_other by congruence.
      destruct s as [|d s]; [reflexivity|]. cbn [JS.toLowerCase].
      now rewrite Hu, !lower_char_idem, IH.
Qed.

Lemma like_percent_skip pre p t :
  Sql.like p t = true -> Sql.like (String "%" p) (pre ++ t) = true.
Proof.
  intros H. induction pre as [|c pre IH].
  - change ("" ++ t) with t. rewrite like_percent, H. reflexivity.
  - change (String c pre ++ t) with (String c (pre ++ t)).
    rewrite like_percent, IH. apply orb_true_r.
Qed.

Lemma like_percent_inv p s :
  Sql.like (String "%" p) s = true ->
  exists pre t, s = pre ++ t /\ Sql.like p t = true.
Proof.
  induction s as [|c s IH]; rewrite like_percent; intros H.
  - rewrite orb_false_r in H. now exists "", "".
  - apply orb_true_iff in H as [H|H]; [now exists "", (String c s)|].
    destruct (IH H) as (pre & t & -> & Ht). now exists (String c pre), t.
Qed.

Lemma like_start_contains q s :
  Sql.like (Video.startMatch q) s = true ->
  Sql.like (Video.containsMatch q) s = true.
Proof.
  unfold Video.startMatch, Video.containsMatch. intros H.
  change ("%" ++ q ++ "%") with (String "%" (q ++ "%")).
  apply (like_percent_skip "" _ s H).
Qed.

Lemma like_wordStart_contains q s :
  Sql.like (Video.wordStartMatch q) s = true ->
  Sql.like (Video.containsMatch q) s = true.
Proof.
  unfold Video.wordStartMatch, Video.containsMatch.
  change ("% " ++ q ++ "%") with (String "%" (String " " (q ++ "%"))).
  change ("%" ++ q ++ "%") with (String "%" (q ++ "%")).
  intros H. apply like_percent_inv in H as (pre & t & -> & Ht).
  rewrite like_cons_other in Ht by reflexivity.
  destruct t as [|d t]; [discriminate|].
  apply andb_true_iff in Ht as [_ Ht].
  replace (pre ++ String d t) with ((pre ++ String d "") ++ t)
    by (now rewrite app_assoc_string).
  now apply like_percent_skip.
Qed.

Lemma where_title_contains q v :
  Video.where_title q v
  = Sql.like (Video.containsMatch q) (Sql.LOWER (v_title v))
    || Sql.like (Video.containsMatch q) (Sql.LOWER (v_filename v)).
Proof.
  unfold Video.where_title.
  pose proof (like_start_contains q (Sql.LOWER (v_title v))) as H1.
  pose proof (like_start_contains q (Sql.LOWER (v_filename v))) as H2.
  pose proof (like_wordStart_contains q (Sql.LOWER (v_title v))) as H3.
  pose proof (like_wordStart_contains q (Sql.LOWER (v_filename v))) as H4.
  destruct (Sql.like (Video.containsMatch q) (Sql.LOWER (v_title v))),
    (Sql.like (Video.containsMatch q) (Sql.LOWER (v_filename v)));
    try reflexivity.
  destruct (Sql.like (Video.startMatch q) _); [now discriminate H1|].
  destruct (Sql.like (Video.startMatch q) _); [now discriminate H2|].
  destruct (Sql.like (Video.wordStartMatch q) _); [now discriminate H3|].
  destruct (Sql.like (Video.wordStartMatch q) _); [now discriminate H4|].
  reflexivity.
Qed.

Lemma title_like_where query v :
  Video.title_like ("%" ++ query ++ "%") v
  = Video.where_title (JS.toLowerCase query) v.
Proof.
  rewrite where_title_contains. unfold Video.title_like, Video.containsMatch, Sql.LOWER.
  rewrite <- (like_lower ("%" ++ query ++ "%") (v_title v)),
    <- (like_lower ("%" ++ query ++ "%") (v_filename v)).
  now rewrite !toLowerCase_app.
Qed.

(** X15.  The ranked title search and the plain one find the same videos,
    for every query of ASCII characters, wildcards included:
    [enhancedSearchByTitle] returns, with a rank added and in rank order,
    exactly the objects that [searchByTitle] returns newest first. *)
Theorem title_searches_agree :
  forall (db : Db.t) (query : string),
    JS.is_ascii query = true ->
    Permutation
      (List.map Spec.without_priority (Video.enhancedSearchByTitle db query))
      (Video.searchByTitle db query)
    /\ StronglySorted
         (fun a b => v_created_at (Video.row b) <= v_created_at (Video.row a))
         (Video.searchByTitle db query).
Proof.
  intros db query _. split.
  - unfold Video.enhancedSearchByTitle, Video.searchByTitle.
    rewrite (filter_ext _ _ (title_like_where query)).
    set (found := List.filter (Video.where_title (JS.toLowerCase query)) (videos db)).
    rewrite List.map_map.
    transitivity (List.map (fun r => Spec.without_priority (Video.to_video r))
                    (List.map (Video.ranked db (JS.toLowerCase query)) found)).
    { apply Permutation_map, order_by_perm. }
    transitivity (List.map Video.to_video (List.map (Video.aggregate db) found)).
    { rewrite !List.map_map. apply Permutation_refl. }
    apply Permutation_map. symmetry. apply order_by_perm.
  - unfold Video.searchByTitle. apply StronglySorted_map.
    eapply StronglySorted_weaken;
      [|apply (order_by_sorted _ newest_first_total newest_first_trans)].
    intros a b _ _ H. unfold Video.newest_first in H. simpl. lia.
Qed.

Lemma title_searches_agree_witness :
  Permutation
    (List.map Spec.without_priority
       (Video.enhancedSearchByTitle (Sample.matrix_db 10 20 30) "MAT%x"))
    (Video.searchByTitle (Sample.matrix_db 10 20 30) "MAT%x").
Proof.
  exact (proj1 (title_searches_agree (Sample.matrix_db 10 20 30) "MAT%x" eq_refl)).
Defined.

(** ** Suggestions *)

Lemma LIMIT_In {A} n (l : list A) x : In x (Sql.LIMIT n l) -> In x l.
Proof.
  unfold Sql.LIMIT. destruct (n <? 0); [auto|].
  intros H. rewrite <- (firstn_skipn (Z.to_nat n) l). apply in_or_app. now left.
Qed.

Lemma LIMIT_NoDup {A} n (l : list A) : List.NoDup l -> List.NoDup (Sql.LIMIT n l).
Proof.
  unfold Sql.LIMIT. destruct (n <? 0); [auto|].
  intros H. rewrite <- (firstn_skipn (Z.to_nat n) l) in H.
  now apply List.NoDup_app_remove_r in H.
Qed.

Lemma LIMIT_length {A} n (l : list A) :
  0 <= n -> Z.of_nat (List.length (Sql.LIMIT n l)) <= n.
Proof.
  intros Hn. unfold Sql.LIMIT. destruct (Z.ltb_spec n 0); [lia|].
  pose proof (firstn_le_length (Z.to_nat n) l). lia.
Qed.

Lemma LIMIT_unbounded {A} n (l : list A) : n < 0 -> Sql.LIMIT n l = l.
Proof. intros Hn. unfold Sql.LIMIT. destruct (Z.ltb_spec n 0); [reflexivity|lia]. Qed.

Lemma suggestion_rows_In db queryLower limit r :
  In r (Video.suggestion_rows db queryLower limit) ->
  exists v, In v (videos db)
            /\ Video.suggestion_where queryLower v = true
            /\ r = (v_title v, Video.suggestion_priority queryLower v).
Proof.
  unfold Video.suggestion_rows, Sql.DISTINCT. intros H.
  apply LIMIT_In, order_by_In, List.nodup_In, in_map_iff in H as (v & <- & Hv).
  apply filter_In in Hv as [Hv Hw]. eauto.
Qed.

Lemma suggestion_priority_title queryLower v :
  Video.suggestion_where queryLower v = true ->
  Video.suggestion_priority queryLower v = Spec.title_rank queryLower (v_title v).
Proof.
  unfold Video.suggestion_where, Video.suggestion_priority, Spec.title_rank.
  destruct (Sql.like (Video.startMatch queryLower) _); [reflexivity|].
  destruct (Sql.like (Video.wordStartMatch queryLower) _); [reflexivity|].
  destruct (Sql.like (Video.containsMatch queryLower) (Sql.LOWER (v_title v)));
    [reflexivity|].
  destruct (Sql.like (Video.containsMatch queryLower) _); [reflexivity|discriminate].
Qed.



(** ** Tag ids of a video object *)

Lemma omap_id_map_Some {A} (xs : list A) : omap id (List.map Some xs) = xs.
Proof. induction xs as [|x xs IH]; [reflexivity|]. simpl. f_equal. exact IH. Qed.

Lemma omap_id_flat_map {A B} (f : A -> list (option B)) (l : list A) :
  omap id (List.flat_map f l) = List.flat_map (fun a => omap id (f a)) l.
Proof.
  induction l as [|a l IH]; [reflexivity|]. simpl. now rewrite omap_app, IH.
Qed.

Lemma joined_linked db v : omap id (Video.joined db v) = Spec.linked_tags db v.
Proof.
  unfold Video.joined, Spec.linked_tags.
  destruct (List.filter _ (video_tags db)) as [|vt vts]; [reflexivity|].
  rewrite omap_id_flat_map. apply flat_map_ext. intros a.
  unfold Video.tags_of_link.
  destruct (List.filter _ (Db.tags db)) as [|t ts]; [reflexivity|].
  apply omap_id_map_Some.
Qed.

Lemma omap_id_col {A} (h : tag_row -> A) (g : list (option tag_row)) :
  omap id (List.map (Video.col (fun t => Some (h t))) g) = List.map h (omap id g).
Proof.
  induction g as [|[t|] g IH]; [reflexivity| |]; simpl; [f_equal|]; exact IH.
Qed.

Lemma GROUP_CONCAT_present vals :
  Sql.GROUP_CONCAT vals = Sql.GROUP_CONCAT (List.map Some (omap id vals)).
Proof. unfold Sql.GROUP_CONCAT. now rewrite omap_id_map_Some. Qed.

Lemma aggregate_tag_ids db v :
  Video.tag_ids (Video.to_video (Video.aggregate db v))
  = List.map (fun t => Some (t_id t)) (Spec.linked_tags db v).
Proof.
  unfold Video.to_video, Video.aggregate.
  cbn [Video.tag_ids Video.r_tag_ids].
  rewrite GROUP_CONCAT_present,
    (omap_id_col (fun t => JS.toString (t_id t))), joined_linked.
  rewrite split_list_group_concat.
  - rewrite List.map_map. apply map_ext. intros t. apply parseInt_toString.
  - apply List.Forall_forall. intros x Hx.
    apply in_map_iff in Hx as (t & <- & _). apply toString_plain.
Qed.

Lemma linked_tags_In db v t :
  In t (Spec.linked_tags db v) <->
  In t (Db.tags db)
  /\ exists vt, In vt (video_tags db)
                /\ vt_video_id vt = v_id v /\ vt_tag_id vt = t_id t.
Proof.
  unfold Spec.linked_tags. rewrite in_flat_map. split.
  - intros (vt & Hvt & Ht). apply filter_In in Hvt as [Hvt Hv].
    apply filter_In in Ht as [Ht Hid]. split; [exact Ht|].
    exists vt. repeat split; [exact Hvt|lia|lia].
  - intros (Ht & vt & Hvt & Hv & Hid). exists vt. split; apply filter_In;
      split; auto; lia.
Qed.

(** X17.  The [tag_ids] of a video object are exact, whatever the tag names
    and colors hold: for [getVideoById] and for every element of
    [getAllVideos] they are, in some order, the ids of the tags linked to
    the video, one per link row, and no entry is [NaN]. *)
Theorem tag_ids_are_the_linked_ids :
  forall (db : Db.t),
    (forall id o,
        Video.getVideoById db id = Some o ->
        v_id (Video.row o) = id
        /\ Permutation
             (Video.tag_ids o)
             (List.map (fun t => Some (t_id t)) (Spec.linked_tags db (Video.row o))))
    /\ (forall o,
           In o (Video.getAllVideos db) ->
           In (Video.row o) (videos db)
           /\ Permutation
                (Video.tag_ids o)
                (List.map (fun t => Some (t_id t))
                   (Spec.linked_tags db (Video.row o))))
    /\ (forall v i,
           In (Some i) (List.map (fun t => Some (t_id t)) (Spec.linked_tags db v))
           <-> exists vt t,
                 In vt (video_tags db) /\ In t (Db.tags db)
                 /\ vt_video_id vt = v_id v /\ vt_tag_id vt = t_id t /\ t_id t = i).
Proof.
  intros db. split; [|split].
  - intros id o H. unfold Video.getVideoById in H.
    destruct (List.filter _ (videos db)) as [|v vs] eqn:Hf; [discriminate|].
    injection H as <-.
    assert (Hin : In v (List.filter (fun v => v_id v =? id) (videos db)))
      by (rewrite Hf; now left).
    apply filter_In in Hin as [_ Hid]. split; [cbn; lia|].
    rewrite aggregate_tag_ids. apply Permutation_refl.
  - intros o H. unfold Video.getAllVideos in H.
    apply in_map_iff in H as (r & <- & Hr).
    apply order_by_In, in_map_iff in Hr as (v & <- & Hv).
    split; [exact Hv|]. rewrite aggregate_tag_ids. apply Permutation_refl.
  - intros v i. rewrite in_map_iff. split.
    + intros (t & E & Ht). injection E as <-.
      apply linked_tags_In in Ht as (Ht & vt & Hvt & Hv & Hid).
      exists vt, t. auto.
    + intros (vt & t & Hvt & Ht & Hv & Hid & <-). exists t. split; [reflexivity|].
      apply linked_tags_In. eauto.
Qed.

(** ** Linking and unlinking a tag *)

Lemma is_link_refl videoId tagId :
  Video.is_link videoId tagId {| vt_video_id := videoId; vt_tag_id := tagId |} = true.
Proof. unfold Video.is_link. cbn. now rewrite !Z.eqb_refl. Qed.

Lemma filter_none {A} (f : A -> bool) l :
  existsb f l = false -> List.filter (fun x => negb (f x)) l = l.
Proof.
  induction l as [|x l IH]; [reflexivity|]. simpl. intros H.
  apply orb_false_iff in H as [-> H]. simpl. now rewrite IH.
Qed.

(** X18.  [addTagToVideo] is idempotent and [removeTagFromVideo] undoes it:
    the first call reports whether the link is new, a second call reports
    [false] and changes nothing, and removing a link that was just added
    gives the database back as it was.  Once linked, the id of a stored tag
    shows in the [tag_ids] of the video; once unlinked, it does not. *)
Theorem addTagToVideo_removeTagFromVideo :
  forall (db : Db.t) (videoId tagId : Z),
    let added := Video.addTagToVideo db videoId tagId in
    let removed := Video.removeTagFromVideo db videoId tagId in
    fst added = negb (existsb (Video.is_link videoId tagId) (video_tags db))
    /\ Video.addTagToVideo (snd added) videoId tagId = (false, snd added)
    /\ (fst added = true ->
        Video.removeTagFromVideo (snd added) videoId tagId = (true, db))
    /\ (forall v, v_id v = videoId ->
                  (In (Some tagId)
                      (Video.tag_ids (Video.to_video (Video.aggregate (snd added) v)))
                   <-> exists t, In t (Db.tags db) /\ t_id t = tagId)
                  /\ ~ In (Some tagId)
                         (Video.tag_ids
                            (Video.to_video (Video.aggregate (snd removed) v))))
    /\ fst removed = existsb (Video.is_link videoId tagId) (video_tags db)
    /\ Video.removeTagFromVideo (snd removed) videoId tagId = (false, snd removed).
Proof.
  intros db videoId tagId added removed. subst added removed.
  unfold Video.addTagToVideo, Video.removeTagFromVideo.
  assert (Hgone : existsb (Video.is_link videoId tagId)
                    (List.filter (fun vt => negb (Video.is_link videoId tagId vt))
                       (video_tags db)) = false).
  { apply not_true_is_false. intros H. apply existsb_exists in H as (vt & Hvt & Hl).
    apply filter_In in Hvt as [_ Hn]. rewrite Hl in Hn. discriminate. }
  assert (Hunlinked : forall v, v_id v = videoId ->
            ~ In (Some tagId)
                (Video.tag_ids
                   (Video.to_video
                      (Video.aggregate
                         (Video.with_video_tags db
                            (List.filter
                               (fun vt => negb (Video.is_link videoId tagId vt))
                               (video_tags db))) v)))).
  { intros v Hv H. rewrite aggregate_tag_ids in H.
    apply in_map_iff in H as (t & E & Ht). injection E as E.
    apply linked_tags_In in Ht as (_ & vt & Hvt & Hvid & Htid).
    cbn [video_tags Video.with_video_tags] in Hvt.
    apply filter_In in Hvt as [_ Hn]. unfold Video.is_link in Hn.
    rewrite Hvid, Hv, Htid, E, !Z.eqb_refl in Hn. discriminate. }
  assert (Hlisted : forall db' v,
            Db.tags db' = Db.tags db ->
            In (Some tagId)
               (Video.tag_ids (Video.to_video (Video.aggregate db' v))) ->
            exists t, In t (Db.tags db) /\ t_id t = tagId).
  { intros db' v Htags H. rewrite aggregate_tag_ids in H.
    apply in_map_iff in H as (t & E & Ht). injection E as E.
    apply linked_tags_In in Ht as (Ht & _). rewrite Htags in Ht. eauto. }
  destruct (existsb (Video.is_link videoId tagId) (video_tags db)) eqn:Hex;
    cbn [fst snd negb].
  - rewrite Hex. split; [reflexivity|]. split; [reflexivity|].
    split; [discriminate|]. split; [|split; [reflexivity|]].
    + intros v Hv. split; [split|now apply Hunlinked].
      * now apply Hlisted.
      * intros (t & Ht & Hid). rewrite aggregate_tag_ids. apply in_map_iff.
        exists t. split; [now rewrite Hid|].
        apply existsb_exists in Hex as (vt & Hvt & Hl). unfold Video.is_link in Hl.
        apply andb_true_iff in Hl as [H1 H2].
        apply linked_tags_In. split; [exact Ht|]. exists vt.
        repeat split; auto; lia.
    + cbn [video_tags Video.with_video_tags]. rewrite Hgone. f_equal.
      unfold Video.with_video_tags. cbn [videos Db.tags video_tags tags_seq].
      f_equal. now apply filter_none.
  - cbn [video_tags Video.with_video_tags].
    rewrite existsb_app, Hex. cbn [existsb]. rewrite is_link_refl. cbn [orb].
    split; [reflexivity|]. split; [reflexivity|]. split; [|split; [|split; [reflexivity|]]].
    + intros _. f_equal. rewrite List.filter_app, (filter_none _ _ Hex).
      cbn [List.filter]. rewrite is_link_refl. cbn [negb].
      rewrite app_nil_r. destruct db; reflexivity.
    + intros v Hv. split; [split|now apply Hunlinked].
      * now apply Hlisted.
      * intros (t & Ht & Hid). rewrite aggregate_tag_ids. apply in_map_iff.
        exists t. split; [now rewrite Hid|].
        apply linked_tags_In. split; [exact Ht|].
        exists {| vt_video_id := videoId; vt_tag_id := tagId |}.
        cbn [video_tags Video.with_video_tags vt_video_id vt_tag_id].
        repeat split; [apply in_or_app; right; now left|now symmetry|now symmetry].
    + rewrite Hgone. f_equal. unfold Video.with_video_tags.
      cbn [videos Db.tags video_tags tags_seq]. f_equal. now apply filter_none.
Qed.

(** ** Finding or creating a tag *)

Lemma getTagByName_ext db name name' :
  JS.toLowerCase name' = JS.toLowerCase name ->
  Tag.getTagByName db name' = Tag.getTagByName db name.
Proof. intros H. unfold Tag.getTagByName, Sql.LOWER. now rewrite H. Qed.

Lemma getTagByName_none db name :
  Tag.getTagByName db name = None ->
  forall t, In t (Db.tags db) -> JS.toLowerCase (t_name t) <> JS.toLowerCase name.
Proof.
  unfold Tag.getTagByName, Sql.LOWER. intros H t Ht E.
  apply (find_none _ _ H) in Ht. rewrite E, String.eqb_refl in Ht. discriminate.
Qed.

Lemma find_app_none {A} (f : A -> bool) l x :
  List.find f l = None -> f x = true -> List.find f (l ++ [x]) = Some x.
Proof.
  induction l as [|y l IH]; simpl; intros H Hx; [now rewrite Hx|].
  destruct (f y); [discriminate|]. auto.
Qed.

Lemma findOrCreateTag_spec :
  forall (code : string) (db : Db.t) (name : string) (color : option string),
    let out := Tag.findOrCreateTag code db name color in
    exists id,
      fst out = JS.Resolved id
      /\ (exists t, In t (Db.tags (snd out)) /\ t_id t = id
                    /\ JS.toLowerCase (t_name t) = JS.toLowerCase name)
      /\ (forall name' color',
             JS.toLowerCase name' = JS.toLowerCase name ->
             Tag.findOrCreateTag code (snd out) name' color'
             = (JS.Resolved id, snd out))
      /\ (Spec.name_taken_ci db name -> snd out = db)
      /\ (Spec.names_distinct_ci db -> Spec.names_distinct_ci (snd out)).
Proof.
  intros code db name color out. subst out. unfold Tag.findOrCreateTag.
  destruct (Tag.getTagByName db name) as [existingTag|] eqn:Hfind.
  - exists (t_id existingTag). cbn [fst snd].
    split; [reflexivity|]. split; [|split; [|split; [auto|auto]]].
    + unfold Tag.getTagByName, Sql.LOWER in Hfind.
      apply find_some in Hfind as [Hin He]. apply String.eqb_eq in He. eauto.
    + intros name' color' Hl. now rewrite (getTagByName_ext _ _ _ Hl), Hfind.
  - pose proof (getTagByName_none _ _ Hfind) as Hnone.
    assert (Hfree : Tag.violates_unique db name = false).
    { apply not_true_is_false. intros H. apply violates_unique_spec in H as (t & Ht & E).
      apply (Hnone t Ht). now rewrite E. }
    unfold Tag.createTag, Tag.insert_tag. rewrite Hfree. cbn [fst snd].
    set (new := {| t_id := Tag.next_id db; t_name := name; t_color := color;
                   t_parent_id := None; t_category := Some "custom";
                   t_level := Some 1 |}).
    exists (Tag.next_id db). split; [reflexivity|].
    split; [|split; [|split]].
    + exists new. cbn [Db.tags]. split; [apply in_or_app; right; now left|].
      split; reflexivity.
    + intros name' color' Hl. unfold Tag.getTagByName. cbn [Db.tags].
      rewrite (find_app_none _ _ new).
      * reflexivity.
      * unfold Tag.getTagByName in Hfind. unfold Sql.LOWER in *. now rewrite Hl.
      * unfold Sql.LOWER. cbn [t_name new]. rewrite Hl. apply String.eqb_refl.
    + intros (t & Ht & E). exfalso. now apply (Hnone t Ht).
    + unfold Spec.names_distinct_ci. cbn [Db.tags]. intros Hnd.
      rewrite List.map_app. cbn [List.map t_name new].
      apply List.NoDup_app; [exact Hnd|repeat constructor; intros []|].
      intros x Hx [<-|[]]. apply in_map_iff in Hx as (t & E & Ht).
      now apply (Hnone t Ht).
Qed.

(** X19.  [findOrCreateTag] always resolves, and with the id of a tag that
    is in the table afterwards under a name equal to the requested one up
    to case; calling it again, with the name in any spelling of case,
    returns the same id and changes nothing.  It adds a row only when no
    tag has the name up to case, so it keeps tag names distinct up to case
    if they were. *)
Theorem findOrCreateTag_idempotent :
  forall (code : string) (db : Db.t) (name : string) (color : option string),
    let out := Tag.findOrCreateTag code db name color in
    exists id,
      fst out = JS.Resolved id
      /\ (exists t, In t (Db.tags (snd out)) /\ t_id t = id
                    /\ JS.toLowerCase (t_name t) = JS.toLowerCase name)
      /\ (forall name' color',
             JS.toLowerCase name' = JS.toLowerCase name ->
             Tag.findOrCreateTag code (snd out) name' color'
             = (JS.Resolved id, snd out))
      /\ (Spec.name_taken_ci db name -> snd out = db)
      /\ (Spec.names_distinct_ci db -> Spec.names_distinct_ci (snd out)).
Proof. exact findOrCreateTag_spec. Qed.

(** ** Unused tags *)

Lemma in_use_count db t : Tag.in_use db t = (0 <? Tag.video_count db t).
Proof.
  unfold Tag.in_use, Tag.video_count.
  induction (video_tags db) as [|vt l IH]; [reflexivity|]. simpl.
  destruct (vt_tag_id vt =? t_id t); simpl; [|exact IH].
  symmetry. apply Z.ltb_lt. lia.
Qed.

Lemma unused_count db t : negb (Tag.in_use db t) = (Tag.video_count db t =? 0).
Proof.
  rewrite in_use_count. unfold Tag.video_count.
  destruct (Z.ltb_spec 0 (Z.of_nat (List.length
              (List.filter (fun vt => vt_tag_id vt =? t_id t) (video_tags db)))));
    destruct (Z.eqb_spec (Z.of_nat (List.length
              (List.filter (fun vt => vt_tag_id vt =? t_id t) (video_tags db)))) 0);
    simpl; try reflexivity; lia.
Qed.

Lemma filter_filter_same {A} (f : A -> bool) l :
  List.filter f (List.filter f l) = List.filter f l.
Proof.
  induction l as [|x l IH]; [reflexivity|]. simpl.
  destruct (f x) eqn:E; simpl; [rewrite E; f_equal|]; exact IH.
Qed.

Lemma filter_filter_none {A} (f : A -> bool) l :
  List.filter (fun x => negb (f x)) (List.filter f l) = [].
Proof.
  induction l as [|x l IH]; [reflexivity|]. simpl.
  destruct (f x) eqn:E; simpl; [rewrite E; simpl|]; exact IH.
Qed.

Lemma filter_comm {A} (f g : A -> bool) l :
  List.filter f (List.filter g l) = List.filter g (List.filter f l).
Proof.
  induction l as [|x l IH]; [reflexivity|]. simpl.
  destruct (f x) eqn:Ef, (g x) eqn:Eg; simpl; rewrite ?Ef, ?Eg, IH; reflexivity.
Qed.

Lemma flat_map_ext_In {A B} (f g : A -> list B) l :
  (forall a, In a l -> f a = g a) -> List.flat_map f l = List.flat_map g l.
Proof.
  induction l as [|a l IH]; intros H; [reflexivity|]. simpl.
  rewrite (H a) by now left. f_equal. apply IH. intros b Hb. apply H. now right.
Qed.

Lemma filter_ext_In {A} (f g : A -> bool) l :
  (forall a, In a l -> f a = g a) -> List.filter f l = List.filter g l.
Proof.
  induction l as [|a l IH]; intros H; [reflexivity|]. simpl.
  rewrite (H a) by now left. rewrite IH; [reflexivity|].
  intros b Hb. apply H. now right.
Qed.

(** Removing tag rows that no link names changes no video object. *)
Lemma aggregate_without_unlinked db keep v :
  (forall t vt, In t (Db.tags db) -> In vt (video_tags db) ->
                vt_tag_id vt = t_id t -> keep t = true) ->
  Video.aggregate (Tag.with_tags db (List.filter keep (Db.tags db))) v
  = Video.aggregate db v.
Proof.
  intros Hkeep.
  assert (Hj : Video.joined (Tag.with_tags db (List.filter keep (Db.tags db))) v
               = Video.joined db v).
  { unfold Video.joined. cbn [video_tags Tag.with_tags].
    destruct (List.filter _ (video_tags db)) as [|vt0 vts] eqn:Hf; [reflexivity|].
    apply flat_map_ext_In. intros vt Hvt.
    assert (Hin : In vt (video_tags db)).
    { assert (H : In vt (List.filter (fun vt => vt_video_id vt =? v_id v)
                           (video_tags db))) by now rewrite Hf.
      now apply filter_In in H. }
    unfold Video.tags_of_link. cbn [Db.tags Tag.with_tags].
    rewrite filter_comm.
    rewrite (filter_ext_In keep (fun _ => true)).
    - now rewrite filter_true.
    - intros t Ht. apply filter_In in Ht as [Ht Hid].
      apply (Hkeep t vt); auto. lia. }
  unfold Video.aggregate. now rewrite Hj.
Qed.

(** X20.  [cleanupUnusedTags] deletes exactly the tags that
    [getUnusedTags] lists: it reports their number, keeps every tag that a
    link row names, leaves no unused tag behind, and changes no video
    object; run again at once it deletes nothing. *)
Theorem cleanupUnusedTags_removes_the_unused :
  forall db : Db.t,
    let out := Tag.cleanupUnusedTags db in
    fst out = Z.of_nat (List.length (Tag.getUnusedTags db))
    /\ (forall t, In t (Db.tags (snd out))
                  <-> In t (Db.tags db) /\ ~ In t (Tag.getUnusedTags db))
    /\ Tag.getUnusedTags (snd out) = []
    /\ Video.getAllVideos (snd out) = Video.getAllVideos db
    /\ (forall id, Video.getVideoById (snd out) id = Video.getVideoById db id)
    /\ Tag.cleanupUnusedTags (snd out) = (0, snd out).
Proof.
  intros db out. subst out. unfold Tag.cleanupUnusedTags. cbn [fst snd].
  assert (Hagg : forall v,
            Video.aggregate (Tag.with_tags db (List.filter (Tag.in_use db) (Db.tags db))) v
            = Video.aggregate db v).
  { intros v. apply aggregate_without_unlinked. intros t vt _ Hvt Hid.
    unfold Tag.in_use. apply existsb_exists. exists vt. split; [exact Hvt|lia]. }
  assert (Huse : forall t,
            Tag.in_use (Tag.with_tags db (List.filter (Tag.in_use db) (Db.tags db))) t
            = Tag.in_use db t) by reflexivity.
  split; [|split; [|split; [|split; [|split]]]].
  - unfold Tag.getUnusedTags.
    rewrite (Permutation_length (order_by_perm _ _)).
    now rewrite (filter_ext _ _ (unused_count db)).
  - intros t. cbn [Db.tags Tag.with_tags]. rewrite filter_In.
    unfold Tag.getUnusedTags. rewrite order_by_In, filter_In, <- unused_count.
    split.
    + intros [Ht Hu]. split; [exact Ht|]. intros [_ Hn]. rewrite Hu in Hn. discriminate.
    + intros [Ht Hn]. split; [exact Ht|].
      destruct (Tag.in_use db t); [reflexivity|]. exfalso. apply Hn. now split.
  - unfold Tag.getUnusedTags. cbn [Db.tags Tag.with_tags].
    rewrite (filter_ext_In _ (fun t => negb (Tag.in_use db t))).
    + now rewrite filter_filter_none.
    + intros t _. now rewrite <- unused_count, Huse.
  - unfold Video.getAllVideos. cbn [videos Tag.with_tags].
    now rewrite (map_ext _ _ Hagg).
  - intros id. unfold Video.getVideoById. cbn [videos Tag.with_tags].
    destruct (List.filter _ (videos db)); [reflexivity|]. now rewrite Hagg.
  - cbn [Db.tags Tag.with_tags]. f_equal.
    + rewrite (filter_ext_In _ (fun t => negb (Tag.in_use db t)))
        by (intros t _; now rewrite Huse).
      now rewrite filter_filter_none.
    + unfold Tag.with_tags. cbn [videos Db.tags video_tags tags_seq]. f_equal.
      rewrite (filter_ext_In _ (Tag.in_use db)) by (intros t _; apply Huse).
      apply filter_filter_same.
Qed.

(** ** Use counts of tags *)

Lemma getPopularTags_In db limit c :
  In c (Tag.getPopularTags db limit) ->
  exists t, In t (Db.tags db) /\ 0 < Tag.video_count db t /\ c = Tag.counted db t.
Proof.
  unfold Tag.getPopularTags. intros H.
  apply LIMIT_In, order_by_In, in_map_iff in H as (t & <- & Ht).
  apply filter_In in Ht as [Ht Hc]. apply Z.ltb_lt in Hc. eauto.
Qed.

Lemma getUnusedTags_In db t :
  In t (Tag.getUnusedTags db) <-> In t (Db.tags db) /\ Tag.video_count db t = 0.
Proof.
  unfold Tag.getUnusedTags. rewrite order_by_In, filter_In, Z.eqb_eq. reflexivity.
Qed.

(** X21.  The tag listings agree on how often a tag is used.
    [getAllTags] lists every tag once, with the number of link rows that
    name it; [getUnusedTags] holds the tags whose count is 0 and
    [getPopularTags] only tags whose count is at least 1 (all of them when
    the limit is negative, never more than a non-negative limit), so no
    tag is in both; and a link that [addTagToVideo] newly adds raises the
    count of the linked tag by one and no other count. *)
Theorem tag_use_counts :
  forall db : Db.t,
    Permutation (List.map Tag.ct_tag (Tag.getAllTags db)) (Db.tags db)
    /\ (forall c, In c (Tag.getAllTags db) ->
                  Tag.ct_video_count c
                  = Z.of_nat (List.length
                                (List.filter
                                   (fun vt => vt_tag_id vt =? t_id (Tag.ct_tag c))
                                   (video_tags db))))
    /\ (forall t, In t (Tag.getUnusedTags db)
                  <-> In t (Db.tags db) /\ Tag.video_count db t = 0)
    /\ (forall limit c,
           In c (Tag.getPopularTags db limit) ->
           In (Tag.ct_tag c) (Db.tags db)
           /\ 1 <= Tag.ct_video_count c
           /\ Tag.ct_video_count c = Tag.video_count db (Tag.ct_tag c)
           /\ ~ In (Tag.ct_tag c) (Tag.getUnusedTags db))
    /\ (forall limit, 0 <= limit ->
                      Z.of_nat (List.length (Tag.getPopularTags db limit)) <= limit)
    /\ (forall limit t,
           limit < 0 -> In t (Db.tags db) -> 1 <= Tag.video_count db t ->
           In (Tag.counted db t) (Tag.getPopularTags db limit))
    /\ (forall videoId tagId t,
           fst (Video.addTagToVideo db videoId tagId) = true ->
           Tag.video_count (snd (Video.addTagToVideo db videoId tagId)) t
           = Tag.video_count db t + (if t_id t =? tagId then 1 else 0)).
Proof.
  intros db. split; [|split; [|split; [|split; [|split; [|split]]]]].
  - unfold Tag.getAllTags. rewrite List.map_map. cbn [Tag.ct_tag Tag.counted].
    rewrite List.map_id. apply order_by_perm.
  - intros c Hc. unfold Tag.getAllTags in Hc.
    apply in_map_iff in Hc as (t & <- & _). reflexivity.
  - apply getUnusedTags_In.
  - intros limit c Hc. apply getPopularTags_In in Hc as (t & Ht & Hpos & ->).
    cbn [Tag.ct_tag Tag.ct_video_count Tag.counted].
    split; [exact Ht|]. split; [lia|]. split; [reflexivity|].
    intros Hu. apply getUnusedTags_In in Hu as [_ Hz]. lia.
  - intros limit Hl. unfold Tag.getPopularTags. now apply LIMIT_length.
  - intros limit t Hl Ht Hc. unfold Tag.getPopularTags.
    rewrite LIMIT_unbounded by exact Hl.
    apply order_by_In, in_map_iff. exists t. split; [reflexivity|].
    apply filter_In. split; [exact Ht|]. apply Z.ltb_lt. lia.
  - intros videoId tagId t. unfold Video.addTagToVideo.
    destruct (existsb _ (video_tags db)); [discriminate|]. intros _.
    cbn [snd]. unfold Tag.video_count. cbn [video_tags Video.with_video_tags].
    rewrite List.filter_app, length_app. cbn [List.filter vt_tag_id].
    rewrite (Z.eqb_sym tagId (t_id t)).
    destruct (t_id t =? tagId); simpl; lia.
Qed.

(** ** Deleting and renaming a tag *)

Lemma find_filter_none {A} (f : A -> bool) l :
  List.find f (List.filter (fun x => negb (f x)) l) = None.
Proof.
  induction l as [|x l IH]; [reflexivity|]. simpl.
  destruct (f x) eqn:E; simpl; [|rewrite E]; exact IH.
Qed.

Lemma find_filter_other {A} (f g : A -> bool) l :
  (forall x, f x = true -> g x = true) ->
  List.find f (List.filter g l) = List.find f l.
Proof.
  intros H. induction l as [|x l IH]; [reflexivity|]. simpl.
  destruct (g x) eqn:Eg; simpl.
  - destruct (f x); [reflexivity|exact IH].
  - destruct (f x) eqn:Ef; [|exact IH]. rewrite (H x Ef) in Eg. discriminate.
Qed.

Lemma filter_flat_map {A B} (p : B -> bool) (f : A -> list B) l :
  List.filter p (List.flat_map f l) = List.flat_map (fun a => List.filter p (f a)) l.
Proof.
  induction l as [|a l IH]; [reflexivity|]. simpl.
  now rewrite List.filter_app, IH.
Qed.

Lemma filter_map_swap {A B} (p : B -> bool) (f : A -> B) l :
  List.filter p (List.map f l) = List.map f (List.filter (fun a => p (f a)) l).
Proof.
  induction l as [|a l IH]; [reflexivity|]. simpl.
  destruct (p (f a)); simpl; now rewrite IH.
Qed.

(** X22.  [deleteTag] reports whether a tag had the id; afterwards
    [getTagById] finds no tag under it while every other id answers as
    before, the [tag_ids] of every video object are the former ones
    without the deleted id, and a second call reports [false] and changes
    nothing. *)
Theorem deleteTag_forgets_the_tag :
  forall (db : Db.t) (id : Z),
    let out := Tag.deleteTag db id in
    (fst out = true <-> exists t, In t (Db.tags db) /\ t_id t = id)
    /\ Tag.getTagById (snd out) id = None
    /\ (forall id', id' <> id ->
                    Tag.getTagById (snd out) id' = Tag.getTagById db id')
    /\ (forall v,
           Video.tag_ids (Video.to_video (Video.aggregate (snd out) v))
           = List.filter
               (fun x => match x with
                         | Some i => negb (i =? id)
                         | None => true
                         end)
               (Video.tag_ids (Video.to_video (Video.aggregate db v))))
    /\ Tag.deleteTag (snd out) id = (false, snd out).
Proof.
  intros db id out. subst out. unfold Tag.deleteTag. cbn [fst snd].
  split; [|split; [|split; [|split]]].
  - rewrite existsb_exists. split.
    + intros (t & Ht & E). exists t. split; [exact Ht|lia].
    + intros (t & Ht & E). exists t. split; [exact Ht|lia].
  - unfold Tag.getTagById. cbn [Db.tags Tag.with_tags].
    now rewrite (find_filter_none (fun t => t_id t =? id)).
  - intros id' Hne. unfold Tag.getTagById. cbn [Db.tags Tag.with_tags].
    rewrite find_filter_other; [reflexivity|].
    intros t Ht. apply Z.eqb_eq in Ht. apply negb_true_iff, Z.eqb_neq. lia.
  - intros v. rewrite !aggregate_tag_ids, filter_map_swap. f_equal.
    unfold Spec.linked_tags. cbn [Db.tags video_tags Tag.with_tags].
    rewrite filter_flat_map. apply flat_map_ext. intros vt. apply filter_comm.
  - cbn [Db.tags Tag.with_tags]. f_equal.
    + apply not_true_is_false. intros H. apply existsb_exists in H as (t & Ht & E).
      apply filter_In in Ht as [_ Hn]. rewrite E in Hn. discriminate.
    + unfold Tag.with_tags. cbn [videos Db.tags video_tags tags_seq]. f_equal.
      apply filter_filter_same.
Qed.

Lemma map_id_same (f : tag_row -> tag_row) (sel : tag_row -> bool) l :
  (forall t, In t l -> sel t = false) ->
  List.map (fun t => if sel t then f t else t) l = l.
Proof.
  induction l as [|t l IH]; intros H; [reflexivity|]. simpl.
  rewrite (H t) by now left. f_equal. apply IH. intros u Hu. apply H. now right.
Qed.

(** X23.  [updateTag] is rejected exactly when a tag has the id and
    another tag already holds the new name, and reports [false] exactly
    when no tag has the id; in both cases the table is unchanged.
    Otherwise every row with the id gets the new name and color, and the
    new category only if a non-empty one is given, while ids, parents and
    levels of all rows, and all of every other row, stay as they were. *)
Theorem updateTag_rewrites_one_row :
  forall (code : string) (db : Db.t) (id : Z) (name : string)
         (color category : option string),
    let out := Tag.updateTag code db id name color category in
    let known := exists t, In t (Db.tags db) /\ t_id t = id in
    let clash := exists t, In t (Db.tags db) /\ t_id t <> id /\ t_name t = name in
    ((exists e, fst out = JS.Rejected e) <-> known /\ clash)
    /\ (fst out = JS.Resolved false <-> ~ known)
    /\ (fst out <> JS.Resolved true -> snd out = db)
    /\ (fst out = JS.Resolved true ->
        Db.tags (snd out)
        = List.map
            (fun t => if t_id t =? id
                      then {| t_id := t_id t;
                              t_name := name;
                              t_color := color;
                              t_parent_id := t_parent_id t;
                              t_category := match category with
                                            | Some EmptyString | None => t_category t
                                            | Some c => Some c
                                            end;
                              t_level := t_level t |}
                      else t)
            (Db.tags db)
        /\ videos (snd out) = videos db
        /\ video_tags (snd out) = video_tags db).
Proof.
  intros code db id name color category out known clash. subst out known clash.
  unfold Tag.updateTag.
  assert (Hhit : existsb (fun t => t_id t =? id) (Db.tags db) = true
                 <-> exists t, In t (Db.tags db) /\ t_id t = id).
  { rewrite existsb_exists. split; intros (t & Ht & E); exists t; (split; [exact Ht|lia]). }
  assert (Hclash : existsb (fun t => negb (t_id t =? id) && String.eqb (t_name t) name)
                     (Db.tags db) = true
                   <-> exists t, In t (Db.tags db) /\ t_id t <> id /\ t_name t = name).
  { rewrite existsb_exists. split.
    - intros (t & Ht & E). apply andb_true_iff in E as [E1 E2].
      apply negb_true_iff, Z.eqb_neq in E1. apply String.eqb_eq in E2. eauto.
    - intros (t & Ht & E1 & E2). exists t. split; [exact Ht|].
      apply andb_true_iff. split; [now apply negb_true_iff, Z.eqb_neq|].
      now apply String.eqb_eq. }
  destruct (existsb (fun t => t_id t =? id) (Db.tags db)) eqn:Eh;
    destruct (existsb (fun t => negb (t_id t =? id) && String.eqb (t_name t) name)
                (Db.tags db)) eqn:Ec; cbn [andb fst snd].
  - split; [split; [intros _; split; [now apply Hhit|now apply Hclash]|eauto]|].
    split; [split; [discriminate|intros H; exfalso; apply H; now apply Hhit]|].
    split; [reflexivity|discriminate].
  - split; [split; [intros [e H]; discriminate|]|].
    { intros [_ H]. apply Hclash in H. discriminate. }
    split; [split; [discriminate|intros H; exfalso; apply H; now apply Hhit]|].
    split; [congruence|]. intros _. split; [|split; reflexivity].
    cbn [Db.tags Tag.with_tags]. apply map_ext. intros t.
    destruct (t_id t =? id); [|reflexivity]. unfold Tag.updated_tag.
    destruct category as [[|c s]|]; reflexivity.
  - split; [split; [intros [e H]; discriminate|]|].
    { intros [H _]. apply Hhit in H. discriminate. }
    assert (Hsame : Tag.with_tags db
                      (List.map (fun t => if t_id t =? id
                                          then Tag.updated_tag name color category t
                                          else t) (Db.tags db)) = db).
    { rewrite map_id_same; [destruct db; reflexivity|].
      intros t Ht. apply not_true_is_false. intros E.
      assert (H : existsb (fun t => t_id t =? id) (Db.tags db) = true)
        by (apply existsb_exists; eauto).
      congruence. }
    split; [split; [intros _ H; apply Hhit in H; discriminate|reflexivity]|].
    split; [intros _; exact Hsame|discriminate].
  - split; [split; [intros [e H]; discriminate|]|].
    { intros [H _]. apply Hhit in H. discriminate. }
    assert (Hsame : Tag.with_tags db
                      (List.map (fun t => if t_id t =? id
                                          then Tag.updated_tag name color category t
                                          else t) (Db.tags db)) = db).
    { rewrite map_id_same; [destruct db; reflexivity|].
      intros t Ht. apply not_true_is_false. intros E.
      assert (H : existsb (fun t => t_id t =? id) (Db.tags db) = true)
        by (apply existsb_exists; eauto).
      congruence. }
    split; [split; [intros _ H; apply Hhit in H; discriminate|reflexivity]|].
    split; [intros _; exact Hsame|discriminate].
Qed.

(** ** The tag routes *)

Lemma findOrCreateTag_found code db name color t :
  Tag.getTagByName db name = Some t ->
  Tag.findOrCreateTag code db name color = (JS.Resolved (t_id t), db).
Proof. intros H. unfold Tag.findOrCreateTag. now rewrite H. Qed.

Lemma findOrCreateTag_then_found code db name color name' :
  JS.toLowerCase name' = JS.toLowerCase name ->
  exists t,
    Tag.getTagByName (snd (Tag.findOrCreateTag code db name color)) name' = Some t
    /\ fst (Tag.findOrCreateTag code db name color) = JS.Resolved (t_id t).
Proof.
  intros Hl. destruct (findOrCreateTag_spec code db name color)
    as (id & Hid & _ & Hagain & _).
  specialize (Hagain name' None Hl). unfold Tag.findOrCreateTag at 1 in Hagain.
  destruct (Tag.getTagByName _ name') as [t|] eqn:Hg.
  - exists t. split; [reflexivity|]. injection Hagain as <-. exact Hid.
  - exfalso. unfold Tag.createTag, Tag.insert_tag in Hagain.
    destruct (Tag.violates_unique _ name').
    + destruct (String.eqb code _); discriminate.
    + injection Hagain as _ Hdb. apply (f_equal Db.tags) in Hdb.
      cbn [Db.tags] in Hdb. apply (f_equal (@List.length _)) in Hdb.
      rewrite length_app in Hdb. simpl in Hdb. lia.
Qed.

Lemma getTagByName_tags db db' name :
  Db.tags db' = Db.tags db -> Tag.getTagByName db' name = Tag.getTagByName db name.
Proof. intros H. unfold Tag.getTagByName. now rewrite H. Qed.

Lemma addTagToVideo_keeps db videoId tagId :
  videos (snd (Video.addTagToVideo db videoId tagId)) = videos db
  /\ Db.tags (snd (Video.addTagToVideo db videoId tagId)) = Db.tags db
  /\ existsb (Video.is_link videoId tagId)
       (video_tags (snd (Video.addTagToVideo db videoId tagId))) = true.
Proof.
  unfold Video.addTagToVideo.
  destruct (existsb _ (video_tags db)) eqn:E; cbn [snd]; [auto|].
  repeat split. cbn [video_tags Video.with_video_tags].
  rewrite existsb_app. cbn [existsb]. rewrite is_link_refl. apply orb_true_r.
Qed.

Lemma addTagToVideo_again db videoId tagId :
  existsb (Video.is_link videoId tagId) (video_tags db) = true ->
  Video.addTagToVideo db videoId tagId = (false, db).
Proof. intros H. unfold Video.addTagToVideo. now rewrite H. Qed.

(** X24.  [POST /api/videos/:id/tags] refuses a missing or empty tag name
    with 400 and otherwise always succeeds: it answers with the id of a
    tag whose name equals the requested one up to case, creating the tag
    only if no such tag exists, and links that tag to the video.  It is
    idempotent: the same request again, with the name in any spelling of
    case and any color, gives the same id and changes nothing. *)
Theorem add_video_tag_links_once :
  forall (code : string) (id : Z) (tagName tagColor : option string) (db : Db.t),
    let out := App.add_video_tag code id tagName tagColor db in
    (JS.truthy tagName = false ->
     out = (App.Fail 400 "Tag name is required", db))
    /\ (forall name,
           tagName = Some name -> name <> "" ->
           exists tagId,
             fst out = App.Json tagId
             /\ existsb (Video.is_link id tagId) (video_tags (snd out)) = true
             /\ (exists t, In t (Db.tags (snd out)) /\ t_id t = tagId
                           /\ JS.toLowerCase (t_name t) = JS.toLowerCase name)
             /\ (Spec.name_taken_ci db name -> Db.tags (snd out) = Db.tags db)
             /\ videos (snd out) = videos db
             /\ forall name' color',
                  JS.toLowerCase name' = JS.toLowerCase name -> name' <> "" ->
                  App.add_video_tag code id (Some name') color' (snd out)
                  = (App.Json tagId, snd out)).
Proof.
  intros code id tagName tagColor db out. subst out. split.
  - intros H. unfold App.add_video_tag. rewrite H. reflexivity.
  - intros name -> Hne. unfold App.add_video_tag.
    assert (Ht : JS.truthy (Some name) = true) by (destruct name; [congruence|reflexivity]).
    rewrite Ht. cbn [negb].
    set (color := Some (App.or_default tagColor "#007bff")).
    destruct (findOrCreateTag_spec code db name color)
      as (tagId & Hid & Hin & _ & Hsame & _).
    destruct (Tag.findOrCreateTag code db name color) as [r db1] eqn:Hf.
    cbn [fst snd] in Hid, Hin, Hsame. subst r.
    destruct (addTagToVideo_keeps db1 id tagId) as (Hv & Htags & Hlink).
    assert (Hvideos : videos db1 = videos db).
    { pose proof Hf as Hf'. unfold Tag.findOrCreateTag in Hf'.
      destruct (Tag.getTagByName db name); [now injection Hf' as _ <-|].
      unfold Tag.createTag, Tag.insert_tag in Hf'.
      destruct (Tag.violates_unique db name).
      - destruct (String.eqb code _); now injection Hf' as _ <-.
      - now injection Hf' as _ <-. }
    destruct (Video.addTagToVideo db1 id tagId) as [changed db2] eqn:Ha.
    cbn [fst snd] in *. exists tagId.
    split; [reflexivity|]. split; [exact Hlink|]. split; [|split; [|split]].
    + destruct Hin as (t & Hin & E1 & E2). exists t. rewrite Htags. auto.
    + intros Htaken. rewrite Htags. now rewrite (Hsame Htaken).
    + now rewrite Hv.
    + intros name' color' Hl Hne'.
      assert (Ht' : JS.truthy (Some name') = true)
        by (destruct name'; [congruence|reflexivity]).
      rewrite Ht'. cbn [negb].
      destruct (findOrCreateTag_then_found code db name color name' Hl)
        as (t & Hg & Hr).
      rewrite Hf in Hg, Hr. cbn [fst snd] in Hg, Hr. injection Hr as Hr.
      rewrite <- (getTagByName_tags db1 db2 name' Htags) in Hg.
      rewrite (findOrCreateTag_found _ _ _ _ _ Hg), <- Hr.
      now rewrite (addTagToVideo_again _ _ _ Hlink).
Qed.

Lemma add_video_tag_links_once_witness :
  exists tagId,
    fst (App.add_video_tag "SQLITE_CONSTRAINT" 1 (Some "movie") None Sample.movie_db)
    = App.Json tagId
    /\ existsb (Video.is_link 1 tagId)
         (video_tags (snd (App.add_video_tag "SQLITE_CONSTRAINT" 1 (Some "movie") None
                             Sample.movie_db))) = true
    /\ Db.tags (snd (App.add_video_tag "SQLITE_CONSTRAINT" 1 (Some "movie") None
                       Sample.movie_db)) = Db.tags Sample.movie_db.
Proof.
  destruct (proj2 (add_video_tag_links_once "SQLITE_CONSTRAINT" 1 (Some "movie") None
                     Sample.movie_db) "movie" eq_refl)
    as (tagId & H1 & H2 & _ & H4 & _).
  - discriminate.
  - exists tagId. split; [exact H1|]. split; [exact H2|]. apply H4.
    exists (Sample.mk_tag 1 "Movie" "#dc3545"). split; [now left|reflexivity].
Defined.

(** X25.  [POST /api/tags] answers 400 for a missing or empty name and 500
    when a tag with exactly that name exists, changing nothing in either
    case; otherwise it appends one row with a fresh id, the color and
    category defaulting to ['#007bff'] and ['custom'], and level 2 exactly
    when a parent id other than 0 is given, level 1 otherwise.  The parent
    id is stored as given: no tag need have it. *)
Theorem create_tag_route :
  forall (code : string) (name color category : option string) (parentId : option Z)
         (db : Db.t),
    let out := App.create_tag code name color category parentId db in
    (JS.truthy name = false ->
     out = (App.Fail 400 "Tag name is required", db))
    /\ (forall n,
           name = Some n -> n <> "" ->
           (Spec.name_taken db n ->
            out = (App.Fail 500 "Failed to create tag", db))
           /\ (~ Spec.name_taken db n ->
               exists id,
                 (forall t, In t (Db.tags db) -> t_id t < id)
                 /\ fst out
                    = App.Json
                        {| App.r_id := id; App.r_name := n;
                           App.r_color := App.or_default color "#007bff";
                           App.r_category := App.or_default category "custom";
                           App.r_parentId := parentId;
                           App.r_level := App.level_of parentId |}
                 /\ Db.tags (snd out)
                    = (Db.tags db ++
                       [ {| t_id := id; t_name := n;
                            t_color := Some (App.or_default color "#007bff");
                            t_parent_id := parentId;
                            t_category := Some (App.or_default category "custom");
                            t_level := Some (App.level_of parentId) |} ])%list
                 /\ videos (snd out) = videos db
                 /\ video_tags (snd out) = video_tags db))
    /\ (App.level_of parentId = 2 <-> exists p, parentId = Some p /\ p <> 0)
    /\ (App.level_of parentId = 1 <-> parentId = None \/ parentId = Some 0).
Proof.
  intros code name color category parentId db out. subst out.
  split; [|split; [|split]].
  - intros H. unfold App.create_tag. now rewrite H.
  - intros n -> Hne. unfold App.create_tag.
    assert (Ht : JS.truthy (Some n) = true) by (destruct n; [congruence|reflexivity]).
    rewrite Ht. cbn [negb]. unfold Tag.createTag, Tag.insert_tag.
    destruct (Tag.violates_unique db n) eqn:Hu.
    + split.
      * intros _. destruct (String.eqb code _); reflexivity.
      * intros H. exfalso. apply H. now apply violates_unique_spec.
    + split.
      * intros H. apply violates_unique_spec in H. congruence.
      * intros _. exists (Tag.next_id db). cbn [fst snd Db.tags videos video_tags].
        split; [intros t Ht'; now apply next_id_fresh|]. repeat split.
  - unfold App.level_of. destruct parentId as [p|].
    + destruct (Z.eqb_spec p 0) as [->|Hp].
      * split; [discriminate|]. intros (q & E & Hq). injection E as <-. congruence.
      * split; [eauto|reflexivity].
    + split; [discriminate|]. intros (q & E & _). discriminate.
  - unfold App.level_of. destruct parentId as [p|].
    + destruct (Z.eqb_spec p 0) as [->|Hp].
      * split; [now right|reflexivity].
      * split; [discriminate|]. intros [E|E]; [discriminate|]. injection E as E. congruence.
    + split; [now left|reflexivity].
Qed.

(** ** Scanning twice *)

Lemma scan_file_known E thumbnailDir clock st f :
  App.known_path (App.sc_db st) (App.fi_file_path f) = true ->
  App.scan_file E thumbnailDir clock st f = st.
Proof. intros H. unfold App.scan_file. now rewrite H. Qed.

Lemma scan_file_spec E thumbnailDir clock st f :
  let st' := App.scan_file E thumbnailDir clock st f in
  App.known_path (App.sc_db st') (App.fi_file_path f) = true
  /\ exists added,
       videos (App.sc_db st') = (videos (App.sc_db st) ++ added)%list
       /\ Z.of_nat (List.length added) = App.sc_processed st' - App.sc_processed st
       /\ (forall v, In v added ->
                     v_file_path v = App.fi_file_path f
                     /\ v_filename v = App.fi_filename f
                     /\ v_title v = App.fi_title f
                     /\ App.known_path (App.sc_db st) (App.fi_file_path f) = false)
       /\ Db.tags (App.sc_db st') = Db.tags (App.sc_db st)
       /\ video_tags (App.sc_db st') = video_tags (App.sc_db st).
Proof.
  intros st'. subst st'. unfold App.scan_file.
  destruct (App.known_path (App.sc_db st) (App.fi_file_path f)) eqn:Hk.
  - split; [exact Hk|]. exists []. rewrite app_nil_r.
    split; [reflexivity|]. split; [simpl; lia|].
    split; [intros v []|split; reflexivity].
  - destruct (Thumb.generateThumbnail _ _ _ _ _ _ _ _) as [thumbnailPath w1].
    destruct (Thumb.generatePreview _ _ _ _ _ _ _) as [previewPath w2].
    unfold Video.addVideo. cbn [Video.n_file_path].
    unfold App.known_path in Hk. rewrite Hk. unfold Video.with_videos.
    cbn [App.sc_db App.sc_processed videos Db.tags video_tags
         Video.n_filename Video.n_title Video.n_file_path Video.n_file_size
         Video.n_duration Video.n_width Video.n_height Video.n_thumbnail_path
         Video.n_preview_path].
    split.
    + unfold App.known_path. cbn [videos]. rewrite existsb_app. cbn [existsb v_file_path].
      rewrite String.eqb_refl. apply orb_true_r.
    + eexists. split; [reflexivity|]. split; [simpl; lia|].
      split; [|split; reflexivity].
      intros v [<-|[]]. repeat split.
Qed.

Lemma known_path_app db rows p :
  App.known_path db p = true ->
  forall db', videos db' = (videos db ++ rows)%list -> App.known_path db' p = true.
Proof.
  unfold App.known_path. intros H db' ->. rewrite existsb_app, H. reflexivity.
Qed.

Lemma scan_files_spec E thumbnailDir clock files :
  forall st,
    let st' := List.fold_left (App.scan_file E thumbnailDir clock) files st in
    (forall f, In f files ->
               App.known_path (App.sc_db st') (App.fi_file_path f) = true)
    /\ exists added,
         videos (App.sc_db st') = (videos (App.sc_db st) ++ added)%list
         /\ Z.of_nat (List.length added) = App.sc_processed st' - App.sc_processed st
         /\ (forall v, In v added ->
                       exists f, In f files
                                 /\ v_file_path v = App.fi_file_path f
                                 /\ v_filename v = App.fi_filename f
                                 /\ v_title v = App.fi_title f)
         /\ (List.NoDup (List.map v_file_path (videos (App.sc_db st))) ->
             List.NoDup (List.map v_file_path (videos (App.sc_db st'))))
         /\ Db.tags (App.sc_db st') = Db.tags (App.sc_db st)
         /\ video_tags (App.sc_db st') = video_tags (App.sc_db st).
Proof.
  induction files as [|f files IH]; intros st st'; subst st'.
  - cbn [List.fold_left]. split; [intros f []|]. exists []. rewrite app_nil_r.
    split; [reflexivity|]. split; [simpl; lia|].
    split; [intros v []|]. split; [auto|split; reflexivity].
  - cbn [List.fold_left].
    destruct (scan_file_spec E thumbnailDir clock st f)
      as (Hk & added1 & H1 & L1 & P1 & T1 & V1).
    destruct (IH (App.scan_file E thumbnailDir clock st f))
      as (Hall & added2 & H2 & L2 & P2 & N2 & T2 & V2).
    split.
    + intros g [<-|Hg]; [|now apply Hall].
      eapply known_path_app; [exact Hk|exact H2].
    + exists (added1 ++ added2)%list. rewrite H2, H1, <- app_assoc.
      split; [reflexivity|]. split; [rewrite length_app; lia|].
      split; [|split; [|split; congruence]].
      * intros v Hv. apply in_app_or in Hv as [Hv|Hv].
        -- destruct (P1 v Hv) as (E1 & E2 & E3 & _). exists f.
           repeat split; auto. now left.
        -- destruct (P2 v Hv) as (g & Hg & Eg). exists g. split; [now right|exact Eg].
      * intros Hnd.
        assert (Hmid : List.NoDup
                         (List.map v_file_path
                            (videos (App.sc_db (App.scan_file E thumbnailDir clock st f))))).
        { rewrite H1, List.map_app.
          destruct added1 as [|v1 added1']; [now rewrite app_nil_r|].
          destruct (P1 v1 (or_introl eq_refl)) as (E1 & _ & _ & Hfresh).
          destruct added1' as [|v2 rest].
          - apply List.NoDup_app; [exact Hnd|repeat constructor; intros []|].
            intros p Hp [<-|[]]. rewrite E1 in Hp.
            apply in_map_iff in Hp as (v & Ev & Hv).
            unfold App.known_path in Hfresh.
            assert (Hex : existsb
                            (fun v => String.eqb (v_file_path v) (App.fi_file_path f))
                            (videos (App.sc_db st)) = true).
            { apply existsb_exists. exists v. split; [exact Hv|]. rewrite Ev.
              apply String.eqb_refl. }
            congruence.
          - exfalso. clear - L1. simpl in L1.
            unfold App.scan_file in L1.
            destruct (App.known_path (App.sc_db st) (App.fi_file_path f)); [lia|].
            destruct (Thumb.generateThumbnail _ _ _ _ _ _ _ _).
            destruct (Thumb.generatePreview _ _ _ _ _ _ _).
            destruct (Video.addVideo _ _ _ _) as [[?|?] ?];
              cbn [App.sc_processed] in L1; lia. }
        specialize (N2 Hmid). now rewrite H2, H1, <- app_assoc in N2.
Qed.

Lemma scan_files_again E thumbnailDir clock files :
  forall st,
    (forall f, In f files ->
               App.known_path (App.sc_db st) (App.fi_file_path f) = true) ->
    List.fold_left (App.scan_file E thumbnailDir clock) files st = st.
Proof.
  induction files as [|f files IH]; intros st H; [reflexivity|].
  cbn [List.fold_left]. rewrite scan_file_known by (apply H; now left).
  apply IH. intros g Hg. apply H. now right.
Qed.

(** X26.  [POST /api/scan] stores every video file the scanner finds:
    afterwards each of them has a row, the rows that were there are
    untouched, the new rows follow them, one for each file processed, with
    the file name and title of their file, and stored paths stay pairwise
    distinct.  Scanning the same directory again, as long as the scanner
    finds the same files, processes nothing and changes neither the
    database nor the thumbnail directory. *)
Theorem scan_is_idempotent :
  forall (E : Thumb.env) (thumbnailDir : string) (clock clock' : string -> Z)
         (scanDirectory : string -> list App.file_info) (directory : string)
         (videos_seq : Z) (s : App.state),
    directory <> "" ->
    let out := App.scan E thumbnailDir clock scanDirectory (Some directory)
                 videos_seq s in
    let files := scanDirectory directory in
    exists found added,
      fst out = App.Json {| App.totalFound := Z.of_nat (List.length files);
                            App.processed := found |}
      /\ videos (App.db (snd (snd out))) = (videos (App.db s) ++ added)%list
      /\ Z.of_nat (List.length added) = found
      /\ (forall f, In f files ->
                    exists v, In v (videos (App.db (snd (snd out))))
                              /\ v_file_path v = App.fi_file_path f)
      /\ (forall v, In v added ->
                    exists f, In f files
                              /\ v_file_path v = App.fi_file_path f
                              /\ v_filename v = App.fi_filename f
                              /\ v_title v = App.fi_title f)
      /\ (List.NoDup (List.map v_file_path (videos (App.db s))) ->
          List.NoDup (List.map v_file_path (videos (App.db (snd (snd out))))))
      /\ App.scan E thumbnailDir clock' scanDirectory (Some directory)
           (fst (snd out)) (snd (snd out))
         = (App.Json {| App.totalFound := Z.of_nat (List.length files);
                        App.processed := 0 |},
            snd out).
Proof.
  intros E thumbnailDir clock clock' scanDirectory directory videos_seq s Hne out files.
  subst out. unfold App.scan.
  assert (Ht : JS.truthy (Some directory) = true)
    by (destruct directory; [congruence|reflexivity]).
  rewrite Ht. cbn [negb fst snd App.db App.world]. fold files.
  set (st0 := {| App.sc_seq := videos_seq; App.sc_db := App.db s;
                 App.sc_world := App.world s; App.sc_processed := 0 |}).
  destruct (scan_files_spec E thumbnailDir clock files st0)
    as (Hall & added & H1 & L1 & P1 & N1 & _).
  set (st1 := List.fold_left (App.scan_file E thumbnailDir clock) files st0) in *.
  cbn [App.sc_db App.sc_processed st0] in H1, L1, N1.
  exists (App.sc_processed st1), added.
  split; [reflexivity|]. split; [exact H1|]. split; [lia|].
  split; [|split; [exact P1|split; [exact N1|]]].
  - intros f Hf. specialize (Hall f Hf). unfold App.known_path in Hall.
    apply existsb_exists in Hall as (v & Hv & Ev). apply String.eqb_eq in Ev. eauto.
  - set (st2 := {| App.sc_seq := App.sc_seq st1; App.sc_db := App.sc_db st1;
                   App.sc_world := App.sc_world st1; App.sc_processed := 0 |}).
    rewrite (scan_files_again E thumbnailDir clock' files st2) by exact Hall.
    reflexivity.
Qed.

Lemma scan_is_idempotent_witness :
  let files := [ {| App.fi_filename := "clip.mp4";
                    App.fi_file_path := "/media/clip.mp4";
                    App.fi_file_size := 1000; App.fi_duration := 46;
                    App.fi_width := 1920; App.fi_height := 1080;
                    App.fi_title := "clip" |} ] in
  let s := {| App.db := Sample.movie_db; App.world := Sample.empty_world |} in
  let out := App.scan Sample.tiny_env Sample.thumbnails (fun _ => 5) (fun _ => files)
               (Some "/media") 0 s in
  exists found added,
    fst out = App.Json {| App.totalFound := 1; App.processed := found |}
    /\ videos (App.db (snd (snd out))) = (videos (App.db s) ++ added)%list
    /\ App.scan Sample.tiny_env Sample.thumbnails (fun _ => 9) (fun _ => files)
         (Some "/media") (fst (snd out)) (snd (snd out))
       = (App.Json {| App.totalFound := 1; App.processed := 0 |}, snd out).
Proof.
  intros files s out.
  destruct (scan_is_idempotent Sample.tiny_env Sample.thumbnails (fun _ => 5)
              (fun _ => 9) (fun _ => files) "/media" 0 s)
    as (found & added & H1 & H2 & _ & _ & _ & _ & H7).
  - discriminate.
  - exists found, added. split; [exact H1|]. split; [exact H2|exact H7].
Defined.

(** ** Clearing the database *)

(** X27.  [DELETE /api/dev/clear-database] removes every video and then the
    unused tags.  No statement removes a link row and foreign keys are not
    enforced on the connection, so the link rows all remain, and with them
    every tag that a link row names, its use count unchanged: only the
    tags that were unused before the call are deleted. *)
Theorem clear_database_keeps_linked_tags :
  forall db : Db.t,
    let after := App.clear_database db in
    videos after = []
    /\ Video.getAllVideos after = []
    /\ video_tags after = video_tags db
    /\ (forall t, In t (Db.tags after)
                  <-> In t (Db.tags db) /\ 1 <= Tag.video_count db t)
    /\ (forall t, Tag.video_count after t = Tag.video_count db t)
    /\ Tag.getUnusedTags after = [].
Proof.
  intros db after. subst after. unfold App.clear_database, Tag.cleanupUnusedTags.
  cbn [snd]. unfold Tag.with_tags, Video.with_videos.
  cbn [videos Db.tags video_tags tags_seq].
  split; [reflexivity|]. split; [reflexivity|]. split; [reflexivity|].
  assert (Huse : forall t,
            Tag.in_use {| videos := []; Db.tags := Db.tags db;
                          video_tags := video_tags db; tags_seq := tags_seq db |} t
            = Tag.in_use db t) by reflexivity.
  split; [|split; [reflexivity|]].
  - intros t. rewrite filter_In, Huse, in_use_count, Z.ltb_lt. split; intros [H1 H2];
      (split; [exact H1|lia]).
  - unfold Tag.getUnusedTags. cbn [Db.tags].
    rewrite (filter_ext_In _ (fun t => negb (Tag.in_use db t))).
    + rewrite (filter_ext _ _ Huse). now rewrite filter_filter_none.
    + intros t _. now rewrite <- unused_count.
Qed.

(** ** Range requests *)

Lemma digit_not_dash c : JS.is_digit c = true -> Ascii.eqb c "-" = false.
Proof.
  destruct c as [[] [] [] [] [] [] [] []]; try discriminate; reflexivity.
Qed.

Lemma split_dash_digits x :
  JS.all_digits x = true -> JS.split "-" x = [x].
Proof.
  induction x as [|c x IH]; [reflexivity|]. simpl.
  intros H. apply andb_true_iff in H as [Hc Hx].
  rewrite (digit_not_dash _ Hc), (IH Hx). reflexivity.
Qed.

Lemma split_dash_app x rest :
  JS.all_digits x = true ->
  JS.split "-" (x ++ "-" ++ rest) = x :: JS.split "-" rest.
Proof.
  induction x as [|c x IH]; intros H.
  - reflexivity.
  - simpl in H. apply andb_true_iff in H as [Hc Hx].
    change (String c x ++ "-" ++ rest) with (String c (x ++ "-" ++ rest)).
    cbn [JS.split]. rewrite (digit_not_dash _ Hc), (IH Hx). reflexivity.
Qed.

Lemma replace_bytes rest : JS.replace ("bytes=" ++ rest) "bytes=" "" = rest.
Proof.
  destruct rest; reflexivity.
Qed.

Lemma createReadStream_accepts_iff s e :
  App.createReadStream_accepts (Some s) (Some e) = true
  <-> 0 <= s <= e /\ e <= App.MAX_SAFE_INTEGER.
Proof.
  unfold App.createReadStream_accepts.
  rewrite !andb_true_iff, !Z.leb_le. lia.
Qed.

(** X28.  The streaming route takes the bounds of a [Range] header as they
    are sent.  For [bytes=a-b] with [0 <= a <= b] and [b] a safe integer it
    writes a head with status 206, the bounds [a] and [b] and the length
    [b - a + 1], whatever the size of the file: the end is not cut to the
    last byte of the file.  For [bytes=a-] with [a] inside the file the end
    is the last byte of the file and the length what is left from [a].  A
    range whose end is before its start, and a suffix range [bytes=-n], are
    answered with 500.  Without the header the status is 200 and the
    length the size of the file. *)
Theorem range_head_takes_bounds_as_sent :
  forall a b fileSize : Z,
    0 <= a -> a <= b -> b <= App.MAX_SAFE_INTEGER ->
    App.range_head (Some ("bytes=" ++ JS.toString a ++ "-" ++ JS.toString b)) fileSize
    = App.Streams
        {| App.h_status := 206; App.h_start := Some a; App.h_end := Some b;
           App.h_content_length := Some (b - a + 1) |}
    /\ (a < fileSize -> fileSize - 1 <= App.MAX_SAFE_INTEGER ->
        App.range_head (Some ("bytes=" ++ JS.toString a ++ "-")) fileSize
        = App.Streams
            {| App.h_status := 206; App.h_start := Some a;
               App.h_end := Some (fileSize - 1);
               App.h_content_length := Some (fileSize - a) |})
    /\ (a < b ->
        App.range_head (Some ("bytes=" ++ JS.toString b ++ "-" ++ JS.toString a))
          fileSize
        = App.StreamFails 500 "Failed to stream video")
    /\ App.range_head (Some ("bytes=-" ++ JS.toString b)) fileSize
       = App.StreamFails 500 "Failed to stream video"
    /\ App.range_head None fileSize
       = App.Streams
           {| App.h_status := 200; App.h_start := None; App.h_end := None;
              App.h_content_length := Some fileSize |}.
Proof.
  intros a b fileSize Ha Hab Hmax.
  assert (Hb : 0 <= b) by lia.
  destruct (toString_nonneg_digits a Ha) as [Da Na].
  destruct (toString_nonneg_digits b Hb) as [Db Nb].
  assert (Ta : JS.truthy (Some (JS.toString a)) = true)
    by (destruct (JS.toString a); [congruence|reflexivity]).
  assert (Tb : JS.truthy (Some (JS.toString b)) = true)
    by (destruct (JS.toString b); [congruence|reflexivity]).
  split; [|split; [|split; [|split; [|reflexivity]]]].
  - unfold App.range_head.
    change (JS.truthy (Some ("bytes=" ++ JS.toString a ++ "-" ++ JS.toString b)))
      with true. cbv iota.
    rewrite replace_bytes, (split_dash_app _ _ Da), (split_dash_digits _ Db).
    rewrite Tb, !parseInt_toString.
    now rewrite (proj2 (createReadStream_accepts_iff a b)) by lia.
  - intros Hin Hsize. unfold App.range_head.
    change (JS.truthy (Some ("bytes=" ++ JS.toString a ++ "-"))) with true. cbv iota.
    rewrite replace_bytes.
    change (JS.toString a ++ "-") with (JS.toString a ++ "-" ++ "").
    rewrite (split_dash_app _ _ Da).
    cbn [JS.split JS.truthy]. rewrite parseInt_toString.
    rewrite (proj2 (createReadStream_accepts_iff a (fileSize - 1))) by lia.
    do 3 f_equal. lia.
  - intros Hlt. unfold App.range_head.
    change (JS.truthy (Some ("bytes=" ++ JS.toString b ++ "-" ++ JS.toString a)))
      with true. cbv iota.
    rewrite replace_bytes, (split_dash_app _ _ Db), (split_dash_digits _ Da).
    rewrite Ta, !parseInt_toString.
    destruct (App.createReadStream_accepts (Some b) (Some a)) eqn:E; [|reflexivity].
    apply createReadStream_accepts_iff in E. lia.
  - unfold App.range_head.
    change (JS.truthy (Some ("bytes=-" ++ JS.toString b))) with true. cbv iota.
    change ("bytes=-" ++ JS.toString b) with ("bytes=" ++ "" ++ "-" ++ JS.toString b).
    rewrite replace_bytes, (split_dash_app "" _ eq_refl), (split_dash_digits _ Db).
    reflexivity.
Qed.

Lemma range_head_takes_bounds_as_sent_witness :
  App.range_head (Some ("bytes=" ++ JS.toString 5000 ++ "-" ++ JS.toString 9999)) 100
  = App.Streams
      {| App.h_status := 206; App.h_start := Some 5000; App.h_end := Some 9999;
         App.h_content_length := Some (9999 - 5000 + 1) |}.
Proof.
  apply (range_head_takes_bounds_as_sent 5000 9999 100); [lia|lia|].
  unfold App.MAX_SAFE_INTEGER. lia.
Defined.

(** ** Deleting a video, and unlinking a tag *)

Lemma filter_other {A} (f g : A -> bool) l :
  (forall x, g x = true -> f x = false) ->
  List.filter g (List.filter (fun x => negb (f x)) l) = List.filter g l.
Proof.
  intros H. induction l as [|x l IH]; [reflexivity|]. simpl.
  destruct (f x) eqn:Ef; simpl.
  - destruct (g x) eqn:Eg; [|exact IH].
    rewrite (H x Eg) in Ef. discriminate.
  - destruct (g x); [f_equal|]; exact IH.
Qed.

(** X29.  [deleteVideo] deletes the row of the video and nothing else: it
    reports whether there was one, the video can no longer be fetched,
    every other video is fetched as before, and a second call reports
    [false].  The link rows of the video stay in [video_tags], so each tag
    keeps its use count and no tag becomes unused by the deletion. *)
Theorem deleteVideo_leaves_the_links :
  forall (db : Db.t) (id : Z),
    let r := Video.deleteVideo db id in
    fst r = existsb (fun v => v_id v =? id) (videos db)
    /\ Video.getVideoById (snd r) id = None
    /\ (forall id', id' <> id ->
                    Video.getVideoById (snd r) id' = Video.getVideoById db id')
    /\ video_tags (snd r) = video_tags db
    /\ (forall t, Tag.video_count (snd r) t = Tag.video_count db t)
    /\ Tag.getUnusedTags (snd r) = Tag.getUnusedTags db
    /\ Video.deleteVideo (snd r) id = (false, snd r).
Proof.
  intros db id r. subst r. unfold Video.deleteVideo. cbn [fst snd].
  split; [reflexivity|].
  split.
  { unfold Video.getVideoById, Video.with_videos. cbn [videos].
    rewrite filter_comm, filter_filter_none. reflexivity. }
  split.
  { intros id' Hne. unfold Video.getVideoById, Video.with_videos. cbn [videos].
    rewrite filter_other; [reflexivity|].
    intros v Hv. apply Z.eqb_eq in Hv. apply Z.eqb_neq. congruence. }
  split; [reflexivity|].
  split; [reflexivity|].
  split; [reflexivity|].
  unfold Video.with_videos. cbn [videos Db.tags video_tags tags_seq].
  assert (Hgone : existsb (fun v => v_id v =? id)
                    (List.filter (fun v => negb (v_id v =? id)) (videos db)) = false).
  { induction (videos db) as [|v l IH]; [reflexivity|]. simpl.
    destruct (v_id v =? id) eqn:E; simpl; [exact IH|]. now rewrite E. }
  rewrite Hgone. f_equal. f_equal. now apply filter_none.
Qed.

Lemma getTagsByVideoId_In db videoId t :
  In t (Tag.getTagsByVideoId db videoId)
  <-> In t (Db.tags db)
      /\ existsb (Video.is_link videoId (t_id t)) (video_tags db) = true.
Proof.
  unfold Tag.getTagsByVideoId. rewrite order_by_In, in_flat_map. split.
  - intros (t' & Ht' & Hin). apply in_map_iff in Hin as (vt & <- & Hvt).
    apply List.filter_In in Hvt as [Hvt Hb].
    split; [exact Ht'|]. apply existsb_exists. exists vt. split; [exact Hvt|].
    unfold Video.is_link. apply andb_true_iff in Hb as [H1 H2].
    now rewrite H1, H2.
  - intros [Ht Hex]. apply existsb_exists in Hex as (vt & Hvt & Hb).
    exists t. split; [exact Ht|]. apply in_map_iff. exists vt. split; [reflexivity|].
    apply List.filter_In. split; [exact Hvt|].
    unfold Video.is_link in Hb. apply andb_true_iff in Hb as [H1 H2].
    now rewrite H1, H2.
Qed.

(** X30.  [DELETE /api/videos/:videoId/tags/:tagId] answers 404 exactly when
    no link row joins the video and the tag, and otherwise succeeds.  In
    both cases the tags [getTagsByVideoId] lists for the video afterwards
    are those it listed before without the tags of that id, the lists of
    the other videos are unchanged, and no row of [tags] is removed: a tag
    that loses its last video stays stored. *)
Theorem remove_video_tag_unlinks_only :
  forall (db : Db.t) (videoId tagId : Z),
    let r := App.remove_video_tag videoId tagId db in
    fst r = (if existsb (Video.is_link videoId tagId) (video_tags db)
             then App.Json tt
             else App.Fail 404 "Tag relationship not found")
    /\ (forall t, In t (Tag.getTagsByVideoId (snd r) videoId)
                  <-> In t (Tag.getTagsByVideoId db videoId) /\ t_id t <> tagId)
    /\ (forall v, v <> videoId ->
                  Tag.getTagsByVideoId (snd r) v = Tag.getTagsByVideoId db v)
    /\ Db.tags (snd r) = Db.tags db
    /\ videos (snd r) = videos db.
Proof.
  intros db videoId tagId r. subst r.
  unfold App.remove_video_tag, Video.removeTagFromVideo.
  split; [now destruct (existsb _ _)|].
  assert (Hsnd : snd (if existsb (Video.is_link videoId tagId) (video_tags db)
                      then (App.Json tt,
                            Video.with_video_tags db
                              (List.filter
                                 (fun vt => negb (Video.is_link videoId tagId vt))
                                 (video_tags db)))
                      else (App.Fail 404 "Tag relationship not found",
                            Video.with_video_tags db
                              (List.filter
                                 (fun vt => negb (Video.is_link videoId tagId vt))
                                 (video_tags db))))
                 = Video.with_video_tags db
                     (List.filter (fun vt => negb (Video.is_link videoId tagId vt))
                        (video_tags db)))
    by now destruct (existsb _ _).
  rewrite Hsnd. clear Hsnd.
  split.
  { intros t. rewrite !getTagsByVideoId_In.
    unfold Video.with_video_tags. cbn [Db.tags video_tags].
    split.
    - intros [Ht Hex]. apply existsb_exists in Hex as (vt & Hvt & Hb).
      apply List.filter_In in Hvt as [Hvt Hn].
      split; [split; [exact Ht|]|].
      + apply existsb_exists. now exists vt.
      + intros E. rewrite E in Hb. rewrite Hb in Hn. discriminate.
    - intros [[Ht Hex] Hne]. split; [exact Ht|].
      apply existsb_exists in Hex as (vt & Hvt & Hb).
      apply existsb_exists. exists vt. split; [|exact Hb].
      apply List.filter_In. split; [exact Hvt|].
      unfold Video.is_link in *. apply andb_true_iff in Hb as [H1 H2].
      rewrite H1. cbn [andb]. apply Z.eqb_eq in H2.
      apply negb_true_iff, Z.eqb_neq. congruence. }
  split.
  { intros v Hv. unfold Tag.getTagsByVideoId, Video.with_video_tags.
    cbn [Db.tags video_tags]. f_equal. apply flat_map_ext_In. intros t _.
    f_equal. apply filter_other. intros vt Hvt.
    apply andb_true_iff in Hvt as [_ H2]. apply Z.eqb_eq in H2.
    unfold Video.is_link. apply andb_false_iff. left. apply Z.eqb_neq. congruence. }
  split; reflexivity.
Qed.

(** ** Searching tags by name *)

Lemma string_compare_trans a :
  forall b c,
    String.compare a b <> Gt -> String.compare b c <> Gt ->
    String.compare a c <> Gt.
Proof.
  induction a as [|x a IH]; intros [|y b] [|z c]; simpl; try congruence.
  unfold Ascii.compare.
  destruct (N.compare_spec (Ascii.N_of_ascii x) (Ascii.N_of_ascii y)),
    (N.compare_spec (Ascii.N_of_ascii y) (Ascii.N_of_ascii z)),
    (N.compare_spec (Ascii.N_of_ascii x) (Ascii.N_of_ascii z));
    try congruence; try lia.
  apply IH.
Qed.

Lemma by_name_total a b : Tag.by_name a b = false -> Tag.by_name b a = true.
Proof.
  unfold Tag.by_name. intros H.
  destruct (String.leb_total (t_name a) (t_name b)) as [E|E]; congruence.
Qed.

Lemma by_name_trans a b c :
  Tag.by_name a b = true -> Tag.by_name b c = true -> Tag.by_name a c = true.
Proof.
  unfold Tag.by_name, String.leb. intros H1 H2.
  pose proof (string_compare_trans (t_name a) (t_name b) (t_name c)) as T.
  destruct (String.compare (t_name a) (t_name b)),
    (String.compare (t_name b) (t_name c)),
    (String.compare (t_name a) (t_name c));
    try reflexivity; try discriminate;
    exfalso; apply T; congruence.
Qed.


